(** * NowClipboard: capability negotiation, retry and fallback chain

    A shallow embedding of [NowClipboard.esm.mjs]: the backoff/timeout
    controller ([parseRetryConfig], [withTimeout], [retryOperation]), the OS
    process adapter ([nodeClipboardCopy], [nodeClipboardRead] and their
    [xsel] fallbacks), the text write chain ([modernCopy], [legacyCopy],
    [copyText]), the permission query, the paste-data parser, the event
    emitter, the read chain, the support check, selection and cut, the image
    and rich-text copies, and the click handler.

    Conventions of the embedding.
    - JavaScript numbers that the code uses as counters, delays, deadlines
      and exit codes are integers and are modelled by [Z].
    - A promise is modelled by its final state together with the instant at
      which it settles, on a clock that counts milliseconds; every
      asynchronous function takes the instant [now] at which it is called.
    - Everything the host answers (the clipboard API, [document.execCommand],
      [child_process.spawn], the permission subsystem, the instant at which a
      timer fires, what a listener does when it is called) is an oracle; what
      the code does to the host is recorded in a trace. *)

From Stdlib Require Import ZArith List String Ascii Bool Lia DecimalString.
Import ListNotations.

Local Open Scope string_scope.
Local Open Scope Z_scope.

(* ================================================================== *)
(** ** Values, errors and promises *)

(** The error objects the library creates or forwards.  [Error m] is
    [new Error(m)], [TypeError m] is [new TypeError(m)]; [DOMException] stands
    for the rejections of the platform APIs. *)
Inductive js_error : Type :=
| Error (message : string)
| TypeError (message : string)
| DOMException (name message : string).

Inductive outcome (T : Type) : Type :=
| Resolved (v : T)
| Rejected (e : js_error).
Arguments Resolved {T} v.
Arguments Rejected {T} e.

(** The final state of a promise: it never settles, or it settles at instant
    [at_ms] with an outcome. *)
Inductive promise (T : Type) : Type :=
| Pending
| Settled (at_ms : Z) (o : outcome T).
Arguments Pending {T}.
Arguments Settled {T} at_ms o.

(** [Promise.resolve(val)] and [Promise.reject(err)], called at [now]. *)
Definition resolvedPromise {T} (now : Z) (val : T) : promise T :=
  Settled now (Resolved val).

Definition rejectedPromise {T} (now : Z) (err : js_error) : promise T :=
  Settled now (Rejected err).

(** A promise settles once: later calls of [resolve] / [reject] are ignored. *)
Definition settle_once {T} (first later : promise T) : promise T :=
  match first with
  | Pending => later
  | Settled _ _ => first
  end.

Definition rejection_of {T} (p : promise T) : option js_error :=
  match p with
  | Settled _ (Rejected e) => Some e
  | _ => None
  end.

Definition resolution_of {T} (p : promise T) : option T :=
  match p with
  | Settled _ (Resolved v) => Some v
  | _ => None
  end.

(** String conversion of an integer, as in ['' + n]. *)
Definition string_of_Z (z : Z) : string :=
  NilZero.string_of_int (Z.to_int z).

(** The timers of the host.  [setTimeout(f, ms)] called at [now] runs [f] at
    the instant [fires now ms]: hosts do not honour every delay (Node takes a
    delay outside 1 .. 2^31-1 as 1 ms, browsers wrap it to 32 bits), so the
    instant is the host's answer.  [promise_first] tells what happens when a
    promise settles at the very instant at which a timer fires: whether the
    reactions of the promise run before the callback of the timer, which in
    the code depends on which of the two was scheduled first. *)
Record Timers : Type := mkTimers {
  fires : Z -> Z -> Z;
  promise_first : bool
}.

(* ================================================================== *)
(** ** Backoff / timeout controller *)

Module Controller.

(** The [options] argument: absent, a bare number (legacy shorthand for the
    retry count) or an object whose fields may be absent. *)
Inductive options : Type :=
| OptAbsent
| OptNumber (n : Z)
| OptObject (container : option string) (retries retryDelay timeout : option Z).

Record RetryConfig : Type := mkConfig {
  retries : Z;
  retryDelay : Z;
  timeout : Z
}.

Definition or_default (o : option Z) (d : Z) : Z :=
  match o with Some v => v | None => d end.

Definition parseRetryConfig (opts : options) : RetryConfig :=
  match opts with
  | OptNumber n => mkConfig n 100 0
  | OptAbsent => mkConfig 2 100 0
  | OptObject _ r d t => mkConfig (or_default r 2) (or_default d 100) (or_default t 0)
  end.

Definition timeout_error (ms : Z) : js_error :=
  Error ("Operation timed out after " ++ string_of_Z ms ++ "ms").

(** [withTimeout(promise, ms)] called at [now].  With [ms <= 0] the promise
    is returned as it is.  Otherwise a timer is armed at [now] and the first
    of the two to act decides: the promise when it settles before the timer
    fires, the timer when it fires before the promise settles; when both
    happen at the same instant the host's order decides. *)
Definition withTimeout {T} (timers : Timers) (now : Z) (p : promise T) (ms : Z)
  : promise T :=
  if ms <=? 0 then p
  else
    let deadline := fires timers now ms in
    match p with
    | Settled t o =>
        if (t <? deadline) || ((t =? deadline) && promise_first timers)
        then Settled t o
        else Settled deadline (Rejected (timeout_error ms))
    | Pending => Settled deadline (Rejected (timeout_error ms))
    end.

(** What the controller does, in order: the [i]-th call of the operation,
    made at instant [at_ms] (with the trace the operation itself left), and
    the timers it arms between attempts, with the delay it asks for. *)
Inductive step (L : Type) : Type :=
| Invoked (i : nat) (at_ms : Z) (inner : list L)
| Waited (delay : Z).
Arguments Invoked {L} i at_ms inner.
Arguments Waited {L} delay.

Definition is_invocation {L} (s : step L) : bool :=
  match s with Invoked _ _ _ => true | Waited _ => false end.

Definition invocations {L} (tr : list (step L)) : nat :=
  List.length (filter is_invocation tr).

Fixpoint delays {L} (tr : list (step L)) : list Z :=
  match tr with
  | [] => []
  | Waited d :: tr' => d :: delays tr'
  | Invoked _ _ _ :: tr' => delays tr'
  end.

Section Retry.
Context {L T : Type}.

Variable timers : Timers.

(** The operation: its [i]-th call (counted from 0), made at instant [now],
    leaves a trace and returns a promise. *)
Variable fn : nat -> Z -> list L * promise T.
Variable cfg : RetryConfig.

(** [tryOnce], with the closure variable [attempt] and the number of calls
    made so far passed explicitly.  The handler of [catch] runs at the
    instant [t] of the rejection; the next call is made when the timer armed
    there with [setTimeout(resolve, delay)] fires. *)
Fixpoint tryOnce (fuel : nat) (attempt : Z) (calls : nat) (now : Z)
  : option (list (step L) * promise T) :=
  match fuel with
  | O => None
  | S fuel' =>
      let '(l, p) := fn calls now in
      match p with
      | Pending => Some ([Invoked calls now l], Pending)
      | Settled t (Resolved v) => Some ([Invoked calls now l], Settled t (Resolved v))
      | Settled t (Rejected err) =>
          let attempt := attempt + 1 in
          if attempt >? retries cfg then
            Some ([Invoked calls now l], rejectedPromise t err)
          else
            let delay := 2 ^ (attempt - 1) * retryDelay cfg in
            match tryOnce fuel' attempt (S calls) (fires timers t delay) with
            | Some (tr, q) => Some (Invoked calls now l :: Waited delay :: tr, q)
            | None => None
            end
      end
  end.
End Retry.

(** The run of the whole retry sequence started at [now]. *)
Definition retrySequence {L T} (timers : Timers) (fn : nat -> Z -> list L * promise T)
    (cfg : RetryConfig) (now : Z) : option (list (step L) * promise T) :=
  tryOnce timers fn cfg (S (Z.to_nat (retries cfg))) 0 0%nat now.

(** [retryOperation(fn, config)] called at [now]: the trace of the retry
    sequence and the promise handed to the caller. *)
Definition retryOperation {L T} (timers : Timers) (fn : nat -> Z -> list L * promise T)
    (config : options) (now : Z) : option (list (step L) * promise T) :=
  let cfg := parseRetryConfig config in
  match retrySequence timers fn cfg now with
  | Some (tr, p) => Some (tr, withTimeout timers now p (timeout cfg))
  | None => None
  end.

End Controller.

(* ================================================================== *)
(** ** Host environment and traces *)

(** The host: the two flags computed once when the module is loaded, and
    the timers of its event loop. *)
Record Host : Type := mkHost {
  _isBrowser : bool;
  _isNode : bool;
  timers : Timers
}.

(** What the library does to its host, in the order it does it. *)
Inductive event : Type :=
| WriteText (text : string)
| AppendOffscreen (container text : string)
| SelectOffscreen
| ExecCommand (action : string)
| RemoveOffscreen
| ClearSelection
| Spawn (cmd : string) (args : list string)
| StdinWrite (text : string)
| StdinEnd
| PermissionsQuery (name : string).

(* ================================================================== *)
(** ** OS process adapter *)

Module OSAdapter.

(** The [code] passed to a ['close'] listener: a number, or [null] when the
    process was ended by a signal. *)
Inductive exit_code : Type :=
| ExitCode (c : Z)
| ExitNull.

Inductive proc_event : Type :=
| OnError (message : string)
| OnClose (code : exit_code)
| OnData (chunk : string).

(** What [require('child_process').spawn(cmd, args, ...)] and the code next to
    it do.  The [try] block throws before [spawn] is reached, [require] not
    being defined (as in an ES module) or failing ([RequireThrows]); or
    [spawn] is called and throws ([SpawnThrows]); or the child is started and
    later emits events, each at its instant, in this order.  [stdin_throws]
    is the exception, if any, thrown by [proc.stdin.write(text)] (write side
    only).  In the first two cases no listener is ever attached. *)
Inductive child : Type :=
| RequireThrows (message : string)
| SpawnThrows (message : string)
| Started (stdin_throws : option string) (events : list (Z * proc_event)).

Record NodeProcess : Type := mkProcess {
  platform : string;
  spawn : string -> list string -> Z -> child
}.

Definition code_to_string (code : exit_code) : string :=
  match code with
  | ExitCode c => string_of_Z c
  | ExitNull => "null"
  end.

Definition is_zero (code : exit_code) : bool :=
  match code with
  | ExitCode c => c =? 0
  | ExitNull => false
  end.

(** The state shared by the listeners of one call: the [finished] flag, the
    [output] accumulated from standard output, the promise under construction
    and the trace. *)
Record listeners : Type := mkListeners {
  finished : bool;
  output : string;
  result : promise string;
  log : list event
}.

Definition settle (st : listeners) (p : promise string) (l : list event) : listeners :=
  mkListeners true (output st) (settle_once (result st) p) (log st ++ l).

Definition on_data (st : listeners) (chunk : string) : listeners :=
  mkListeners (finished st) (output st ++ chunk) (result st) (log st).

Definition write_command (platform : string) : string * list string :=
  if (platform =? "win32")%string then ("clip", [])
  else if (platform =? "darwin")%string then ("pbcopy", [])
  else ("xclip", ["-selection"; "clipboard"]).

Definition read_command (platform : string) : string * list string :=
  if (platform =? "win32")%string then ("powershell", ["-command"; "Get-Clipboard"])
  else if (platform =? "darwin")%string then ("pbpaste", [])
  else ("xclip", ["-selection"; "clipboard"; "-o"]).

Definition has_fallback (platform : string) : bool :=
  negb (platform =? "win32")%string && negb (platform =? "darwin")%string.

(** [output.replace(/\r?\n$/, '')]: the first position, from the left, at
    which the pattern matches is the one where what remains of the string is
    exactly a line feed, or a carriage return and a line feed; the match is
    replaced by the empty string. *)
Definition LF : string := String (ascii_of_nat 10) EmptyString.
Definition CRLF : string := String (ascii_of_nat 13) LF.

Fixpoint replace_trailing_newline (s : string) : string :=
  if (s =? CRLF)%string || (s =? LF)%string then EmptyString
  else
    match s with
    | EmptyString => EmptyString
    | String c s' => String c (replace_trailing_newline s')
    end.

Section Adapter.
Variable host : Host.
Variable process : NodeProcess.

(** *** Write *)

Definition fallback_copy_listener (text : string) (st : listeners)
    (ev : Z * proc_event) : listeners :=
  let '(t, e) := ev in
  match e with
  | OnError m =>
      if finished st then st
      else settle st (rejectedPromise t
             (Error ("No clipboard command available. Install xclip or xsel. " ++ m))) []
  | OnClose code =>
      if finished st then st
      else if is_zero code then settle st (resolvedPromise t text) []
      else settle st (rejectedPromise t
             (Error ("xsel exited with code: " ++ code_to_string code))) []
  | OnData _ => st
  end.

(** The fallbacks run from the ['error'] listener of a child that
    [require('child_process').spawn] has started: for them [require] has
    answered before, and an exception of the [try] block comes from [spawn]
    or from what follows it. *)
Definition nodeClipboardCopyFallback (text : string) (now : Z)
  : list event * promise string :=
  let sp := Spawn "xsel" ["--clipboard"; "--input"] in
  match spawn process "xsel" ["--clipboard"; "--input"] now with
  | RequireThrows m | SpawnThrows m =>
      ([sp], rejectedPromise now (Error ("Failed to spawn xsel: " ++ m)))
  | Started stdin_throws evs =>
      let st0 :=
        match stdin_throws with
        | None => mkListeners false "" Pending [sp; StdinWrite text; StdinEnd]
        | Some m =>
            mkListeners false ""
              (rejectedPromise now (Error ("Failed to spawn xsel: " ++ m)))
              [sp; StdinWrite text]
        end in
      let st := fold_left (fallback_copy_listener text) evs st0 in
      (log st, result st)
  end.

Definition copy_listener (cmd text : string) (st : listeners)
    (ev : Z * proc_event) : listeners :=
  let '(t, e) := ev in
  match e with
  | OnError m =>
      if finished st then st
      else if has_fallback (platform process) then
        let '(l, p) := nodeClipboardCopyFallback text t in
        settle st p l
      else settle st (rejectedPromise t
             (Error ("Clipboard command failed: " ++ cmd ++ " - " ++ m))) []
  | OnClose code =>
      if finished st then st
      else if is_zero code then settle st (resolvedPromise t text) []
      else settle st (rejectedPromise t
             (Error ("Clipboard command exited with code: " ++ code_to_string code))) []
  | OnData _ => st
  end.

Definition nodeClipboardCopy (text : string) (now : Z)
  : list event * promise string :=
  if negb (_isNode host) then
    ([], rejectedPromise now (Error "Not running in Node.js environment"))
  else
    let '(cmd, args) := write_command (platform process) in
    match spawn process cmd args now with
    | RequireThrows m =>
        ([], rejectedPromise now (Error ("Failed to spawn clipboard process: " ++ m)))
    | SpawnThrows m =>
        ([Spawn cmd args],
         rejectedPromise now (Error ("Failed to spawn clipboard process: " ++ m)))
    | Started stdin_throws evs =>
        let st0 :=
          match stdin_throws with
          | None => mkListeners false "" Pending [Spawn cmd args; StdinWrite text; StdinEnd]
          | Some m =>
              mkListeners false ""
                (rejectedPromise now (Error ("Failed to spawn clipboard process: " ++ m)))
                [Spawn cmd args; StdinWrite text]
          end in
        let st := fold_left (copy_listener cmd text) evs st0 in
        (log st, result st)
    end.

(** *** Read *)

Definition fallback_read_listener (st : listeners) (ev : Z * proc_event)
  : listeners :=
  let '(t, e) := ev in
  match e with
  | OnData chunk => on_data st chunk
  | OnError m =>
      if finished st then st
      else settle st (rejectedPromise t
             (Error ("No clipboard read command available. Install xclip or xsel. " ++ m))) []
  | OnClose code =>
      if finished st then st
      else if is_zero code then settle st (resolvedPromise t (output st)) []
      else settle st (rejectedPromise t
             (Error ("xsel read exited with code: " ++ code_to_string code))) []
  end.

Definition nodeClipboardReadFallback (now : Z) : list event * promise string :=
  let sp := Spawn "xsel" ["--clipboard"; "--output"] in
  match spawn process "xsel" ["--clipboard"; "--output"] now with
  | RequireThrows m | SpawnThrows m =>
      ([sp], rejectedPromise now (Error ("Failed to spawn xsel for read: " ++ m)))
  | Started _ evs =>
      let st := fold_left fallback_read_listener evs
                  (mkListeners false "" Pending [sp]) in
      (log st, result st)
  end.

Definition read_listener (cmd : string) (st : listeners) (ev : Z * proc_event)
  : listeners :=
  let '(t, e) := ev in
  match e with
  | OnData chunk => on_data st chunk
  | OnError m =>
      if finished st then st
      else if has_fallback (platform process) then
        let '(l, p) := nodeClipboardReadFallback t in
        settle st p l
      else settle st (rejectedPromise t
             (Error ("Clipboard read command failed: " ++ cmd ++ " - " ++ m))) []
  | OnClose code =>
      if finished st then st
      else if is_zero code then
        settle st (resolvedPromise t
          (if (platform process =? "win32")%string
           then replace_trailing_newline (output st) else output st)) []
      else settle st (rejectedPromise t
             (Error ("Clipboard read command exited with code: " ++ code_to_string code))) []
  end.

Definition nodeClipboardRead (now : Z) : list event * promise string :=
  if negb (_isNode host) then
    ([], rejectedPromise now (Error "Not running in Node.js environment"))
  else
    let '(cmd, args) := read_command (platform process) in
    match spawn process cmd args now with
    | RequireThrows m =>
        ([], rejectedPromise now (Error ("Failed to spawn clipboard read process: " ++ m)))
    | SpawnThrows m =>
        ([Spawn cmd args],
         rejectedPromise now (Error ("Failed to spawn clipboard read process: " ++ m)))
    | Started _ evs =>
        let st := fold_left (read_listener cmd) evs
                    (mkListeners false "" Pending [Spawn cmd args]) in
        (log st, result st)
    end.
End Adapter.

End OSAdapter.

(* ================================================================== *)
(** ** Capability detection and the text write chain *)

Module WriteChain.
Import Controller.

(** [document.execCommand(action)] returns a boolean or throws. *)
Inductive exec_answer : Type :=
| ExecReturns (b : bool)
| ExecThrows.

(** [navigator.permissions.query(...)] throws (or returns something that is
    no promise), or returns a promise of a status; [None] is a status whose
    [state] cannot be read. *)
Inductive query_answer : Type :=
| QueryThrows
| QueryReturns (p : promise (option string)).

(** The globals the code looks up at every call.  [writeText] is [None] when
    [navigator], [navigator.clipboard] or a function [writeText] is missing;
    [permissions_query] is [None] when [navigator], [navigator.permissions] or
    a function [query] is missing. *)
Record Globals : Type := mkGlobals {
  writeText : option (string -> Z -> promise unit);
  execCommand : string -> exec_answer;
  process : OSAdapter.NodeProcess;
  permissions_query : option (string -> Z -> query_answer)
}.

(** [isClipboardAPIAvailable()]; when it holds, the function that
    [modernCopy] will call. *)
Definition clipboardAPI (host : Host) (g : Globals)
  : option (string -> Z -> promise unit) :=
  if _isBrowser host then writeText g else None.

Definition isClipboardAPIAvailable (host : Host) (g : Globals) : bool :=
  match clipboardAPI host g with Some _ => true | None => false end.

(** [modernCopy(text)]: [writeText(text).then(function () { return text; })]. *)
Definition modernCopy (api : string -> Z -> promise unit) (text : string) (now : Z)
  : list event * promise string :=
  ([WriteText text],
   match api text now with
   | Pending => Pending
   | Settled t (Resolved _) => Settled t (Resolved text)
   | Settled t (Rejected e) => Settled t (Rejected e)
   end).

Definition body : string := "document.body".

(** [legacyCopy(text, container)]: synchronous; an exception of
    [execCommand] counts as a refusal. *)
Definition legacyCopy (g : Globals) (text : string) (container : option string)
    (now : Z) : list event * promise string :=
  let containerEl := match container with Some c => c | None => body end in
  let succeeded :=
    match execCommand g "copy" with
    | ExecReturns b => b
    | ExecThrows => false
    end in
  ([AppendOffscreen containerEl text; SelectOffscreen; ExecCommand "copy";
    RemoveOffscreen; ClearSelection],
   if succeeded then resolvedPromise now text
   else rejectedPromise now (Error "execCommand copy failed")).

(** [p.catch(handler)]: the handler runs at the instant the rejection
    settles, and what it does comes after what [p] did. *)
Definition catch {T} (p : list event * promise T)
    (handler : js_error -> Z -> list event * promise T) : list event * promise T :=
  match snd p with
  | Settled t (Rejected e) => let '(l, q) := handler e t in ((fst p ++ l)%list, q)
  | _ => p
  end.

(** The function [copyText] passes to [retryOperation]; [api] is what
    [isClipboardAPIAvailable()] found. *)
Definition copyChain (api : option (string -> Z -> promise unit))
    (host : Host) (g : Globals) (text : string) (container : option string)
    (now : Z) : list event * promise string :=
  match api with
  | Some writeText =>
      catch (modernCopy writeText text now) (fun _ t =>
        if _isBrowser host then legacyCopy g text container t
        else ([], rejectedPromise t (Error "Clipboard API failed and no fallback available")))
  | None =>
      if _isBrowser host then legacyCopy g text container now
      else if _isNode host then OSAdapter.nodeClipboardCopy host (process g) text now
      else ([], rejectedPromise now (Error "No clipboard method available in this environment"))
  end.

Definition copyAttempt (host : Host) (g : Globals) (text : string)
    (container : option string) (now : Z) : list event * promise string :=
  copyChain (clipboardAPI host g) host g text container now.

(** [options || {}]: [undefined], [null] and the number [0] give the empty
    object. *)
Definition or_empty_object (o : options) : options :=
  match o with
  | OptAbsent => OptObject None None None None
  | OptNumber n => if n =? 0 then OptObject None None None None else OptNumber n
  | OptObject c r d t => OptObject c r d t
  end.

Definition container_of (o : options) : option string :=
  match o with
  | OptObject c _ _ _ => c
  | _ => None
  end.

(** [opts.container || (_isBrowser ? document.body : null)] *)
Definition container_for (host : Host) (opts : options) : option string :=
  match container_of opts with
  | Some c => Some c
  | None => if _isBrowser host then Some body else None
  end.

(** [copyText(text, options)] called at [now]; [world i] is the state of the
    globals during the [i]-th attempt. *)
Definition copyText (host : Host) (world : nat -> Globals) (text : string)
    (options : options) (now : Z) : option (list (step event) * promise string) :=
  let opts := or_empty_object options in
  let container := container_for host opts in
  retryOperation (timers host)
    (fun i t => copyAttempt host (world i) text container t) opts now.

(** *** The public [copy] *)

Inductive js_value : Type :=
| JString (s : string)
| JStringObject (s : string)
| JNumber (n : Z)
| JBoolean (b : bool)
| JNull
| JUndefined
| JObject.

(** [typeof val === 'string' || val instanceof String] *)
Definition _isString (val : js_value) : bool :=
  match val with
  | JString _ | JStringObject _ => true
  | _ => false
  end.

Definition chars (val : js_value) : string :=
  match val with
  | JString s | JStringObject s => s
  | _ => ""
  end.

Definition copy (host : Host) (world : nat -> Globals) (text : js_value)
    (options : options) (now : Z) : option (list (step event) * promise string) :=
  if negb (_isString text) then
    Some ([], rejectedPromise now (TypeError "NowClipboard.copy() expects a string argument"))
  else copyText host world (chars text) options now.

(** *** Permission query *)

Definition quoted (s : string) : string :=
  let q := String (ascii_of_nat 34) EmptyString in q ++ s ++ q.

Record PermissionStatus : Type := mkStatus { state : string }.

Definition queryClipboardPermission (host : Host) (g : Globals)
    (permissionName : string) (now : Z) : list event * promise PermissionStatus :=
  match (if _isBrowser host then permissions_query g else None) with
  | None => ([], resolvedPromise now (mkStatus "prompt"))
  | Some query =>
      ([PermissionsQuery permissionName],
       match query permissionName now with
       | QueryThrows => resolvedPromise now (mkStatus "prompt")
       | QueryReturns Pending => Pending
       | QueryReturns (Settled t (Resolved (Some s))) => Settled t (Resolved (mkStatus s))
       | QueryReturns (Settled t (Resolved None)) => Settled t (Resolved (mkStatus "prompt"))
       | QueryReturns (Settled t (Rejected _)) => Settled t (Resolved (mkStatus "prompt"))
       end)
  end.

Definition queryPermission (host : Host) (g : Globals) (name : string) (now : Z)
  : list event * promise PermissionStatus :=
  if negb (name =? "read")%string && negb (name =? "write")%string then
    ([], rejectedPromise now (TypeError
       ("queryPermission() expects " ++ quoted "read" ++ " or " ++ quoted "write")))
  else if _isNode host then ([], resolvedPromise now (mkStatus "granted"))
  else queryClipboardPermission host g ("clipboard-" ++ name) now.

End WriteChain.

(* ================================================================== *)
(** ** Paste-data parser *)

Module Paste.
Import WriteChain.

(** A call or property read that may throw. *)
Inductive js (A : Type) : Type :=
| Throws
| Returns (v : A).
Arguments Throws {A}.
Arguments Returns {A} v.

(** [try { r = e } catch (e) { }]: on an exception [r] keeps its value. *)
Definition try_assign {A} (current : A) (e : js A) : A :=
  match e with
  | Returns v => v
  | Throws => current
  end.

Definition bind {A B} (e : js A) (k : A -> js B) : js B :=
  match e with
  | Returns v => k v
  | Throws => Throws
  end.

(** [!v]: the values that count as false ([NaN] is no value of the
    model). *)
Definition falsy (v : js_value) : bool :=
  match v with
  | JString s => (s =? "")%string
  | JNumber n => n =? 0
  | JBoolean b => negb b
  | JNull | JUndefined => true
  | JStringObject _ | JObject => false
  end.

(** [v || ''] *)
Definition or_empty (v : js_value) : js_value :=
  if falsy v then JString "" else v.

(** What the parser can see of a truthy [clipboardData].  The call
    [getData(format)] throws (also when there is no such function) or returns
    a value, of whatever type; reading [files] and its [length], or copying
    it, throws, or nothing is found that has a length ([None]), or the
    elements are found that [Array.prototype.slice] copies into a new
    array. *)
Record DataTransfer : Type := mkDataTransfer {
  getData : string -> js js_value;
  files_of : js (option (list js_value))
}.

(** The argument: a value that has neither [getData] nor [files] ([null],
    [undefined], a primitive, some other object), or an object that has
    them. *)
Inductive clipboardData_arg : Type :=
| CDValue (v : js_value)
| CDObject (dt : DataTransfer).

(** What the three [try] blocks find in the argument; [None] when
    [!clipboardData] holds and they are not reached.  On a value without
    [getData] the call throws a [TypeError], and its [files] is
    [undefined]. *)
Definition properties_of (clipboardData : clipboardData_arg) : option DataTransfer :=
  match clipboardData with
  | CDValue v =>
      if falsy v then None
      else Some (mkDataTransfer (fun _ => Throws) (Returns None))
  | CDObject dt => Some dt
  end.

Record PasteData : Type := mkPaste {
  text : js_value;
  html : js_value;
  files : list js_value
}.

Definition parsePasteData (clipboardData : clipboardData_arg) : js PasteData :=
  let result := mkPaste (JString "") (JString "") [] in
  match properties_of clipboardData with
  | None => Returns result
  | Some dt =>
      let result :=
        mkPaste (try_assign (text result)
                   (bind (getData dt "text/plain") (fun v => Returns (or_empty v))))
                (html result) (files result) in
      let result :=
        mkPaste (text result)
                (try_assign (html result)
                   (bind (getData dt "text/html") (fun v => Returns (or_empty v))))
                (files result) in
      let result :=
        mkPaste (text result) (html result)
                (try_assign (files result)
                   (bind (files_of dt) (fun f =>
                      match f with
                      | Some l => if (0 <? Z.of_nat (List.length l)) then Returns l
                                  else Returns (files result)
                      | None => Returns (files result)
                      end))) in
      Returns result
  end.

End Paste.

(* ================================================================== *)
(** ** Observations on process events *)

Module Observe.
Import OSAdapter.

Definition is_data (e : proc_event) : bool :=
  match e with OnData _ => true | _ => false end.

(** The first event that is no output chunk: the one that reaches an
    unfinished ['error'] or ['close'] listener. *)
Fixpoint decisive (evs : list (Z * proc_event)) : option (Z * proc_event) :=
  match evs with
  | [] => None
  | (t, e) :: evs' => if is_data e then decisive evs' else Some (t, e)
  end.

(** The output chunks emitted before that event, joined. *)
Fixpoint stdout_before (evs : list (Z * proc_event)) : string :=
  match evs with
  | (_, OnData chunk) :: evs' => chunk ++ stdout_before evs'
  | _ => ""
  end.

(** The state in which that event finds the listeners [f], starting from
    [st]. *)
Fixpoint at_decision (f : listeners -> Z * proc_event -> listeners)
    (evs : list (Z * proc_event)) (st : listeners) : listeners :=
  match evs with
  | (t, e) :: evs' => if is_data e then at_decision f evs' (f st (t, e)) else st
  | [] => st
  end.

(** [msg] contains [word]. *)
Definition mentions (msg word : string) : Prop :=
  exists pre post, msg = pre ++ word ++ post.

Definition CR : string := String (ascii_of_nat 13) EmptyString.

End Observe.

(* ================================================================== *)
(** ** Concrete hosts *)

Module Scenarios.
Import Controller OSAdapter.

(** *** Operations and retry configurations *)

Definition boom : js_error := Error "boom".

(** An operation that fails at once, on every call. *)
Definition always_boom (i : nat) (now : Z) : list unit * promise string :=
  ([], Settled now (Rejected boom)).

(** An operation whose [i]-th call fails at once with an error of its own. *)
Definition numbered_failure (i : nat) : js_error :=
  Error ("failure " ++ string_of_Z (Z.of_nat i)).

Definition always_fails (i : nat) (now : Z) : list unit * promise string :=
  ([], Settled now (Rejected (numbered_failure i))).

(** An operation that succeeds, half a second after it is called. *)
Definition slow_success (i : nat) (now : Z) : list unit * promise string :=
  ([], Settled (now + 500) (Resolved "late")).

(** An operation that succeeds after some five weeks. *)
Definition very_late (i : nat) (now : Z) : list unit * promise string :=
  ([], Settled (now + 3000000000) (Resolved "late")).

Definition impatient : options := OptObject None (Some 1) (Some 100) (Some 50).
Definition patient : options := OptObject None (Some 2) (Some 100) None.
Definition deadline_200 : options := OptObject None (Some 0) None (Some 200).
Definition deadline_900 : options := OptObject None (Some 0) None (Some 900).
Definition no_deadline : options := OptObject None (Some 0) None (Some 0).

(** A deadline of 2^31 ms, one more than the longest delay Node's timers
    honour. *)
Definition deadline_overflow : options := OptObject None (Some 0) None (Some 2147483648).

(** *** Timers, machines and pages *)

(** Timers that honour every delay to the millisecond, a negative one as
    none, and run before the reactions of a promise that settles in the
    millisecond at which they fire. *)
Definition exact_timers : Timers :=
  mkTimers (fun now ms => now + Z.max 0 ms) false.

(** The timers of Node: a delay outside 1 .. 2^31-1 is taken as 1 ms. *)
Definition node_timers : Timers :=
  mkTimers (fun now ms => now + (if (1 <=? ms) && (ms <=? 2147483647) then ms else 1))
    false.

Definition node_host : Host := mkHost false true node_timers.
Definition browser_host : Host := mkHost true false exact_timers.
Definition electron_host : Host := mkHost true true exact_timers.
Definition bare_host : Host := mkHost false false exact_timers.

(** A Linux machine on which every clipboard utility runs and exits with
    [code] after 5 ms. *)
Definition linux_exits (code : Z) : NodeProcess :=
  mkProcess "linux" (fun _ _ now => Started None [(now + 5, OnClose (ExitCode code))]).

(** A Linux machine without [xclip]: the attempt to start it reports
    [ENOENT] and then closes; [xsel] works. *)
Definition linux_without_xclip : NodeProcess :=
  mkProcess "linux" (fun cmd _ now =>
    if (cmd =? "xclip")%string
    then Started None [(now + 1, OnError "spawn xclip ENOENT");
                       (now + 1, OnClose (ExitCode (-2)))]
    else Started None [(now + 3, OnClose (ExitCode 0))]).

(** A Linux machine with neither utility. *)
Definition linux_without_utilities : NodeProcess :=
  mkProcess "linux" (fun cmd _ now =>
    Started None [(now + 1, OnError ("spawn " ++ cmd ++ " ENOENT"));
                  (now + 1, OnClose (ExitCode (-2)))]).

(** A Windows machine on which no command can be started. *)
Definition windows_without_commands : NodeProcess :=
  mkProcess "win32" (fun cmd _ now =>
    Started None [(now + 1, OnError ("spawn " ++ cmd ++ " ENOENT"))]).

(** Machines whose read command prints [hello], a blank line and a final
    line terminator, in two chunks. *)
Definition printed : list (Z * proc_event) :=
  [(2, OnData ("hello" ++ LF)); (3, OnData CRLF); (4, OnClose (ExitCode 0))].

Definition windows_prints : NodeProcess :=
  mkProcess "win32" (fun _ _ _ => Started None printed).

Definition mac_prints : NodeProcess :=
  mkProcess "darwin" (fun _ _ _ => Started None printed).

(** Globals of a page without a clipboard API and without a permission
    subsystem, whose legacy command succeeds. *)
Definition plain_page : WriteChain.Globals :=
  WriteChain.mkGlobals None (fun _ => WriteChain.ExecReturns true)
    windows_without_commands None.

(** Globals of a page whose clipboard API rejects after 7 ms and whose
    permission query rejects after 3 ms. *)
Definition refusing_page : WriteChain.Globals :=
  WriteChain.mkGlobals
    (Some (fun _ now => Settled (now + 7)
                          (Rejected (DOMException "NotAllowedError" "Write permission denied."))))
    (fun _ => WriteChain.ExecReturns true)
    windows_without_commands
    (Some (fun _ now => WriteChain.QueryReturns
             (Settled (now + 3) (Rejected (TypeError "unknown permission name"))))).

(** Globals of a Node process on the Linux machine whose utilities exit
    with code 0. *)
Definition linux_globals : WriteChain.Globals :=
  WriteChain.mkGlobals None (fun _ => WriteChain.ExecThrows) (linux_exits 0) None.

(** Globals of a page whose clipboard API resolves after 7 ms. *)
Definition granting_page : WriteChain.Globals :=
  WriteChain.mkGlobals (Some (fun _ now => Settled (now + 7) (Resolved tt)))
    (fun _ => WriteChain.ExecReturns true) windows_without_commands None.

(** *** Clipboard data *)

(** A clipboard that holds the plain text [hi]: every other accessor
    throws. *)
Definition plain_clipboard : Paste.DataTransfer :=
  Paste.mkDataTransfer
    (fun format => if (format =? "text/plain")%string
                   then Paste.Returns (WriteChain.JString "hi") else Paste.Throws)
    Paste.Throws.

(** An object whose [getData] answers every format with the number 42. *)
Definition numeric_clipboard : Paste.DataTransfer :=
  Paste.mkDataTransfer (fun _ => Paste.Returns (WriteChain.JNumber 42))
    (Paste.Returns None).

End Scenarios.

(* ================================================================== *)
(** ** Event emitter *)

Module Emitter.
Import WriteChain.

(** An entry [{ fn, ctx, once }].  Functions are known by their identity
    [fn]; [lid] is the identity of the entry itself, which [emit] relies on
    when it looks entries up with [indexOf]. *)
Record listener : Type := mkListener {
  lid : nat;
  fn : nat;
  ctx : option nat;
  once : bool
}.

(** What reading [_events[name]] finds when [name] is no property of
    [_events] itself but one of [Object.prototype], from which the object
    literal [{}] inherits: a function, with its [length], or some other
    object (what [__proto__] reads as), which has no [length].  Both are
    truthy, and neither has a [push] or a [slice]. *)
Inductive inherited_property : Type :=
| InheritedFunction (length : nat)
| InheritedObject.

(** Association lists. *)
Section Assoc.
Context {K V : Type}.
Variable eqb : K -> K -> bool.

Fixpoint get (s : list (K * V)) (k : K) : option V :=
  match s with
  | [] => None
  | (k', v) :: s' => if eqb k' k then Some v else get s' k
  end.

Fixpoint set (s : list (K * V)) (k : K) (v : V) : list (K * V) :=
  match s with
  | [] => [(k, v)]
  | (k', v') :: s' => if eqb k' k then (k, v) :: s' else (k', v') :: set s' k v
  end.

Fixpoint delete (s : list (K * V)) (k : K) : list (K * V) :=
  match s with
  | [] => []
  | (k', v') :: s' => if eqb k' k then delete s' k else (k', v') :: delete s' k
  end.
End Assoc.

(** An emitter.  [_events] holds the own properties of the object
    [this._events], each naming an array; arrays are objects with an
    identity, shared between [_events] and the calls of [emit] that are
    under way, and [arrays] gives their contents.  [prototype] is what
    [_events] inherits.  [next_array] and [fresh] are the identities of the
    next array and of the next entry to be created, [clock] counts the calls
    of listeners made so far. *)
Record EventEmitter : Type := mkEmitter {
  _events : list (string * nat);
  arrays : list (nat * list listener);
  next_array : nat;
  fresh : nat;
  clock : nat;
  prototype : string -> option inherited_property
}.

Definition new_emitter (prototype : string -> option inherited_property)
  : EventEmitter := mkEmitter [] [] 0 0 0 prototype.

(** [this._events[event]] *)
Inductive found : Type :=
| Own (array : nat)
| Inherited (p : inherited_property)
| Missing.

Definition lookup (e : EventEmitter) (event : string) : found :=
  match get String.eqb (_events e) event with
  | Some r => Own r
  | None =>
      match prototype e event with
      | Some p => Inherited p
      | None => Missing
      end
  end.

Definition content (e : EventEmitter) (r : nat) : list listener :=
  match get Nat.eqb (arrays e) r with
  | Some l => l
  | None => []
  end.

(** The entries registered for [event]. *)
Definition listeners_of (e : EventEmitter) (event : string) : list listener :=
  match get String.eqb (_events e) event with
  | Some r => content e r
  | None => []
  end.

(** What is passed where a function is expected: a function, some other
    truthy value, or a falsy one. *)
Inductive handler : Type :=
| Function (f : nat)
| Truthy
| Falsy.

Definition _isFunction (h : handler) : bool :=
  match h with Function _ => true | _ => false end.

Definition function_id (h : handler) : nat :=
  match h with Function f => f | _ => 0%nat end.

(** [entry.fn !== fn] *)
Definition differs (entry : listener) (h : handler) : bool :=
  match h with
  | Function f => negb (Nat.eqb (fn entry) f)
  | _ => true
  end.

(** How a call ends: it returns, or an exception leaves it. *)
Inductive completion : Type :=
| Normal
| Abrupt (e : js_error).

(** The [TypeError] of a call of, or a read from, [undefined]. *)
Definition not_a_function (what : string) : js_error :=
  TypeError (what ++ " is not a function").

Definition undefined_has_no (property : string) : js_error :=
  TypeError ("Cannot read properties of undefined (reading '" ++ property ++ "')").

(** [events.push(entry)], on the array [r], for a new entry. *)
Definition push (e : EventEmitter) (r : nat) (entry : listener) : EventEmitter :=
  mkEmitter (_events e) (set Nat.eqb (arrays e) r (content e r ++ [entry])%list)
    (next_array e) (S (fresh e)) (clock e) (prototype e).

(** [this._events[event] = array], for a new array with the entries [l]. *)
Definition assign (e : EventEmitter) (event : string) (l : list listener)
  : EventEmitter :=
  mkEmitter (set String.eqb (_events e) event (next_array e))
    (set Nat.eqb (arrays e) (next_array e) l)
    (S (next_array e)) (fresh e) (clock e) (prototype e).

(** [delete this._events[event]] *)
Definition remove (e : EventEmitter) (event : string) : EventEmitter :=
  mkEmitter (delete String.eqb (_events e) event) (arrays e)
    (next_array e) (fresh e) (clock e) (prototype e).

(** [on] and [once].  Where nothing is found an array is created, stored
    and pushed to; where something inherited is found, it is taken for the
    array and the call of its [push] throws. *)
Definition register (e : EventEmitter) (event : js_value) (h : handler)
    (ctx : option nat) (once : bool) : EventEmitter * completion :=
  if negb (_isString event) || negb (_isFunction h) then (e, Normal)
  else
    let entry := mkListener (fresh e) (function_id h) ctx once in
    match lookup e (chars event) with
    | Own r => (push e r entry, Normal)
    | Missing => (push (assign e (chars event) []) (next_array e) entry, Normal)
    | Inherited _ => (e, Abrupt (not_a_function "events.push"))
    end.

Definition on (e : EventEmitter) (event : js_value) (h : handler) (ctx : option nat)
  : EventEmitter * completion := register e event h ctx false.

Definition once_ (e : EventEmitter) (event : js_value) (h : handler) (ctx : option nat)
  : EventEmitter * completion := register e event h ctx true.

Definition is_empty {A} (l : list A) : bool :=
  match l with [] => true | _ => false end.

(** [this._events[event] = remaining], or [delete this._events[event]] when
    nothing remains. *)
Definition keep (e : EventEmitter) (event : string) (remaining : list listener)
  : EventEmitter :=
  if is_empty remaining then remove e event else assign e event remaining.

(** [off].  Something inherited is truthy: without a function to look for
    the [delete] finds no own property to remove; with one, the loop runs
    over the [length] of what was found and throws on its first element,
    which is [undefined], and where there is no element nothing remains and
    the [delete] again removes nothing. *)
Definition off (e : EventEmitter) (event : js_value) (h : handler)
  : EventEmitter * completion :=
  if negb (_isString event) then (e, Normal)
  else
    match lookup e (chars event) with
    | Missing => (e, Normal)
    | Inherited p =>
        match h with
        | Falsy => (e, Normal)
        | _ =>
            match p with
            | InheritedFunction (S _) => (e, Abrupt (undefined_has_no "fn"))
            | _ => (e, Normal)
            end
        end
    | Own r =>
        match h with
        | Falsy => (remove e (chars event), Normal)
        | _ => (keep e (chars event) (filter (fun entry => differs entry h) (content e r)),
                Normal)
        end
    end.

Definition removeAllListeners (e : EventEmitter) : EventEmitter * completion :=
  (mkEmitter [] (arrays e) (next_array e) (fresh e) (clock e) (prototype e), Normal).

(** *** Listeners at work *)

(** What a program does with an emitter. *)
Inductive operation : Type :=
| On (event : js_value) (h : handler) (ctx : option nat)
| Once (event : js_value) (h : handler) (ctx : option nat)
| Off (event : js_value) (h : handler)
| Emit (event : string) (args : list string)
| RemoveAll.

(** What a listener does when it is called, as far as the emitter is
    concerned: operations on the emitter, in order, and then, possibly, an
    exception of its own. *)
Record behaviour : Type := mkBehaviour {
  does : list operation;
  throws : option js_error
}.

Definition quiet : behaviour := mkBehaviour [] None.

(** A call made by [emit]: the function, its [this] and its arguments. *)
Definition call : Type := (nat * option nat * list string)%type.

(** The emitter afterwards, the calls of listeners made, in order, and how
    the operation ended. *)
Definition effect : Type := (EventEmitter * list call * completion)%type.

(** The emitter once [n] more listeners have been called. *)
Definition advance (n : nat) (e : EventEmitter) : EventEmitter :=
  mkEmitter (_events e) (arrays e) (next_array e) (fresh e) (n + clock e) (prototype e).

Definition tick (e : EventEmitter) : EventEmitter := advance 1 e.

Section Listeners.

(** [code n f]: what the function [f] does when it is the [n]-th listener
    to be called. *)
Variable code : nat -> nat -> behaviour.

(** [step] runs one operation; it answers [None] when the operation does not
    return. *)
Variable step : EventEmitter -> operation -> option effect.

(** The operations of a behaviour, one after the other.  The listener goes on
    after an exception of one of them when it catches it; when it does not,
    that exception is the one it ends with and there are no further
    operations in its behaviour. *)
Fixpoint perform (ops : list operation) (e : EventEmitter)
  : option (EventEmitter * list call) :=
  match ops with
  | [] => Some (e, [])
  | o :: ops' =>
      match step e o with
      | Some (e', calls, _) =>
          match perform ops' e' with
          | Some (e'', calls') => Some (e'', (calls ++ calls')%list)
          | None => None
          end
      | None => None
      end
  end.

(** [listeners[j].fn.apply(listeners[j].ctx, args)] *)
Definition call_listener (l : listener) (args : list string) (e : EventEmitter)
  : option effect :=
  let b := code (clock e) (fn l) in
  match perform (does b) (tick e) with
  | Some (e', calls) =>
      Some (e', (fn l, ctx l, args) :: calls,
            match throws b with
            | Some x => Abrupt x
            | None => Normal
            end)
  | None => None
  end.

(** The loop over the copy of the array: an exception of a listener leaves
    the loop, and [emit]. *)
Fixpoint call_all (listeners : list listener) (args : list string) (e : EventEmitter)
  : option effect :=
  match listeners with
  | [] => Some (e, [], Normal)
  | l :: listeners' =>
      match call_listener l args e with
      | Some (e', calls, Normal) =>
          match call_all listeners' args e' with
          | Some (e'', calls', c) => Some (e'', (calls ++ calls')%list, c)
          | None => None
          end
      | Some (e', calls, Abrupt x) => Some (e', calls, Abrupt x)
      | None => None
      end
  end.

(** [emit(event, ...args)].  [events] is the array found when the call
    starts; [listeners] is the copy of its entries made then; what remains
    afterwards is computed from what [events] holds at that time. *)
Definition emit (e : EventEmitter) (event : string) (args : list string)
  : option effect :=
  match lookup e event with
  | Missing => Some (e, [], Normal)
  | Inherited (InheritedFunction O) => Some (e, [], Normal)
  | Inherited _ => Some (e, [], Abrupt (not_a_function "events.slice"))
  | Own events =>
      if is_empty (content e events) then Some (e, [], Normal)
      else
        let listeners := content e events in
        match call_all listeners args e with
        | Some (e', calls, Normal) =>
            let toRemove := filter once listeners in
            if is_empty toRemove then Some (e', calls, Normal)
            else
              Some (keep e' event
                      (filter (fun entry =>
                                 negb (existsb (fun r => Nat.eqb (lid r) (lid entry))
                                         toRemove))
                         (content e' events)),
                    calls, Normal)
        | Some (e', calls, Abrupt x) => Some (e', calls, Abrupt x)
        | None => None
        end
  end.

End Listeners.

Definition returned (r : EventEmitter * completion) : option effect :=
  Some (fst r, [], snd r).

(** One operation, listeners being allowed to nest calls [fuel] deep. *)
Fixpoint exec (code : nat -> nat -> behaviour) (fuel : nat) (e : EventEmitter)
    (o : operation) : option effect :=
  match fuel with
  | O => None
  | S fuel' =>
      match o with
      | On ev h c => returned (on e ev h c)
      | Once ev h c => returned (once_ e ev h c)
      | Off ev h => returned (off e ev h)
      | Emit ev args => emit code (exec code fuel') e ev args
      | RemoveAll => returned (removeAllListeners e)
      end
  end.

(** A program that goes on after an exception of an operation: the emitter
    it leaves. *)
Definition run (code : nat -> nat -> behaviour) (fuel : nat) (e : EventEmitter)
    (ops : list operation) : option EventEmitter :=
  match perform (exec code fuel) ops e with
  | Some (e', _) => Some e'
  | None => None
  end.

(** No event is mapped to an empty array, nor to an array yet to be
    created; no two events share an array; the entries of an array are
    distinct objects created before now. *)
Definition well_formed (e : EventEmitter) : Prop :=
  (forall event r, get String.eqb (_events e) event = Some r ->
     content e r <> [] /\ (r < next_array e)%nat) /\
  (forall event event' r,
     get String.eqb (_events e) event = Some r ->
     get String.eqb (_events e) event' = Some r -> event = event') /\
  (forall r, NoDup (map lid (content e r)) /\
             Forall (fun l => (lid l < fresh e)%nat) (content e r)).

End Emitter.

(* ================================================================== *)
(** ** Read chain, support check and cut *)

Module Browser.
Import Controller WriteChain.

(** What the functions below do to their host: the events of the write
    chain, and a few more.  [SetSelectionRange whole] is the call
    [setSelectionRange(0, whole.length)], known by the string whose length is
    taken. *)
Inductive effect : Type :=
| Base (e : event)
| ReadText
| Focus
| Select
| SetSelectionRange (whole : string)
| SelectNodeContents.

(** *** Read chain *)





(** *** Support check *)





(** *** Text selection and cut *)

(** An element, as far as the library looks at it: [attributes] are the
    names of the attributes present, [selected_text] is what a selection of
    its contents reads as.  The fields are the ones the library reads and
    assigns; what the document derives from an assignment is not recomputed. *)
Record Element : Type := mkElement {
  nodeName : string;
  value : string;
  attributes : list string;
  innerHTML : string;
  textContent : string;
  innerText : string;
  selected_text : string
}.

Definition hasAttribute (el : Element) (name : string) : bool :=
  existsb (String.eqb name) (attributes el).

Definition setAttribute (el : Element) (name : string) : Element :=
  if hasAttribute el name then el
  else mkElement (nodeName el) (value el) (attributes el ++ [name]) (innerHTML el)
         (textContent el) (innerText el) (selected_text el).

Definition removeAttribute (el : Element) (name : string) : Element :=
  mkElement (nodeName el) (value el)
    (filter (fun a => negb (String.eqb name a)) (attributes el)) (innerHTML el)
    (textContent el) (innerText el) (selected_text el).

(** [selectText(element)]: the text, the element as it is left, and what was
    done to it.  An exception of [setSelectionRange] is caught and changes
    nothing. *)
Definition selectText (element : Element) : string * Element * list effect :=
  if (nodeName element =? "SELECT")%string then
    (value element, element, [Focus])
  else if ((nodeName element =? "INPUT") || (nodeName element =? "TEXTAREA"))%string then
    let isReadOnly := hasAttribute element "readonly" in
    let el1 := if negb isReadOnly then setAttribute element "readonly" else element in
    let el2 := if negb isReadOnly then removeAttribute el1 "readonly" else el1 in
    (value el2, el2, [Select; SetSelectionRange (value element)])
  else
    (selected_text element, element,
     (if hasAttribute element "contenteditable" then [Focus] else [])
       ++ [SelectNodeContents])%list.

(** The content removed by hand once the text has been copied. *)
Definition clear_content (element : Element) : Element :=
  if ((nodeName element =? "INPUT") || (nodeName element =? "TEXTAREA"))%string then
    mkElement (nodeName element) "" (attributes element) (innerHTML element)
      (textContent element) (innerText element) (selected_text element)
  else if hasAttribute element "contenteditable" then
    mkElement (nodeName element) (value element) (attributes element) ""
      (textContent element) (innerText element) (selected_text element)
  else element.

Record cut_run : Type := mkCut {
  cut_effects : list effect;
  cut_copy : list (step event);
  cut_promise : promise string;
  cut_element : Element
}.

(** [performCut(element)] called at [now]: [g] are the globals at the call,
    [world i] those during the [i]-th attempt of the fallback copy. *)
Definition performCut (host : Host) (g : Globals) (world : nat -> Globals)
    (element : Element) (now : Z) : option cut_run :=
  let '(text, el, sel) := selectText element in
  let succeeded :=
    match execCommand g "cut" with
    | ExecReturns b => b
    | ExecThrows => false
    end in
  let effects := (sel ++ [Base (ExecCommand "cut")])%list in
  if succeeded then Some (mkCut effects [] (resolvedPromise now text) el)
  else
    match copyText host world text OptAbsent now with
    | None => None
    | Some (tr, Settled t (Resolved copiedText)) =>
        Some (mkCut effects tr (Settled t (Resolved copiedText)) (clear_content el))
    | Some (tr, p) => Some (mkCut effects tr p el)
    end.

(** *** Copy from an element *)

Definition catch_effect {T} (p : list effect * promise T)
    (handler : js_error -> Z -> list effect * promise T) : list effect * promise T :=
  match snd p with
  | Settled t (Rejected e) => let '(l, q) := handler e t in ((fst p ++ l)%list, q)
  | _ => p
  end.

Definition lift (p : list event * promise string) : list effect * promise string :=
  (map Base (fst p), snd p).

(** [legacyCopyFromElement(element, container)]: [here] are the globals when
    the command is issued on the element itself, [offscreen] when it is
    issued again on the temporary text area. *)
Definition legacyCopyFromElement (here offscreen : Globals) (element : Element)
    (container : string) (now : Z) : list effect * promise string :=
  let '(text, _, sel) := selectText element in
  let succeeded :=
    match execCommand here "copy" with
    | ExecReturns b => b
    | ExecThrows => false
    end in
  if succeeded then
    ((sel ++ [Base (ExecCommand "copy")])%list, resolvedPromise now text)
  else
    let '(l, p) := lift (legacyCopy offscreen text (Some container) now) in
    ((sel ++ [Base (ExecCommand "copy")] ++ l)%list, p).

(** The function [copyFromElement] passes to [retryOperation]. *)
Definition elementAttempt (host : Host) (here offscreen : Globals) (element : Element)
    (container : string) (now : Z) : list effect * promise string :=
  let '(text, _, sel) := selectText element in
  match clipboardAPI host here with
  | Some api =>
      catch_effect (sel ++ fst (lift (modernCopy api text now)), snd (modernCopy api text now))%list
        (fun _ t =>
           let '(l, p) := legacyCopyFromElement here offscreen element container t in
           (Base ClearSelection :: l, p))
  | None =>
      let '(l, p) := legacyCopyFromElement here offscreen element container now in
      ((sel ++ l)%list, p)
  end.

Definition copyFromElement (host : Host) (world : nat -> Globals * Globals)
    (element : Element) (options : options) (now : Z)
  : option (list (step effect) * promise string) :=
  let opts := or_empty_object options in
  let container := match container_of opts with Some c => c | None => body end in
  retryOperation (timers host)
    (fun i t => elementAttempt host (fst (world i)) (snd (world i)) element container t)
    opts now.

End Browser.

(* ================================================================== *)
(** ** Image and rich-text copy *)

Module Items.
Import Controller WriteChain.

Record Blob : Type := mkBlob {
  blob_type : string;
  blob_data : string
}.

(** The answer of [fetch]: [blob_of] is what [response.blob()] returns when it
    is called. *)
Record Response : Type := mkResponse {
  ok : bool;
  status : Z;
  blob_of : Z -> promise Blob
}.

(** [canvas.toBlob(callback, 'image/png')] throws, or calls back at some
    instant with a blob or with [null], or never calls back. *)
Inductive toBlob_answer : Type :=
| ToBlobThrows (message : string)
| ToBlobCalls (at_ms : Z) (blob : option Blob)
| ToBlobSilent.

Inductive image_source : Type :=
| FromBlob (blob : Blob)
| FromCanvas (toBlob : Z -> toBlob_answer)
| FromImage (src : string)
| FromString (url : string)
| FromOther.

Inductive item_effect : Type :=
| Fetch (url : string)
| ToBlob (type : string)
| ClipboardWrite (types : list string)
| Legacy (e : event)
| AppendMarkup (container html : string)
| SelectMarkup.

Definition message_of (e : js_error) : string :=
  match e with
  | Error m | TypeError m | DOMException _ m => m
  end.

(** [fetch(url).then(check).catch(wrap)], with the prefix of the wrapping
    error. *)
Definition fetch_blob (fetch : string -> Z -> promise Response) (prefix url : string)
    (now : Z) : list item_effect * promise Blob :=
  let wrap e := Error (prefix ++ message_of e) in
  ([Fetch url],
   match fetch url now with
   | Pending => Pending
   | Settled t (Rejected e) => Settled t (Rejected (wrap e))
   | Settled t (Resolved response) =>
       if negb (ok response) then
         Settled t (Rejected
           (wrap (Error ("Failed to fetch image: " ++ string_of_Z (status response)))))
       else
         match blob_of response t with
         | Pending => Pending
         | Settled t' (Resolved blob) => Settled t' (Resolved blob)
         | Settled t' (Rejected e) => Settled t' (Rejected (wrap e))
         end
   end).

Definition fetchImageBlob (fetch : string -> Z -> promise Response)
    (source : image_source) (now : Z) : list item_effect * promise Blob :=
  match source with
  | FromBlob blob => ([], resolvedPromise now blob)
  | FromCanvas toBlob =>
      ([ToBlob "image/png"],
       match toBlob now with
       | ToBlobThrows m => rejectedPromise now (Error ("Canvas toBlob failed: " ++ m))
       | ToBlobCalls t (Some blob) => Settled t (Resolved blob)
       | ToBlobCalls t None => Settled t (Rejected (Error "Canvas toBlob returned null"))
       | ToBlobSilent => Pending
       end)
  | FromImage src =>
      if (src =? "")%string then
        ([], rejectedPromise now (Error "Image element has no src"))
      else fetch_blob fetch "Failed to fetch image (CORS?): " src now
  | FromString url => fetch_blob fetch "Failed to fetch image URL (CORS?): " url now
  | FromOther => ([], rejectedPromise now (TypeError "Unsupported image source type"))
  end.

(** [mimeType || blob.type || 'image/png'] *)
Definition item_type (blob : Blob) (mimeType : string) : string :=
  if negb (mimeType =? "")%string then mimeType
  else if negb (blob_type blob =? "")%string then blob_type blob
  else "image/png".

(** [copyImageBlob(blob, mimeType)], [write] being
    [navigator.clipboard.write]; building the [ClipboardItem] is taken to
    succeed. *)
Definition copyImageBlob (write : list string -> Z -> promise unit) (blob : Blob)
    (mimeType : string) (now : Z) : list item_effect * promise Blob :=
  ([ClipboardWrite [item_type blob mimeType]],
   match write [item_type blob mimeType] now with
   | Pending => Pending
   | Settled t (Resolved _) => Settled t (Resolved blob)
   | Settled t (Rejected e) => Settled t (Rejected e)
   end).

Record image_run : Type := mkImageRun {
  obtained : list item_effect;
  written : list (step item_effect);
  copied : promise Blob
}.

(** [copyImage(source, options)] called at [now]; [write i] is the
    clipboard's [write] during the [i]-th attempt. *)
Definition copyImage (timers : Timers) (fetch : string -> Z -> promise Response)
    (write : nat -> list string -> Z -> promise unit) (source : image_source)
    (options : options) (now : Z) : option image_run :=
  let '(l, p) := fetchImageBlob fetch source now in
  match p with
  | Settled t (Resolved blob) =>
      match retryOperation timers
              (fun i t' => copyImageBlob (write i) blob (blob_type blob) t') options t with
      | Some (tr, q) => Some (mkImageRun l tr q)
      | None => None
      end
  | Settled t (Rejected e) => Some (mkImageRun l [] (Settled t (Rejected e)))
  | Pending => Some (mkImageRun l [] Pending)
  end.

(** *** Rich text *)

Record RichText : Type := mkRich {
  rich_text : string;
  rich_html : string
}.

(** The globals the rich copy looks up at every call: [clipboard_write] is [None] when
    [navigator.clipboard.write] or [ClipboardItem] is missing. *)
Record RichGlobals : Type := mkRichGlobals {
  clipboard_write : option (list string -> Z -> promise unit);
  rich_execCommand : string -> exec_answer
}.

Definition isClipboardItemSupported (host : Host) (g : RichGlobals)
  : option (list string -> Z -> promise unit) :=
  if _isBrowser host then clipboard_write g else None.

Definition copyRichTextModern (write : list string -> Z -> promise unit)
    (text html : string) (now : Z) : list item_effect * promise RichText :=
  ([ClipboardWrite ["text/plain"; "text/html"]],
   match write ["text/plain"; "text/html"] now with
   | Pending => Pending
   | Settled t (Resolved _) => Settled t (Resolved (mkRich text html))
   | Settled t (Rejected e) => Settled t (Rejected e)
   end).

Definition copyRichTextLegacy (g : RichGlobals) (text html : string)
    (container : option string) (now : Z) : list item_effect * promise RichText :=
  let containerEl := match container with Some c => c | None => body end in
  let succeeded :=
    match rich_execCommand g "copy" with
    | ExecReturns b => b
    | ExecThrows => false
    end in
  ([AppendMarkup containerEl html; SelectMarkup; Legacy (ExecCommand "copy");
    Legacy RemoveOffscreen; Legacy ClearSelection],
   if succeeded then resolvedPromise now (mkRich text html)
   else rejectedPromise now (Error "execCommand copy failed for rich text")).

Definition catch_item {T} (p : list item_effect * promise T)
    (handler : js_error -> Z -> list item_effect * promise T)
  : list item_effect * promise T :=
  match snd p with
  | Settled t (Rejected e) => let '(l, q) := handler e t in ((fst p ++ l)%list, q)
  | _ => p
  end.

(** The argument of [copyRichText]. *)
Record rich_options : Type := mkRichOptions {
  text : string;
  html : string;
  container : option string;
  rich_retries : option Z;
  rich_retryDelay : option Z;
  rich_timeout : option Z
}.

Definition richAttempt (host : Host) (g : RichGlobals) (text html : string)
    (container : option string) (now : Z) : list item_effect * promise RichText :=
  match isClipboardItemSupported host g with
  | Some write =>
      catch_item (copyRichTextModern write text html now)
        (fun _ t => copyRichTextLegacy g text html container t)
  | None => copyRichTextLegacy g text html container now
  end.

Definition copyRichText (host : Host) (world : nat -> RichGlobals)
    (options : rich_options) (now : Z)
  : option (list (step item_effect) * promise RichText) :=
  let container :=
    match container options with
    | Some c => Some c
    | None => if _isBrowser host then Some body else None
    end in
  retryOperation (timers host)
    (fun i t => richAttempt host (world i) (text options) (html options) container t)
    (OptObject (Items.container options) (rich_retries options)
       (rich_retryDelay options) (rich_timeout options))
    now.

(** The argument of the public [copyRich]: nothing, or an object whose
    [text] and [html] may be anything. *)
Record rich_argument : Type := mkRichArgument {
  arg_text : js_value;
  arg_html : js_value;
  arg_container : option string;
  arg_retries : option Z;
  arg_retryDelay : option Z;
  arg_timeout : option Z
}.

Definition copyRich (host : Host) (world : nat -> RichGlobals)
    (options : option rich_argument) (now : Z)
  : option (list (step item_effect) * promise RichText) :=
  match options with
  | None =>
      Some ([], rejectedPromise now
        (TypeError "NowClipboard.copyRich() requires { text: string, html: string }"))
  | Some o =>
      if negb (_isString (arg_text o)) || negb (_isString (arg_html o)) then
        Some ([], rejectedPromise now
          (TypeError "NowClipboard.copyRich() requires { text: string, html: string }"))
      else if negb (_isBrowser host) then
        Some ([], rejectedPromise now
          (Error "NowClipboard.copyRich() is only available in browser environment"))
      else
        copyRichText host world
          (mkRichOptions (chars (arg_text o)) (chars (arg_html o)) (arg_container o)
             (arg_retries o) (arg_retryDelay o) (arg_timeout o))
          now
  end.

Definition is_fetch (e : item_effect) : bool :=
  match e with Fetch _ => true | _ => false end.

End Items.

(* ================================================================== *)
(** ** Click handling *)

Module Click.
Import Controller WriteChain Browser Items.

(** The settings an instance keeps, as [resolveOptions] computes them. *)
Record Instance : Type := mkInstance {
  inst_container : option string;
  inst_retries : Z;
  inst_retryDelay : Z;
  inst_timeout : Z
}.

Definition resolveOptions (host : Host) (container : option string)
    (retries retryDelay timeout : option Z) : Instance :=
  mkInstance
    (match container with
     | Some c => Some c
     | None => if _isBrowser host then Some body else None
     end)
    (or_default retries 2) (or_default retryDelay 100) (or_default timeout 0).

(** What the resolvers answer for the trigger that was clicked: the action
    ([None] for a falsy answer), the target element, the text, and the
    trigger's [data-nc-html] attribute. *)
Record Clicked : Type := mkClicked {
  action_answer : option string;
  target_answer : option Element;
  text_answer : option string;
  html_attribute : option string
}.

(** [this.action(trigger) || 'copy'] *)
Definition actionName (c : Clicked) : string :=
  match action_answer c with
  | Some a => if (a =? "")%string then "copy" else a
  | None => "copy"
  end.

(** The text, when it is truthy. *)
Definition given_text (c : Clicked) : option string :=
  match text_answer c with
  | Some s => if (s =? "")%string then None else Some s
  | None => None
  end.

Definition isRichCopy (c : Clicked) : bool :=
  match html_attribute c with
  | Some v => (v =? "true")%string
  | None => false
  end.

(** The state of the page during the operation a click starts, and what
    the listeners registered on the instance for [success] do when that event
    is emitted: [success_throws] is the exception that comes out of
    [emit('success', ...)], if one does. *)
Record Page : Type := mkPage {
  text_world : nat -> Globals;
  cut_globals : Globals;
  rich_world : nat -> RichGlobals;
  element_world : nat -> Globals * Globals;
  success_throws : option js_error
}.

Inductive operation_run : Type :=
| NoOperation
| TextCopy (tr : list (step event))
| CutRun (r : cut_run)
| RichCopy (tr : list (step item_effect))
| ElementCopy (tr : list (step effect)).

(** What is emitted: [success] with the action and the text, or [error]
    with the action and the error. *)
Inductive emission : Type :=
| Success (action text : string)
| Failure (action : string) (error : js_error).

Record click_run : Type := mkClickRun {
  emitted : list emission;
  ran : operation_run;
  operation_promise : option (promise string)
}.

Definition refuse (action : string) (message : string) : click_run :=
  mkClickRun [Failure action (Error message)] NoOperation None.

(** [operationPromise.then(onSuccess).catch(onError)]: a resolution is
    reported by a [success] emission; a rejection by an [error] emission, and
    so is an exception that comes out of the [success] emission, which rejects
    the promise [then] returned. *)
Definition report (thrown : option js_error) (action : string) (p : promise string)
  : list emission :=
  match p with
  | Settled _ (Resolved copiedText) =>
      Success action copiedText ::
      match thrown with
      | Some err => [Failure action err]
      | None => []
      end
  | Settled _ (Rejected err) => [Failure action err]
  | Pending => []
  end.

Definition instance_options (self : Instance) : options :=
  OptObject (inst_container self) (Some (inst_retries self))
    (Some (inst_retryDelay self)) (Some (inst_timeout self)).

(** [textContent || innerText || ''] *)
Definition rich_plain (el : Element) : string :=
  if negb (textContent el =? "")%string then textContent el
  else if negb (innerText el =? "")%string then innerText el
  else "".

Definition onClick (host : Host) (page : Page) (self : Instance) (c : Clicked)
    (now : Z) : option click_run :=
  let action := actionName c in
  if negb (action =? "copy")%string && negb (action =? "cut")%string then
    Some (refuse action
            ("Invalid action " ++ quoted action ++ ", use " ++ quoted "copy"
               ++ " or " ++ quoted "cut"))
  else
    match given_text c with
    | Some text =>
        match copyText host (text_world page) text (instance_options self) now with
        | Some (tr, p) =>
            Some (mkClickRun (report (success_throws page) action p) (TextCopy tr)
                    (Some p))
        | None => None
        end
    | None =>
        match target_answer c with
        | Some targetEl =>
            if (action =? "cut")%string then
              if hasAttribute targetEl "readonly" || hasAttribute targetEl "disabled" then
                Some (refuse action
                  ("Cannot cut from elements with " ++ quoted "readonly" ++ " or "
                     ++ quoted "disabled" ++ " attributes"))
              else
                match performCut host (cut_globals page) (text_world page) targetEl now with
                | Some r =>
                    Some (mkClickRun
                            (report (success_throws page) action (cut_promise r))
                            (CutRun r) (Some (cut_promise r)))
                | None => None
                end
            else if isRichCopy c then
              match copyRichText host (rich_world page)
                      (mkRichOptions (rich_plain targetEl) (innerHTML targetEl)
                         (inst_container self) (Some (inst_retries self))
                         (Some (inst_retryDelay self)) (Some (inst_timeout self)))
                      now with
              | Some (tr, p) =>
                  let q := match p with
                           | Pending => Pending
                           | Settled t (Resolved result) => Settled t (Resolved (rich_text result))
                           | Settled t (Rejected e) => Settled t (Rejected e)
                           end in
                  Some (mkClickRun (report (success_throws page) action q)
                          (RichCopy tr) (Some q))
              | None => None
              end
            else if hasAttribute targetEl "disabled" then
              Some (refuse action
                ("Cannot copy from elements with " ++ quoted "disabled"
                   ++ " attribute, use " ++ quoted "readonly" ++ " instead"))
            else
              match copyFromElement host (element_world page) targetEl
                      (instance_options self) now with
              | Some (tr, p) =>
                  Some (mkClickRun (report (success_throws page) action p)
                          (ElementCopy tr) (Some p))
              | None => None
              end
        | None => Some (refuse action "No text or target specified")
        end
    end.

End Click.

(* ================================================================== *)
(** ** Further observations on traces *)

Module MoreObserve.

(** The commands handed to [spawn], in order. *)
Fixpoint spawned (tr : list event) : list (string * list string) :=
  match tr with
  | [] => []
  | Spawn cmd args :: tr' => (cmd, args) :: spawned tr'
  | _ :: tr' => spawned tr'
  end.

End MoreObserve.

(* ================================================================== *)
(** ** Further concrete operations *)

Module MoreScenarios.
Import Controller OSAdapter WriteChain Emitter Browser Items Click Scenarios.

(** An operation that fails at once on its first two calls and then resolves
    at once. *)
Definition third_time_lucky (i : nat) (now : Z) : list unit * promise string :=
  if (i <? 2)%nat then ([], Settled now (Rejected (numbered_failure i)))
  else ([], Settled now (Resolved "done")).

(** An operation whose promise never settles. *)
Definition never_settles (i : nat) (now : Z) : list unit * promise string :=
  ([], Pending).

Definition three_retries : options := OptObject None (Some 3) (Some 100) None.

(** A Linux machine whose [xclip] starts but refuses to be written to, and
    still exits with code 0. *)
Definition linux_closed_stdin : NodeProcess :=
  mkProcess "linux" (fun _ _ now =>
    Started (Some "write EPIPE") [(now + 5, OnClose (ExitCode 0))]).

(** A Node process that runs the library as an ES module, where [require]
    is not defined. *)
Definition es_module_process : NodeProcess :=
  mkProcess "linux" (fun _ _ _ => RequireThrows "require is not defined").

(** A Linux machine without [xclip] whose [xsel] prints the clipboard. *)
Definition linux_xsel_prints : NodeProcess :=
  mkProcess "linux" (fun cmd _ now =>
    if (cmd =? "xclip")%string
    then Started None [(now + 1, OnData "partial"); (now + 1, OnError "spawn xclip ENOENT")]
    else Started None [(now + 2, OnData ("hello" ++ LF)); (now + 3, OnClose (ExitCode 0))]).

(** A machine whose read command prints something and exits with code 1. *)
Definition mac_read_fails : NodeProcess :=
  mkProcess "darwin" (fun _ _ now =>
    Started None [(now + 1, OnData "noise"); (now + 2, OnClose (ExitCode 1))]).


(** A page without the asynchronous API that accepts [copy] but not
    [cut]. *)
Definition no_cut_page : Globals :=
  mkGlobals None (fun action => ExecReturns (action =? "copy")%string)
    windows_without_commands None.

(** A page that refuses every command. *)
Definition refusing_commands : Globals :=
  mkGlobals None (fun _ => ExecReturns false) windows_without_commands None.

Definition secret_input : Element :=
  mkElement "INPUT" "secret" ["type"] "" "" "" "".

Definition some_page : Page :=
  mkPage (fun _ => plain_page) no_cut_page
    (fun _ => mkRichGlobals None (fun _ => ExecReturns true))
    (fun _ => (plain_page, plain_page)) None.


Definition default_instance : Instance := resolveOptions browser_host None None None None.

(** A click on a trigger that asks for a cut of [secret_input] but also
    carries a text. *)
Definition cut_with_text : Clicked :=
  mkClicked (Some "cut") (Some secret_input) (Some "hi") None.

(** *** Emitters and listeners *)

(** What the object literal [{}] inherits from [Object.prototype]: the
    standard properties, the functions with their [length]. *)
Definition object_prototype (name : string) : option inherited_property :=
  get String.eqb
    [("constructor", InheritedFunction 1);
     ("hasOwnProperty", InheritedFunction 1);
     ("isPrototypeOf", InheritedFunction 1);
     ("propertyIsEnumerable", InheritedFunction 1);
     ("toLocaleString", InheritedFunction 0);
     ("toString", InheritedFunction 0);
     ("valueOf", InheritedFunction 0);
     ("__defineGetter__", InheritedFunction 2);
     ("__defineSetter__", InheritedFunction 2);
     ("__lookupGetter__", InheritedFunction 1);
     ("__lookupSetter__", InheritedFunction 1);
     ("__proto__", InheritedObject)]
    name.

(** Listeners that return and leave the emitter alone. *)
Definition quiet_code (n f : nat) : behaviour := quiet.

(** The same, except that function 2 throws. *)
Definition failing_code (n f : nat) : behaviour :=
  if Nat.eqb f 2 then mkBehaviour [] (Some (TypeError "listener failed")) else quiet.

(** Function 3, when called, removes every listener of [success] and then
    registers function 4 for it; the others are quiet. *)
Definition meddling_code (n f : nat) : behaviour :=
  if Nat.eqb f 3
  then mkBehaviour [Off (JString "success") Falsy; On (JString "success") (Function 4) None]
         None
  else quiet.

(** An emitter with two listeners of [success]: function 1, registered with
    [once], and function 2, registered with [on]. *)
Definition two_listeners : EventEmitter :=
  fst (on (fst (once_ (new_emitter object_prototype) (JString "success") (Function 1) None))
          (JString "success") (Function 2) None).

(** An address that answers 404. *)
Definition not_found (url : string) (now : Z) : promise Response :=
  Settled (now + 9) (Resolved (mkResponse false 404 (fun _ => Pending))).

Definition no_write (i : nat) (types : list string) (now : Z) : promise unit :=
  Settled now (Rejected (DOMException "NotAllowedError" "denied")).

End MoreScenarios.

(* ================================================================== *)
(** * Properties of the controller *)

Module ControllerFacts.
Import Controller Scenarios.

Section Facts.
Context {L T : Type}.
Variable tm : Timers.
Variable fn : nat -> Z -> list L * promise T.
Variable cfg : RetryConfig.

Lemma tryOnce_total : forall fuel attempt calls now,
  (Z.to_nat (retries cfg - attempt) < fuel)%nat ->
  exists tr p, tryOnce tm fn cfg fuel attempt calls now = Some (tr, p).
Proof.
  induction fuel as [|fuel IH]; intros attempt calls now Hfuel; [lia|].
  cbn [tryOnce].
  destruct (fn calls now) as [l [|t [v|err]]]; eauto.
  destruct (attempt + 1 >? retries cfg) eqn:Hgt; eauto.
  rewrite Z.gtb_ltb in Hgt; apply Z.ltb_ge in Hgt.
  destruct (IH (attempt + 1) (S calls)
              (fires tm t (2 ^ (attempt + 1 - 1) * retryDelay cfg)))
    as (tr & p & Heq); [lia|].
  rewrite Heq. eauto.
Qed.

Lemma retrySequence_total : forall now,
  exists tr p, retrySequence tm fn cfg now = Some (tr, p).
Proof.
  intros now. unfold retrySequence. apply tryOnce_total. lia.
Qed.



(** Every call recorded in the trace is the call of [fn] made at the
    recorded instant, with its own trace. *)
Lemma tryOnce_invokes_fn : forall fuel attempt calls now tr p,
  tryOnce tm fn cfg fuel attempt calls now = Some (tr, p) ->
  Forall (fun s => match s with
                   | Invoked i t l => l = fst (fn i t)
                   | Waited _ => True
                   end) tr.
Proof.
  induction fuel as [|fuel IH]; intros attempt calls now tr p Hrun; [discriminate|].
  cbn [tryOnce] in Hrun.
  destruct (fn calls now) as [l pr] eqn:Hfn.
  assert (Hl : l = fst (fn calls now)) by now rewrite Hfn.
  destruct pr as [|t [v|err]];
    try (inversion Hrun; subst tr; constructor; [exact Hl|constructor]).
  destruct (attempt + 1 >? retries cfg);
    [inversion Hrun; subst tr; constructor; [exact Hl|constructor]|].
  destruct (tryOnce tm fn cfg fuel (attempt + 1) (S calls) _) as [[tr' q]|] eqn:Hrec;
    [|discriminate].
  inversion Hrun; subst tr. constructor; [exact Hl|]. constructor; [exact I|].
  eapply IH; eauto.
Qed.

(** The first thing the sequence does is the first call of [fn]. *)
Lemma tryOnce_first_call : forall fuel attempt calls now tr p,
  tryOnce tm fn cfg fuel attempt calls now = Some (tr, p) ->
  exists rest, tr = Invoked calls now (fst (fn calls now)) :: rest.
Proof.
  destruct fuel as [|fuel]; intros attempt calls now tr p Hrun; [discriminate|].
  cbn [tryOnce] in Hrun.
  destruct (fn calls now) as [l [|t [v|err]]]; try (inversion Hrun; subst; eauto).
  destruct (attempt + 1 >? retries cfg); [inversion Hrun; subst; eauto|].
  destruct (tryOnce tm fn cfg fuel (attempt + 1) (S calls) _) as [[tr' q]|];
    [|discriminate].
  inversion Hrun; subst; eauto.
Qed.

(** The promise of the sequence is the promise returned by its last call,
    which is the last thing recorded in its trace. *)
Lemma tryOnce_provenance : forall fuel attempt calls now tr p,
  tryOnce tm fn cfg fuel attempt calls now = Some (tr, p) ->
  exists pre i t0, tr = (pre ++ [Invoked i t0 (fst (fn i t0))])%list /\
                   S i = (calls + invocations tr)%nat /\
                   snd (fn i t0) = p.
Proof.
  induction fuel as [|fuel IH]; intros attempt calls now tr p Hrun; [discriminate|].
  cbn [tryOnce] in Hrun.
  destruct (fn calls now) as [l pr] eqn:Hfn.
  assert (Hhere : forall q, pr = q ->
            exists pre i t0,
              [Invoked calls now l] = (pre ++ [Invoked i t0 (fst (fn i t0))])%list /\
              S i = (calls + invocations [Invoked calls now l])%nat /\
              snd (fn i t0) = q).
  { intros q <-. exists [], calls, now. rewrite Hfn. cbn.
    split; [reflexivity|]. split; [lia|reflexivity]. }
  destruct pr as [|t [v|err]]; try (inversion Hrun; subst tr p; now apply Hhere).
  destruct (attempt + 1 >? retries cfg);
    [inversion Hrun; subst tr p; now apply Hhere|].
  destruct (tryOnce tm fn cfg fuel (attempt + 1) (S calls) _) as [[tr' q]|] eqn:Hrec;
    [|discriminate].
  inversion Hrun; subst tr p.
  destruct (IH _ _ _ _ _ Hrec) as (pre & i & t0 & Htr & Hi & Hq).
  exists (Invoked calls now l :: Waited (2 ^ (attempt + 1 - 1) * retryDelay cfg) :: pre),
         i, t0.
  split; [cbn; now rewrite Htr|]. split; [|exact Hq].
  unfold invocations in *. cbn. lia.
Qed.

(** A permanently failing operation: the sequence stops when the counter
    passes [retries], with the error of the last call. *)
Lemma tryOnce_exhausts : forall (err : nat -> js_error),
  (forall i t, exists l t', fn i t = (l, Settled t' (Rejected (err i)))) ->
  forall fuel attempt calls now,
  (Z.to_nat (retries cfg - attempt) < fuel)%nat ->
  let n := Z.to_nat (retries cfg - attempt) in
  exists tr t,
    tryOnce tm fn cfg fuel attempt calls now
      = Some (tr, Settled t (Rejected (err (calls + n)%nat))) /\
    invocations tr = S n.
Proof.
  intros err Hfail.
  induction fuel as [|fuel IH]; intros attempt calls now Hfuel; [lia|].
  cbn zeta. cbn [tryOnce].
  destruct (Hfail calls now) as (l & t' & Hfn). rewrite Hfn.
  destruct (attempt + 1 >? retries cfg) eqn:Hgt.
  - rewrite Z.gtb_ltb in Hgt; apply Z.ltb_lt in Hgt.
    replace (Z.to_nat (retries cfg - attempt)) with 0%nat by lia.
    rewrite Nat.add_0_r. do 2 eexists. split; reflexivity.
  - rewrite Z.gtb_ltb in Hgt; apply Z.ltb_ge in Hgt.
    destruct (IH (attempt + 1) (S calls)
                (fires tm t' (2 ^ (attempt + 1 - 1) * retryDelay cfg)))
      as (tr & t & Heq & Hinv); [lia|].
    rewrite Heq.
    replace (calls + Z.to_nat (retries cfg - attempt))%nat
      with (S calls + Z.to_nat (retries cfg - (attempt + 1)))%nat by lia.
    do 2 eexists. split; [reflexivity|].
    unfold invocations in *. cbn. rewrite Hinv. f_equal. lia.
Qed.
End Facts.

Lemma withTimeout_disabled {T} : forall tm now (p : promise T) ms,
  ms <= 0 -> withTimeout tm now p ms = p.
Proof.
  intros tm now p ms Hms. unfold withTimeout.
  destruct (ms <=? 0) eqn:H; [reflexivity|]. apply Z.leb_gt in H. lia.
Qed.

Lemma withTimeout_in_time {T} : forall tm now t (o : outcome T) ms,
  t < fires tm now ms -> withTimeout tm now (Settled t o) ms = Settled t o.
Proof.
  intros tm now t o ms Ht. unfold withTimeout.
  destruct (ms <=? 0); [reflexivity|]. cbn zeta.
  destruct (t <? fires tm now ms) eqn:H; [reflexivity|]. apply Z.ltb_ge in H. lia.
Qed.

Lemma withTimeout_late {T} : forall tm now t (o : outcome T) ms,
  0 < ms -> fires tm now ms < t ->
  withTimeout tm now (Settled t o) ms
    = Settled (fires tm now ms) (Rejected (timeout_error ms)).
Proof.
  intros tm now t o ms Hms Ht. unfold withTimeout.
  destruct (ms <=? 0) eqn:H0; [apply Z.leb_le in H0; lia|]. cbn zeta.
  destruct (t <? fires tm now ms) eqn:H; [apply Z.ltb_lt in H; lia|].
  destruct (t =? fires tm now ms) eqn:H'; [apply Z.eqb_eq in H'; lia|reflexivity].
Qed.

(** The promise handed on is the promise of the sequence, or the timeout
    error raised when the deadline timer fires. *)
Lemma withTimeout_origin {T} : forall tm now (q : promise T) ms,
  withTimeout tm now q ms = q \/
  (0 < ms /\
   withTimeout tm now q ms = Settled (fires tm now ms) (Rejected (timeout_error ms))).
Proof.
  intros tm now q ms. unfold withTimeout.
  destruct (ms <=? 0) eqn:H0; [now left|]. apply Z.leb_gt in H0. cbn zeta.
  destruct q as [|t o]; [right; split; [lia|reflexivity]|].
  destruct ((t <? fires tm now ms) || (t =? fires tm now ms) && promise_first tm);
    [now left | right; split; [lia|reflexivity]].
Qed.

Lemma withTimeout_resolved {T} : forall tm now (q : promise T) ms t v,
  withTimeout tm now q ms = Settled t (Resolved v) -> q = Settled t (Resolved v).
Proof.
  intros tm now q ms t v H.
  destruct (withTimeout_origin tm now q ms) as [Heq | (_ & Heq)]; rewrite Heq in H.
  - exact H.
  - discriminate.
Qed.

(** Whatever the host's order at a tie, the promise handed on settles no
    later than the deadline: with the outcome of the sequence, or with the
    timeout error at the deadline. *)
Lemma withTimeout_cases {T} : forall tm now (p : promise T) ms,
  0 < ms ->
  (exists t o, p = Settled t o /\ t <= fires tm now ms /\
               withTimeout tm now p ms = Settled t o) \/
  withTimeout tm now p ms = Settled (fires tm now ms) (Rejected (timeout_error ms)).
Proof.
  intros tm now p ms Hms. unfold withTimeout.
  destruct (ms <=? 0) eqn:H0; [apply Z.leb_le in H0; lia|]. cbn zeta.
  destruct p as [|t o]; [now right|].
  destruct (t <? fires tm now ms) eqn:Hlt; cbn [orb].
  - apply Z.ltb_lt in Hlt. left. exists t, o.
    split; [reflexivity|]. split; [lia|reflexivity].
  - destruct (t =? fires tm now ms) eqn:Heq; cbn [andb]; [|now right].
    destruct (promise_first tm); [|now right].
    apply Z.eqb_eq in Heq. left. exists t, o.
    split; [reflexivity|]. split; [lia|reflexivity].
Qed.

(** What a call of [retryOperation] amounts to: it returns; its trace is
    that of the retry sequence, in which every call recorded is a call of the
    operation and the last thing recorded is the call whose promise the
    sequence ends with; and its promise is that promise put under the
    deadline. *)
Lemma retryOperation_run {L T} :
  forall (tm : Timers) (fn : nat -> Z -> list L * promise T) (config : options)
         (now : Z),
    exists tr q,
      retrySequence tm fn (parseRetryConfig config) now = Some (tr, q) /\
      retryOperation tm fn config now
        = Some (tr, withTimeout tm now q (timeout (parseRetryConfig config))) /\
      Forall (fun s => match s with
                       | Invoked i t l => l = fst (fn i t)
                       | Waited _ => True
                       end) tr /\
      exists pre i t0,
        tr = (pre ++ [Invoked i t0 (fst (fn i t0))])%list /\
        S i = invocations tr /\
        snd (fn i t0) = q.
Proof.
  intros tm fn config now.
  destruct (retrySequence_total tm fn (parseRetryConfig config) now) as (tr & q & Hseq).
  exists tr, q. split; [exact Hseq|]. split.
  - unfold retryOperation. now rewrite Hseq.
  - unfold retrySequence in Hseq. split.
    + exact (tryOnce_invokes_fn tm fn _ _ _ _ _ _ _ Hseq).
    + exact (tryOnce_provenance tm fn _ _ _ _ _ _ _ Hseq).
Qed.

(** C2, as amended.  With [retries = N] and an operation that fails on every
    call, [retryOperation] calls the operation exactly [N + 1] times, whatever
    the deadline; the retry sequence ends with the error of the [(N+1)]-th
    call, and the caller receives that very error, unchanged, provided the
    deadline timer is off or fires after that failure.  When the timer fires
    before it, the caller receives the timeout error instead. *)
Theorem retry_until_exhausted {L T} :
  forall (tm : Timers) (fn : nat -> Z -> list L * promise T) (err : nat -> js_error)
         (config : options) (now : Z) (N : nat),
    retries (parseRetryConfig config) = Z.of_nat N ->
    (forall i t, exists l t', fn i t = (l, Settled t' (Rejected (err i)))) ->
    exists tr t,
      retrySequence tm fn (parseRetryConfig config) now
        = Some (tr, Settled t (Rejected (err N))) /\
      retryOperation tm fn config now
        = Some (tr, withTimeout tm now (Settled t (Rejected (err N)))
                      (timeout (parseRetryConfig config))) /\
      invocations tr = S N /\
      (timeout (parseRetryConfig config) <= 0 \/
       t < fires tm now (timeout (parseRetryConfig config)) ->
       retryOperation tm fn config now = Some (tr, Settled t (Rejected (err N)))) /\
      (0 < timeout (parseRetryConfig config) ->
       fires tm now (timeout (parseRetryConfig config)) < t ->
       retryOperation tm fn config now
         = Some (tr, Settled (fires tm now (timeout (parseRetryConfig config)))
                       (Rejected (timeout_error (timeout (parseRetryConfig config)))))).
Proof.
  intros tm fn err config now N HN Hfail.
  destruct (tryOnce_exhausts tm fn (parseRetryConfig config) err Hfail
              (S (Z.to_nat (retries (parseRetryConfig config)))) 0 0%nat now)
    as (tr & t & Hrun & Hinv); [lia|].
  cbn zeta in Hrun, Hinv.
  replace (Z.to_nat (retries (parseRetryConfig config) - 0)) with N in Hrun, Hinv by lia.
  cbn [Nat.add] in Hrun.
  exists tr, t. split; [exact Hrun|].
  assert (Hop : retryOperation tm fn config now
                = Some (tr, withTimeout tm now (Settled t (Rejected (err N)))
                              (timeout (parseRetryConfig config)))).
  { unfold retryOperation, retrySequence. now rewrite Hrun. }
  split; [exact Hop|]. split; [exact Hinv|]. split.
  - intros Hdeadline. rewrite Hop. destruct Hdeadline as [Hoff|Hearly].
    + now rewrite withTimeout_disabled.
    + now rewrite withTimeout_in_time.
  - intros Hpos Hlate. rewrite Hop. now rewrite withTimeout_late.
Qed.

Lemma retry_until_exhausted_witness :
  exists tr t,
    retrySequence node_timers always_fails (parseRetryConfig patient) 0
      = Some (tr, Settled t (Rejected (numbered_failure 2))) /\
    retryOperation node_timers always_fails patient 0
      = Some (tr, withTimeout node_timers 0 (Settled t (Rejected (numbered_failure 2)))
                    (timeout (parseRetryConfig patient))) /\
    invocations tr = 3%nat /\
    (timeout (parseRetryConfig patient) <= 0 \/
     t < fires node_timers 0 (timeout (parseRetryConfig patient)) ->
     retryOperation node_timers always_fails patient 0
       = Some (tr, Settled t (Rejected (numbered_failure 2)))) /\
    (0 < timeout (parseRetryConfig patient) ->
     fires node_timers 0 (timeout (parseRetryConfig patient)) < t ->
     retryOperation node_timers always_fails patient 0
       = Some (tr, Settled (fires node_timers 0 (timeout (parseRetryConfig patient)))
                     (Rejected (timeout_error (timeout (parseRetryConfig patient)))))).
Proof.
  apply (retry_until_exhausted node_timers always_fails numbered_failure patient 0 2).
  - reflexivity.
  - intros i t. exists [], t. reflexivity.
Defined.

(** C2, as stated, fails when a deadline is set: with one retry, a delay of
    100 ms and a deadline of 50 ms, an operation that always fails with
    [boom] is called twice, at 0 and at 100, and leaves the caller with the
    timeout error at 50, not with [boom]. *)
Lemma retry_error_replaced_by_timeout :
  retries (parseRetryConfig impatient) = 1 /\
  (forall i t, exists l t', always_boom i t = (l, Settled t' (Rejected boom))) /\
  retryOperation node_timers always_boom impatient 0
    = Some ([Invoked 0 0 []; Waited 100; Invoked 1 100 []],
            Settled 50 (Rejected (Error "Operation timed out after 50ms"))) /\
  Error "Operation timed out after 50ms" <> boom.
Proof.
  split; [reflexivity|]. split; [intros i t; exists [], t; reflexivity|].
  split; [vm_compute; reflexivity|]. discriminate.
Qed.



(** C4, as amended.  The deadline is one timer, armed when the call is made
    and raced against the whole retry sequence.  With [timeout > 0]: if the
    sequence first settles after the instant at which that timer fires, the
    caller gets the timeout error at that instant and not the late outcome,
    and that instant is [timeout] ms after the call when the host honours the
    delay exactly; if the sequence settles before the timer fires, the caller
    gets its outcome.  With [timeout <= 0] there is no timer and an outcome,
    however late, is handed on. *)
Theorem timeout_races_whole_sequence {L T} :
  forall (tm : Timers) (fn : nat -> Z -> list L * promise T) (config : options)
         (now : Z) tr (t : Z) (o : outcome T),
    retrySequence tm fn (parseRetryConfig config) now = Some (tr, Settled t o) ->
    (0 < timeout (parseRetryConfig config) ->
     fires tm now (timeout (parseRetryConfig config)) < t ->
     retryOperation tm fn config now
       = Some (tr, Settled (fires tm now (timeout (parseRetryConfig config)))
                     (Rejected (timeout_error (timeout (parseRetryConfig config)))))) /\
    (0 < timeout (parseRetryConfig config) ->
     fires tm now (timeout (parseRetryConfig config))
       = now + timeout (parseRetryConfig config) ->
     now + timeout (parseRetryConfig config) < t ->
     retryOperation tm fn config now
       = Some (tr, Settled (now + timeout (parseRetryConfig config))
                     (Rejected (timeout_error (timeout (parseRetryConfig config)))))) /\
    (0 < timeout (parseRetryConfig config) ->
     t < fires tm now (timeout (parseRetryConfig config)) ->
     retryOperation tm fn config now = Some (tr, Settled t o)) /\
    (timeout (parseRetryConfig config) <= 0 ->
     retryOperation tm fn config now = Some (tr, Settled t o)).
Proof.
  intros tm fn config now tr t o Hseq. unfold retryOperation. rewrite Hseq.
  split; [|split; [|split]].
  - intros Hpos Hlate. now rewrite withTimeout_late.
  - intros Hpos Hexact Hlate. rewrite withTimeout_late; [|exact Hpos|lia].
    now rewrite Hexact.
  - intros Hpos Hearly. now rewrite withTimeout_in_time.
  - intros Hoff. now rewrite withTimeout_disabled.
Qed.

Lemma timeout_races_whole_sequence_witness :
  retryOperation node_timers slow_success deadline_200 0
    = Some ([Invoked 0 0 []], Settled 200 (Rejected (timeout_error 200))) /\
  retryOperation node_timers slow_success deadline_900 0
    = Some ([Invoked 0 0 []], Settled 500 (Resolved "late")) /\
  retryOperation node_timers slow_success no_deadline 0
    = Some ([Invoked 0 0 []], Settled 500 (Resolved "late")).
Proof.
  split; [|split].
  - apply (proj1 (proj2 (timeout_races_whole_sequence node_timers slow_success
                           deadline_200 0 [Invoked 0 0 []] 500 (Resolved "late") eq_refl))).
    + reflexivity.
    + reflexivity.
    + reflexivity.
  - apply (proj1 (proj2 (proj2 (timeout_races_whole_sequence node_timers slow_success
                           deadline_900 0 [Invoked 0 0 []] 500 (Resolved "late") eq_refl)))).
    + reflexivity.
    + reflexivity.
  - apply (proj2 (proj2 (proj2 (timeout_races_whole_sequence node_timers slow_success
                           no_deadline 0 [Invoked 0 0 []] 500 (Resolved "late") eq_refl)))).
    discriminate.
Defined.

(** C4, as stated, fails for a deadline the host's timers do not honour: in
    Node, with [timeout = 2^31] and an operation that succeeds later than
    that, the caller gets the timeout error 1 ms after the call, not at
    [timeout]. *)
Lemma timeout_beyond_timer_range :
  timeout (parseRetryConfig deadline_overflow) = 2147483648 /\
  retrySequence node_timers very_late (parseRetryConfig deadline_overflow) 0
    = Some ([Invoked 0 0 []], Settled 3000000000 (Resolved "late")) /\
  0 + 2147483648 < 3000000000 /\
  retryOperation node_timers very_late deadline_overflow 0
    = Some ([Invoked 0 0 []],
            Settled 1 (Rejected (Error "Operation timed out after 2147483648ms"))) /\
  1 <> 0 + 2147483648.
Proof.
  split; [reflexivity|]. split; [reflexivity|]. split; [reflexivity|].
  split; [vm_compute; reflexivity|]. discriminate.
Qed.

End ControllerFacts.

(* ================================================================== *)
(** * Properties of the OS process adapter *)

Module OSAdapterFacts.
Import OSAdapter Observe Scenarios.

Lemma append_empty_r : forall s : string, s ++ "" = s.
Proof. induction s as [|c s IH]; cbn; [reflexivity | now rewrite IH]. Qed.

Lemma append_assoc : forall a b c : string, (a ++ b) ++ c = a ++ (b ++ c).
Proof. induction a as [|x a IH]; intros b c; cbn; [reflexivity | now rewrite IH]. Qed.

(** How a fold of listeners over the events of a child behaves, for any
    listener that leaves the promise alone on output chunks, does nothing
    once [finished], and sets [finished] on the first other event. *)
Section Listeners.
Variable f : listeners -> Z * proc_event -> listeners.
Hypothesis f_data : forall st t c,
  f st (t, OnData c) = mkListeners (finished st) (output (f st (t, OnData c)))
                         (result st) (log st).
Hypothesis f_done : forall st t e,
  finished st = true -> is_data e = false -> f st (t, e) = st.
Hypothesis f_decides : forall st t e,
  finished st = false -> is_data e = false -> finished (f st (t, e)) = true.

Lemma data_keeps : forall st t e, is_data e = true ->
  finished (f st (t, e)) = finished st /\
  result (f st (t, e)) = result st /\ log (f st (t, e)) = log st.
Proof.
  intros st t [m|c|c] He; try discriminate. rewrite f_data. cbn. auto.
Qed.

Lemma fold_finished : forall evs st, finished st = true ->
  result (fold_left f evs st) = result st /\ log (fold_left f evs st) = log st.
Proof.
  induction evs as [|[t e] evs IH]; intros st Hfin; cbn [fold_left]; [auto|].
  destruct (is_data e) eqn:He.
  - destruct (data_keeps st t e He) as (Hf & Hr & Hl).
    destruct (IH (f st (t, e))) as (Hr' & Hl'); [congruence|].
    rewrite Hr', Hl'. auto.
  - rewrite f_done by assumption. now apply IH.
Qed.

Lemma fold_decisive : forall evs st ev, finished st = false ->
  decisive evs = Some ev ->
  result (fold_left f evs st) = result (f (at_decision f evs st) ev) /\
  log (fold_left f evs st) = log (f (at_decision f evs st) ev).
Proof.
  induction evs as [|[t e] evs IH]; intros st ev Hfin Hdec; [discriminate|].
  cbn [fold_left decisive at_decision] in *.
  destruct (is_data e) eqn:He.
  - destruct (data_keeps st t e He) as (Hf & _).
    apply IH; [congruence | assumption].
  - inversion Hdec; subst ev. apply fold_finished. now apply f_decides.
Qed.

End Listeners.

(** The listeners of the write side ignore output chunks altogether. *)
Lemma at_decision_write : forall f,
  (forall st t c, f st (t, OnData c) = st) ->
  forall evs st, at_decision f evs st = st.
Proof.
  intros f Hf. induction evs as [|[t [m|c|c]] evs IH]; intros st; cbn; try reflexivity.
  rewrite Hf. apply IH.
Qed.

(** Those of the read side append them to [output]. *)
Lemma at_decision_read : forall f,
  (forall st t c, f st (t, OnData c) = on_data st c) ->
  forall evs st,
    at_decision f evs st
      = mkListeners (finished st) (output st ++ stdout_before evs) (result st) (log st).
Proof.
  intros f Hf. induction evs as [|[t [m|c|c]] evs IH]; intros [fin out res lg]; cbn;
    try (now rewrite append_empty_r).
  rewrite Hf, IH. cbn. now rewrite append_assoc.
Qed.

Section WithProcess.
Variable host : Host.
Variable process : NodeProcess.

Lemma fallback_copy_listener_data : forall text st t c,
  fallback_copy_listener text st (t, OnData c) = st.
Proof. reflexivity. Qed.

Lemma copy_listener_data : forall cmd text st t c,
  copy_listener process cmd text st (t, OnData c) = st.
Proof. reflexivity. Qed.

Lemma copy_fold : forall cmd text evs st ev,
  finished st = false -> decisive evs = Some ev ->
  result (fold_left (copy_listener process cmd text) evs st)
    = result (copy_listener process cmd text st ev) /\
  log (fold_left (copy_listener process cmd text) evs st)
    = log (copy_listener process cmd text st ev).
Proof.
  intros cmd text evs st ev Hfin Hdec.
  rewrite <- (at_decision_write (copy_listener process cmd text)
                (copy_listener_data cmd text) evs st) at 2 4.
  apply fold_decisive; try assumption.
  - intros [fin out res lg] t c. reflexivity.
  - intros st' t [m|c|c] Hf He; try discriminate; cbn; now rewrite Hf.
  - intros st' t [m|c|c] Hf He; try discriminate; cbn; rewrite Hf.
    + destruct (has_fallback (platform process)); [|reflexivity].
      destruct (nodeClipboardCopyFallback process text t). reflexivity.
    + destruct (is_zero c); reflexivity.
Qed.

Lemma fallback_copy_fold : forall text evs st ev,
  finished st = false -> decisive evs = Some ev ->
  result (fold_left (fallback_copy_listener text) evs st)
    = result (fallback_copy_listener text st ev) /\
  log (fold_left (fallback_copy_listener text) evs st)
    = log (fallback_copy_listener text st ev).
Proof.
  intros text evs st ev Hfin Hdec.
  rewrite <- (at_decision_write (fallback_copy_listener text)
                (fallback_copy_listener_data text) evs st) at 2 4.
  apply fold_decisive; try assumption.
  - intros [fin out res lg] t c. reflexivity.
  - intros st' t [m|c|c] Hf He; try discriminate; cbn; now rewrite Hf.
  - intros st' t [m|c|c] Hf He; try discriminate; cbn; rewrite Hf.
    + reflexivity.
    + destruct (is_zero c); reflexivity.
Qed.

Lemma read_fold : forall cmd evs st ev,
  finished st = false -> decisive evs = Some ev ->
  result (fold_left (read_listener process cmd) evs st)
    = result (read_listener process cmd
                (mkListeners (finished st) (output st ++ stdout_before evs)
                   (result st) (log st)) ev).
Proof.
  intros cmd evs st ev Hfin Hdec.
  rewrite <- (at_decision_read (read_listener process cmd)
                (fun _ _ _ => eq_refl) evs st).
  apply fold_decisive; try assumption.
  - intros [fin out res lg] t c. reflexivity.
  - intros st' t [m|c|c] Hf He; try discriminate; cbn; now rewrite Hf.
  - intros st' t [m|c|c] Hf He; try discriminate; cbn; rewrite Hf.
    + destruct (has_fallback (platform process)); [|reflexivity].
      destruct (nodeClipboardReadFallback process t). reflexivity.
    + destruct (is_zero c); reflexivity.
Qed.
End WithProcess.

Lemma has_fallback_true : forall p : string,
  has_fallback p = true <-> p <> "win32" /\ p <> "darwin".
Proof.
  intros p. unfold has_fallback.
  destruct (String.eqb_spec p "win32"), (String.eqb_spec p "darwin"); cbn;
    split; try discriminate; try tauto; intros [? ?]; congruence.
Qed.

Lemma write_command_other : forall p : string,
  p <> "win32" -> p <> "darwin" ->
  write_command p = ("xclip", ["-selection"; "clipboard"]).
Proof.
  intros p Hw Hd. unfold write_command.
  destruct (String.eqb_spec p "win32"); [contradiction|].
  destruct (String.eqb_spec p "darwin"); [contradiction|]. reflexivity.
Qed.

Lemma write_command_win_mac : forall p : string,
  p = "win32" \/ p = "darwin" ->
  has_fallback p = false /\
  (write_command p = ("clip", []) \/ write_command p = ("pbcopy", [])).
Proof. intros p [-> | ->]; cbn; auto. Qed.

Lemma is_zero_true : forall code, is_zero code = true -> code = ExitCode 0.
Proof.
  intros [c|]; cbn; [|discriminate]. intros H. apply Z.eqb_eq in H. now subst.
Qed.

(** C6.  When the process started for the write closes with code 0 the
    promise resolves with the text it was given, unchanged; when it closes
    with any other code the promise rejects with an error that carries the
    code, and does not resolve. *)
Theorem write_follows_exit_code :
  forall (host : Host) (process : NodeProcess) (text : string) (now : Z)
         evs (t : Z) (code : exit_code),
    _isNode host = true ->
    spawn process (fst (write_command (platform process)))
      (snd (write_command (platform process))) now = Started None evs ->
    decisive evs = Some (t, OnClose code) ->
    snd (nodeClipboardCopy host process text now)
      = (if is_zero code then Settled t (Resolved text)
         else Settled t (Rejected (Error ("Clipboard command exited with code: "
                                            ++ code_to_string code)))) /\
    (code <> ExitCode 0 ->
     resolution_of (snd (nodeClipboardCopy host process text now)) = None).
Proof.
  intros host process text now evs t code Hnode Hspawn Hdec.
  assert (Hres : snd (nodeClipboardCopy host process text now)
      = (if is_zero code then Settled t (Resolved text)
         else Settled t (Rejected (Error ("Clipboard command exited with code: "
                                            ++ code_to_string code))))).
  { unfold nodeClipboardCopy. rewrite Hnode. cbn [negb].
    destruct (write_command (platform process)) as [cmd args]. cbn [fst snd] in Hspawn.
    rewrite Hspawn. cbn [snd].
    destruct (copy_fold process cmd text evs
                (mkListeners false "" Pending [Spawn cmd args; StdinWrite text; StdinEnd])
                (t, OnClose code) eq_refl Hdec) as (Hr & _).
    rewrite Hr. cbn. destruct (is_zero code); reflexivity. }
  split; [exact Hres|].
  intros Hcode. rewrite Hres.
  destruct (is_zero code) eqn:Hz; [|reflexivity].
  apply is_zero_true in Hz. contradiction.
Qed.

Lemma fallback_copy_log : forall text evs st,
  log (fold_left (fallback_copy_listener text) evs st) = log st.
Proof.
  intros text evs. induction evs as [|[t e] evs IH]; intros st; cbn [fold_left];
    [reflexivity|].
  rewrite IH. destruct e as [m|c|c]; cbn; destruct (finished st); cbn;
    try reflexivity; try (destruct (is_zero c); cbn); now rewrite app_nil_r.
Qed.

(** C5.  When the primary write utility cannot be started and the platform is
    neither Windows nor macOS, [xsel --clipboard --input] is started and fed
    the same text, and the caller gets whatever that second attempt gives; if
    it cannot be started either, the rejection names both utilities.  On
    Windows and macOS the failure to start is final and nothing else is
    started. *)
Theorem spawn_failure_fallback :
  forall (host : Host) (process : NodeProcess) (text : string) (now : Z)
         evs (t : Z) (m : string),
    _isNode host = true ->
    spawn process (fst (write_command (platform process)))
      (snd (write_command (platform process))) now = Started None evs ->
    decisive evs = Some (t, OnError m) ->
    (platform process <> "win32" -> platform process <> "darwin" ->
     nodeClipboardCopy host process text now
       = (([Spawn "xclip" ["-selection"; "clipboard"]; StdinWrite text; StdinEnd]
             ++ fst (nodeClipboardCopyFallback process text t))%list,
          snd (nodeClipboardCopyFallback process text t)) /\
     (exists rest, fst (nodeClipboardCopyFallback process text t)
                     = Spawn "xsel" ["--clipboard"; "--input"] :: rest) /\
     (forall sin evs2,
        spawn process "xsel" ["--clipboard"; "--input"] t = Started sin evs2 ->
        exists rest, fst (nodeClipboardCopyFallback process text t)
                     = Spawn "xsel" ["--clipboard"; "--input"] :: StdinWrite text :: rest) /\
     (forall evs2 t2 m2,
        spawn process "xsel" ["--clipboard"; "--input"] t = Started None evs2 ->
        decisive evs2 = Some (t2, OnError m2) ->
        exists msg,
          snd (nodeClipboardCopy host process text now) = Settled t2 (Rejected (Error msg)) /\
          msg = "No clipboard command available. Install xclip or xsel. " ++ m2 /\
          mentions msg "xclip" /\ mentions msg "xsel")) /\
    (platform process = "win32" \/ platform process = "darwin" ->
     nodeClipboardCopy host process text now
       = ([Spawn (fst (write_command (platform process))) []; StdinWrite text; StdinEnd],
          Settled t (Rejected (Error ("Clipboard command failed: "
                                        ++ fst (write_command (platform process))
                                        ++ " - " ++ m))))).
Proof.
  intros host process text now evs t m Hnode Hspawn Hdec. split.
  - intros Hw Hd.
    assert (Hfb : has_fallback (platform process) = true)
      by (apply has_fallback_true; auto).
    rewrite (write_command_other _ Hw Hd) in Hspawn. cbn [fst snd] in Hspawn.
    assert (Hcopy : nodeClipboardCopy host process text now
       = (([Spawn "xclip" ["-selection"; "clipboard"]; StdinWrite text; StdinEnd]
            ++ fst (nodeClipboardCopyFallback process text t))%list,
          snd (nodeClipboardCopyFallback process text t))).
    { unfold nodeClipboardCopy. rewrite Hnode, (write_command_other _ Hw Hd), Hspawn.
      cbn [negb].
      destruct (copy_fold process "xclip" text evs
                  (mkListeners false "" Pending
                     [Spawn "xclip" ["-selection"; "clipboard"]; StdinWrite text; StdinEnd])
                  (t, OnError m) eq_refl Hdec) as (Hr & Hl).
      rewrite Hr, Hl. cbn. rewrite Hfb.
      destruct (nodeClipboardCopyFallback process text t) as [l p]. reflexivity. }
    split; [exact Hcopy|]. split; [|split].
    + unfold nodeClipboardCopyFallback.
      destruct (spawn process "xsel" _ t) as [m'|m'|[m'|] evs2]; cbn [fst];
        try rewrite fallback_copy_log; cbn [log]; eauto.
    + intros sin evs2 Hsp. unfold nodeClipboardCopyFallback. rewrite Hsp.
      cbn [fst]. rewrite fallback_copy_log. destruct sin; cbn [log]; eauto.
    + intros evs2 t2 m2 Hsp Hdec2. rewrite Hcopy. cbn [snd].
      unfold nodeClipboardCopyFallback. rewrite Hsp. cbn [snd].
      destruct (fallback_copy_fold text evs2
                  (mkListeners false "" Pending
                     [Spawn "xsel" ["--clipboard"; "--input"]; StdinWrite text; StdinEnd])
                  (t2, OnError m2) eq_refl Hdec2) as (Hr & _).
      rewrite Hr. cbn.
      eexists. split; [reflexivity|]. split; [reflexivity|]. split.
      * exists "No clipboard command available. Install ", (" or xsel. " ++ m2).
        reflexivity.
      * exists "No clipboard command available. Install xclip or ", (". " ++ m2).
        reflexivity.
  - intros Hwm. destruct (write_command_win_mac _ Hwm) as (Hfb & Hcmd).
    unfold nodeClipboardCopy. rewrite Hnode. cbn [negb].
    destruct (write_command (platform process)) as [cmd args] eqn:Hwc.
    cbn [fst snd] in *.
    assert (args = []) by (destruct Hcmd as [H|H]; now inversion H). subst args.
    rewrite Hspawn.
    destruct (copy_fold process cmd text evs
                (mkListeners false "" Pending [Spawn cmd []; StdinWrite text; StdinEnd])
                (t, OnError m) eq_refl Hdec) as (Hr & Hl).
    rewrite Hr, Hl. cbn. rewrite Hfb. reflexivity.
Qed.

Lemma spawn_failure_fallback_witness :
  nodeClipboardCopy node_host linux_without_xclip "hello" 0
    = ([Spawn "xclip" ["-selection"; "clipboard"]; StdinWrite "hello"; StdinEnd;
        Spawn "xsel" ["--clipboard"; "--input"]; StdinWrite "hello"; StdinEnd],
       Settled 4 (Resolved "hello")) /\
  snd (nodeClipboardCopy node_host linux_without_utilities "hello" 0)
    = Settled 2 (Rejected (Error
        "No clipboard command available. Install xclip or xsel. spawn xsel ENOENT")) /\
  nodeClipboardCopy node_host windows_without_commands "hello" 0
    = ([Spawn "clip" []; StdinWrite "hello"; StdinEnd],
       Settled 1 (Rejected (Error "Clipboard command failed: clip - spawn clip ENOENT"))).
Proof.
  split; [|split].
  - apply (proj1 (spawn_failure_fallback node_host linux_without_xclip "hello" 0
                    _ 1 "spawn xclip ENOENT" eq_refl eq_refl eq_refl));
      discriminate.
  - destruct (proj1 (spawn_failure_fallback node_host linux_without_utilities "hello" 0
                       _ 1 "spawn xclip ENOENT" eq_refl eq_refl eq_refl))
      as (_ & _ & _ & Hboth); [discriminate | discriminate |].
    destruct (Hboth _ 2 "spawn xsel ENOENT" eq_refl eq_refl) as (msg & Hres & Hmsg & _).
    rewrite Hres, Hmsg. reflexivity.
  - apply (proj2 (spawn_failure_fallback node_host windows_without_commands "hello" 0
                    _ 1 "spawn clip ENOENT" eq_refl eq_refl eq_refl)).
    left. reflexivity.
Defined.

Lemma write_follows_exit_code_witness :
  snd (nodeClipboardCopy node_host (linux_exits 0) "hello" 0)
    = Settled 5 (Resolved "hello") /\
  snd (nodeClipboardCopy node_host (linux_exits 1) "hello" 0)
    = Settled 5 (Rejected (Error "Clipboard command exited with code: 1")) /\
  resolution_of (snd (nodeClipboardCopy node_host (linux_exits 1) "hello" 0)) = None.
Proof.
  split; [|split].
  - apply (proj1 (write_follows_exit_code node_host (linux_exits 0) "hello" 0
                    _ 5 (ExitCode 0) eq_refl eq_refl eq_refl)).
  - apply (proj1 (write_follows_exit_code node_host (linux_exits 1) "hello" 0
                    _ 5 (ExitCode 1) eq_refl eq_refl eq_refl)).
  - apply (proj2 (write_follows_exit_code node_host (linux_exits 1) "hello" 0
                    _ 5 (ExitCode 1) eq_refl eq_refl eq_refl)).
    discriminate.
Defined.

(** *** The trailing line terminator *)

Lemma replace_unfold : forall s,
  replace_trailing_newline s
    = if ((s =? CRLF) || (s =? LF))%string then ""
      else match s with
           | EmptyString => ""
           | String c s' => String c (replace_trailing_newline s')
           end.
Proof. destruct s; reflexivity. Qed.

Lemma length_append : forall a b : string,
  String.length (a ++ b) = (String.length a + String.length b)%nat.
Proof. induction a as [|c a IH]; intros b; cbn; [reflexivity | now rewrite IH]. Qed.

Lemma not_terminator : forall (c : ascii) (s : string),
  (2 <= String.length s)%nat ->
  ((String c s =? CRLF) || (String c s =? LF))%string = false.
Proof.
  intros c s Hlen. apply orb_false_intro; apply String.eqb_neq; intros H;
    apply (f_equal String.length) in H; cbn in H; lia.
Qed.

Lemma replace_crlf : forall body, replace_trailing_newline (body ++ CRLF) = body.
Proof.
  induction body as [|c body IH]; [reflexivity|].
  cbn [append]. rewrite replace_unfold, not_terminator, IH; [reflexivity|].
  rewrite length_append. cbn. lia.
Qed.

Lemma replace_lf : forall body,
  (forall b, body <> b ++ CR) -> replace_trailing_newline (body ++ LF) = body.
Proof.
  induction body as [|c body IH]; intros Hcr; [reflexivity|].
  cbn [append]. rewrite replace_unfold.
  destruct body as [|c' body].
  - cbn [append].
    destruct (Ascii.eqb_spec c (ascii_of_nat 13)) as [->|Hc].
    + exfalso. apply (Hcr ""). reflexivity.
    + replace ((String c LF =? CRLF) || (String c LF =? LF))%string with false.
      * reflexivity.
      * symmetry. apply orb_false_intro; apply String.eqb_neq; intros H.
        -- inversion H. contradiction.
        -- discriminate.
  - rewrite not_terminator by (cbn; rewrite length_append; cbn; lia).
    rewrite IH; [reflexivity|].
    intros b Hb. apply (Hcr (String c b)). cbn. now rewrite Hb.
Qed.

Lemma replace_nothing : forall s,
  (forall body, s <> body ++ LF) -> replace_trailing_newline s = s.
Proof.
  induction s as [|c s IH]; intros Hlf; [reflexivity|].
  rewrite replace_unfold.
  destruct (String.eqb_spec (String c s) CRLF) as [E|_].
  { exfalso. apply (Hlf CR). exact E. }
  destruct (String.eqb_spec (String c s) LF) as [E|_].
  { exfalso. apply (Hlf ""). exact E. }
  cbn [orb]. rewrite IH; [reflexivity|].
  intros body Hb. apply (Hlf (String c body)). cbn. now rewrite Hb.
Qed.

(** C7.  A read whose process closes with code 0 resolves with the output
    accumulated so far: on Windows with one trailing line terminator (a line
    feed, or a carriage return and a line feed) removed when the output ends
    with one, on every other platform unchanged. *)
Theorem read_strips_one_terminator :
  forall (host : Host) (process : NodeProcess) (now : Z) sin evs (t : Z),
    _isNode host = true ->
    spawn process (fst (read_command (platform process)))
      (snd (read_command (platform process))) now = Started sin evs ->
    decisive evs = Some (t, OnClose (ExitCode 0)) ->
    (platform process = "win32" ->
     snd (nodeClipboardRead host process now)
       = Settled t (Resolved (replace_trailing_newline (stdout_before evs))) /\
     (forall body, stdout_before evs = body ++ CRLF ->
        replace_trailing_newline (stdout_before evs) = body) /\
     (forall body, stdout_before evs = body ++ LF -> (forall b, body <> b ++ CR) ->
        replace_trailing_newline (stdout_before evs) = body) /\
     ((forall body, stdout_before evs <> body ++ LF) ->
        replace_trailing_newline (stdout_before evs) = stdout_before evs)) /\
    (platform process <> "win32" ->
     snd (nodeClipboardRead host process now) = Settled t (Resolved (stdout_before evs))).
Proof.
  intros host process now sin evs t Hnode Hspawn Hdec.
  assert (Hres : snd (nodeClipboardRead host process now)
            = Settled t (Resolved
                (if (platform process =? "win32")%string
                 then replace_trailing_newline (stdout_before evs)
                 else stdout_before evs))).
  { unfold nodeClipboardRead. rewrite Hnode. cbn [negb].
    destruct (read_command (platform process)) as [cmd args]. cbn [fst snd] in Hspawn.
    rewrite Hspawn. cbn [snd].
    rewrite (read_fold process cmd evs (mkListeners false "" Pending [Spawn cmd args])
               (t, OnClose (ExitCode 0)) eq_refl Hdec).
    reflexivity. }
  split.
  - intros Hwin. rewrite Hres, Hwin. cbn [String.eqb]. split; [reflexivity|].
    split; [|split].
    + intros body ->. apply replace_crlf.
    + intros body -> Hcr. now apply replace_lf.
    + apply replace_nothing.
  - intros Hother. rewrite Hres.
    destruct (String.eqb_spec (platform process) "win32"); [contradiction|reflexivity].
Qed.

Lemma read_strips_one_terminator_witness :
  snd (nodeClipboardRead node_host windows_prints 0)
    = Settled 4 (Resolved ("hello" ++ LF)) /\
  snd (nodeClipboardRead node_host mac_prints 0)
    = Settled 4 (Resolved ("hello" ++ LF ++ CRLF)).
Proof.
  split.
  - destruct (proj1 (read_strips_one_terminator node_host windows_prints 0
                       None printed 4 eq_refl eq_refl eq_refl) eq_refl)
      as (Hres & Hcrlf & _).
    rewrite Hres. rewrite (Hcrlf ("hello" ++ LF) eq_refl). reflexivity.
  - apply (proj2 (read_strips_one_terminator node_host mac_prints 0
                    None printed 4 eq_refl eq_refl eq_refl)).
    discriminate.
Defined.

End OSAdapterFacts.

(* ================================================================== *)
(** * Properties of the write chain, the permission query and the parser *)

Module WriteChainFacts.
Import Controller WriteChain Scenarios.

(** What one run of the chain does, [api] being what the detection found. *)
Lemma copyChain_order :
  forall (host : Host) (text : string) api g container t0,
      (forall writeText, api = Some writeText ->
         (exists rest, fst (copyChain api host g text container t0) = WriteText text :: rest) /\
         (forall t u, writeText text t0 = Settled t (Resolved u) ->
            copyChain api host g text container t0
              = ([WriteText text], Settled t (Resolved text))) /\
         (forall t e, writeText text t0 = Settled t (Rejected e) ->
            _isBrowser host = true ->
            copyChain api host g text container t0
              = (WriteText text :: fst (legacyCopy g text container t),
                 snd (legacyCopy g text container t))) /\
         (forall t e, writeText text t0 = Settled t (Rejected e) ->
            _isBrowser host = false ->
            copyChain api host g text container t0
              = ([WriteText text],
                 Settled t (Rejected (Error "Clipboard API failed and no fallback available"))))) /\
      (api = None -> _isBrowser host = true ->
         copyChain api host g text container t0 = legacyCopy g text container t0) /\
      (api = None -> _isBrowser host = false -> _isNode host = true ->
         copyChain api host g text container t0
           = OSAdapter.nodeClipboardCopy host (process g) text t0) /\
      (api = None -> _isBrowser host = false -> _isNode host = false ->
         copyChain api host g text container t0
           = ([], Settled t0 (Rejected (Error "No clipboard method available in this environment")))).
Proof.
  intros host text api g container t0. split; [|split; [|split]].
  - intros writeText ->. unfold copyChain, catch, modernCopy. cbn [fst snd].
    split; [|split; [|split]].
    + destruct (writeText text t0) as [|t [u|e]]; cbn [fst]; eauto.
      destruct (_isBrowser host); cbn; eauto.
    + intros t u ->. reflexivity.
    + intros t e -> ->. reflexivity.
    + intros t e -> ->. reflexivity.
  - intros -> Hb. unfold copyChain. now rewrite Hb.
  - intros -> Hb Hn. unfold copyChain. now rewrite Hb, Hn.
  - intros -> Hb Hn. unfold copyChain. now rewrite Hb, Hn.
Qed.

(** C1, as amended.  [copyText] is the retry controller run over the chain:
    its first attempt is made at once, every attempt it makes is one run of
    the chain, and the promise it returns is the promise of its last attempt
    put under the deadline of the options: the outcome of that attempt, or
    the timeout error when the deadline timer fires first.  Each run of the
    chain tries the mechanisms in a fixed order.  (1) When the asynchronous
    write API is detected it is called first; if it resolves the chain
    resolves with the text; if it rejects, the legacy command is run, after
    the rejection and at the instant it was observed, provided a document
    exists, and otherwise the chain fails with the no-fallback error.
    (2) Without that API and with a document, the legacy command is run.
    (3) Without either, in a Node process, the OS process adapter is used.
    (4) Otherwise the chain fails with the no-method error; [copyText] then
    makes [retries + 1] attempts and rejects with that error, provided the
    deadline timer is off or fires after the last attempt.  In [copyText]
    the API is detected only where a document exists, so that the
    no-fallback error of (1) is not reached through it. *)
Theorem copyText_order :
  forall (host : Host) (world : nat -> Globals) (text : string)
         (options : options) (now : Z),
    copyText host world text options now
      = retryOperation (timers host)
          (fun i t => copyChain (clipboardAPI host (world i)) host (world i) text
                        (container_for host (or_empty_object options)) t)
          (or_empty_object options) now /\
    (exists pre i t0,
       copyText host world text options now
         = Some ((pre ++ [Invoked i t0
                            (fst (copyChain (clipboardAPI host (world i)) host (world i) text
                                    (container_for host (or_empty_object options)) t0))])%list,
                 withTimeout (timers host) now
                   (snd (copyChain (clipboardAPI host (world i)) host (world i) text
                           (container_for host (or_empty_object options)) t0))
                   (timeout (parseRetryConfig (or_empty_object options)))) /\
       (exists rest,
          (pre ++ [Invoked i t0
                     (fst (copyChain (clipboardAPI host (world i)) host (world i) text
                             (container_for host (or_empty_object options)) t0))])%list
          = Invoked 0 now
              (fst (copyChain (clipboardAPI host (world 0%nat)) host (world 0%nat) text
                      (container_for host (or_empty_object options)) now)) :: rest) /\
       Forall (fun s => match s with
                        | Invoked j t l =>
                            l = fst (copyChain (clipboardAPI host (world j)) host
                                       (world j) text
                                       (container_for host (or_empty_object options)) t)
                        | Waited _ => True
                        end) pre) /\
    (forall api g container t0,
      (forall writeText, api = Some writeText ->
         (exists rest, fst (copyChain api host g text container t0) = WriteText text :: rest) /\
         (forall t u, writeText text t0 = Settled t (Resolved u) ->
            copyChain api host g text container t0
              = ([WriteText text], Settled t (Resolved text))) /\
         (forall t e, writeText text t0 = Settled t (Rejected e) ->
            _isBrowser host = true ->
            copyChain api host g text container t0
              = (WriteText text :: fst (legacyCopy g text container t),
                 snd (legacyCopy g text container t))) /\
         (forall t e, writeText text t0 = Settled t (Rejected e) ->
            _isBrowser host = false ->
            copyChain api host g text container t0
              = ([WriteText text],
                 Settled t (Rejected (Error "Clipboard API failed and no fallback available"))))) /\
      (api = None -> _isBrowser host = true ->
         copyChain api host g text container t0 = legacyCopy g text container t0) /\
      (api = None -> _isBrowser host = false -> _isNode host = true ->
         copyChain api host g text container t0
           = OSAdapter.nodeClipboardCopy host (process g) text t0) /\
      (api = None -> _isBrowser host = false -> _isNode host = false ->
         copyChain api host g text container t0
           = ([], Settled t0 (Rejected (Error "No clipboard method available in this environment"))))) /\
    (_isBrowser host = false -> _isNode host = false ->
     exists tr t,
       copyText host world text options now
         = Some (tr, withTimeout (timers host) now
                       (Settled t (Rejected (Error "No clipboard method available in this environment")))
                       (timeout (parseRetryConfig (or_empty_object options)))) /\
       invocations tr
         = S (Z.to_nat (retries (parseRetryConfig (or_empty_object options)))) /\
       (timeout (parseRetryConfig (or_empty_object options)) <= 0 \/
        t < fires (timers host) now (timeout (parseRetryConfig (or_empty_object options))) ->
        copyText host world text options now
          = Some (tr, Settled t
                        (Rejected (Error "No clipboard method available in this environment"))))) /\
    (forall i, clipboardAPI host (world i) <> None -> _isBrowser host = true).
Proof.
  intros host world text options now.
  set (fn := fun (i : nat) (t : Z) =>
               copyChain (clipboardAPI host (world i)) host (world i) text
                 (container_for host (or_empty_object options)) t).
  assert (Hdef : copyText host world text options now
                 = retryOperation (timers host) fn (or_empty_object options) now)
    by reflexivity.
  split; [exact Hdef|]. split; [|split; [|split]].
  4:{ intros i. unfold clipboardAPI. destruct (_isBrowser host); congruence. }
  - rewrite Hdef. unfold retryOperation.
    destruct (ControllerFacts.retrySequence_total (timers host) fn
                (parseRetryConfig (or_empty_object options)) now) as (tr & p & Hseq).
    rewrite Hseq. unfold retrySequence in Hseq.
    destruct (ControllerFacts.tryOnce_provenance _ fn _ _ _ _ _ _ _ Hseq)
      as (pre & i & t0 & Htr & _ & Hp).
    exists pre, i, t0. fold (fn i t0). rewrite <- Htr, Hp.
    split; [reflexivity|]. split.
    + exact (ControllerFacts.tryOnce_first_call _ fn _ _ _ _ _ _ _ Hseq).
    + pose proof (ControllerFacts.tryOnce_invokes_fn _ fn _ _ _ _ _ _ _ Hseq) as Hall.
      rewrite Htr in Hall. apply Forall_app in Hall. exact (proj1 Hall).
  - intros api g container t0. apply copyChain_order.
  - intros Hb Hn. rewrite Hdef.
    set (E := Error "No clipboard method available in this environment").
    assert (Hfail : forall i t, exists l t', fn i t = (l, Settled t' (Rejected E))).
    { intros i t. exists [], t. unfold fn, clipboardAPI, copyChain.
      rewrite Hb, Hn. reflexivity. }
    destruct (ControllerFacts.tryOnce_exhausts (timers host) fn
                (parseRetryConfig (or_empty_object options)) (fun _ => E) Hfail
                (S (Z.to_nat (retries (parseRetryConfig (or_empty_object options)))))
                0 0%nat now) as (tr & t & Hrun & Hinv); [lia|].
    cbn zeta in Hrun, Hinv. rewrite Z.sub_0_r in Hinv.
    exists tr, t.
    assert (Hop : retryOperation (timers host) fn (or_empty_object options) now
                  = Some (tr, withTimeout (timers host) now (Settled t (Rejected E))
                                (timeout (parseRetryConfig (or_empty_object options))))).
    { unfold retryOperation, retrySequence. now rewrite Hrun. }
    split; [exact Hop|]. split; [exact Hinv|].
    intros [Hoff|Hearly]; rewrite Hop.
    + now rewrite ControllerFacts.withTimeout_disabled.
    + now rewrite ControllerFacts.withTimeout_in_time.
Qed.

Lemma copyText_order_witness :
  copyChain (writeText refusing_page) browser_host refusing_page "hello" None 0
    = ([WriteText "hello"; AppendOffscreen body "hello"; SelectOffscreen;
        ExecCommand "copy"; RemoveOffscreen; ClearSelection],
       Settled 7 (Resolved "hello")) /\
  copyChain (writeText refusing_page) node_host refusing_page "hello" None 0
    = ([WriteText "hello"],
       Settled 7 (Rejected (Error "Clipboard API failed and no fallback available"))) /\
  copyChain None browser_host plain_page "hello" None 0
    = legacyCopy plain_page "hello" None 0 /\
  copyChain None node_host linux_globals "hello" None 0
    = ([Spawn "xclip" ["-selection"; "clipboard"]; StdinWrite "hello"; StdinEnd],
       Settled 5 (Resolved "hello")) /\
  copyChain None bare_host plain_page "hello" None 0
    = ([], Settled 0 (Rejected (Error "No clipboard method available in this environment"))) /\
  (exists tr t,
     copyText bare_host (fun _ => plain_page) "hello" OptAbsent 0
       = Some (tr, Settled t
                     (Rejected (Error "No clipboard method available in this environment"))) /\
     invocations tr = 3%nat).
Proof.
  pose proof (copyText_order browser_host (fun _ => refusing_page) "hello" OptAbsent 0)
    as (_ & _ & Hbrowser & _).
  pose proof (copyText_order node_host (fun _ => refusing_page) "hello" OptAbsent 0)
    as (_ & _ & Hnode & _).
  pose proof (copyText_order bare_host (fun _ => plain_page) "hello" OptAbsent 0)
    as (_ & _ & Hbare & Hnone & _).
  split; [|split; [|split; [|split; [|split]]]].
  - destruct (Hbrowser (writeText refusing_page) refusing_page None 0) as (Hapi & _).
    destruct (Hapi _ eq_refl) as (_ & _ & Hlegacy & _).
    apply (Hlegacy 7 (DOMException "NotAllowedError" "Write permission denied."));
      reflexivity.
  - destruct (Hnode (writeText refusing_page) refusing_page None 0) as (Hapi & _).
    destruct (Hapi _ eq_refl) as (_ & _ & _ & Hno).
    apply (Hno 7 (DOMException "NotAllowedError" "Write permission denied."));
      reflexivity.
  - apply (Hbrowser None plain_page None 0); reflexivity.
  - apply (Hnode None linux_globals None 0); reflexivity.
  - apply (Hbare None plain_page None 0); reflexivity.
  - destruct (Hnone eq_refl eq_refl) as (tr & t & _ & Hinv & Hout).
    exists tr, t. split; [|exact Hinv].
    apply Hout. left. discriminate.
Defined.

(** C1, as stated, fails when a deadline is set: where no mechanism exists,
    with the default two retries and a deadline of 50 ms, [copyText] makes its
    three attempts, each failing with the no-method error, but rejects with
    the timeout error. *)
Lemma copyText_timeout_replaces_chain_error :
  _isBrowser bare_host = false /\
  _isNode bare_host = false /\
  copyText bare_host (fun _ => plain_page) "hello"
    (OptObject None None None (Some 50)) 0
    = Some ([Invoked 0 0 []; Waited 100; Invoked 1 100 []; Waited 200; Invoked 2 300 []],
            Settled 50 (Rejected (Error "Operation timed out after 50ms"))) /\
  Error "Operation timed out after 50ms"
    <> Error "No clipboard method available in this environment".
Proof.
  split; [reflexivity|]. split; [reflexivity|].
  split; [vm_compute; reflexivity|]. discriminate.
Qed.

(** In the library itself the API is only ever detected where a document
    exists, so the no-fallback failure of step (1) cannot be reached through
    [copyText]. *)
Lemma detected_only_in_browser : forall host g,
  isClipboardAPIAvailable host g = true -> _isBrowser host = true.
Proof.
  intros host g. unfold isClipboardAPIAvailable, clipboardAPI.
  destruct (_isBrowser host); [reflexivity | discriminate].
Qed.

(** With a working API and no retries, [copyText] writes once and resolves
    with the text. *)
Example copyText_single_write :
  copyText browser_host (fun _ => granting_page) "hello"
    (OptObject None (Some 0) None None) 0
    = Some ([Invoked 0 0 [WriteText "hello"]], Settled 7 (Resolved "hello")).
Proof. reflexivity. Qed.

(** Where nothing is available every attempt of the default configuration
    fails at once, and the last failure is handed on after the two waits. *)
Example copyText_no_method :
  copyText bare_host (fun _ => plain_page) "hello" OptAbsent 0
    = Some ([Invoked 0 0 []; Waited 100; Invoked 1 100 []; Waited 200; Invoked 2 300 []],
            Settled 300
              (Rejected (Error "No clipboard method available in this environment"))).
Proof. reflexivity. Qed.

(** The number [0] passed as options is taken for no options at all: the
    default two retries apply. *)
Example copyText_zero_is_default :
  copyText bare_host (fun _ => plain_page) "hello" (OptNumber 0) 0
    = copyText bare_host (fun _ => plain_page) "hello" OptAbsent 0.
Proof. reflexivity. Qed.

(** C9.  Given anything but a string, [copy] rejects with a [TypeError]
    straight away: the chain is not run, no mechanism is touched. *)
Theorem copy_rejects_non_string :
  forall (host : Host) (world : nat -> Globals) (v : js_value)
         (options : options) (now : Z),
    _isString v = false ->
    copy host world v options now
      = Some ([], Settled now
                    (Rejected (TypeError "NowClipboard.copy() expects a string argument"))).
Proof.
  intros host world v options now Hv. unfold copy. now rewrite Hv.
Qed.

Lemma copy_rejects_non_string_witness :
  copy browser_host (fun _ => plain_page) (JNumber 42) OptAbsent 0
    = Some ([], Settled 0
                  (Rejected (TypeError "NowClipboard.copy() expects a string argument"))).
Proof.
  apply (copy_rejects_non_string browser_host (fun _ => plain_page) (JNumber 42) OptAbsent 0).
  reflexivity.
Defined.

(** C8, as amended.  For [kind] either [read] or [write]: in a Node process,
    with or without a document, the answer is [granted]; in a document
    outside Node, when the permission subsystem is absent, or its query throws
    or rejects, the answer is [prompt]; the promise never rejects. *)
Theorem queryPermission_states :
  forall (host : Host) (g : Globals) (kind : string) (now : Z),
    kind = "read" \/ kind = "write" ->
    (_isNode host = true ->
     queryPermission host g kind now = ([], Settled now (Resolved (mkStatus "granted")))) /\
    (_isNode host = false -> _isBrowser host = true ->
     (permissions_query g = None ->
      queryPermission host g kind now = ([], Settled now (Resolved (mkStatus "prompt")))) /\
     (forall query, permissions_query g = Some query ->
        (query ("clipboard-" ++ kind) now = QueryThrows ->
         snd (queryPermission host g kind now) = Settled now (Resolved (mkStatus "prompt"))) /\
        (forall t e, query ("clipboard-" ++ kind) now = QueryReturns (Settled t (Rejected e)) ->
         snd (queryPermission host g kind now) = Settled t (Resolved (mkStatus "prompt"))))) /\
    rejection_of (snd (queryPermission host g kind now)) = None.
Proof.
  intros host g kind now Hkind.
  assert (Hvalid : (negb (kind =? "read") && negb (kind =? "write"))%string = false)
    by (destruct Hkind as [-> | ->]; reflexivity).
  unfold queryPermission. rewrite Hvalid. split; [|split].
  - intros ->. reflexivity.
  - intros -> Hb. unfold queryClipboardPermission. rewrite Hb. split.
    + intros ->. reflexivity.
    + intros query ->. cbn [snd]. split.
      * intros ->. reflexivity.
      * intros t e ->. reflexivity.
  - destruct (_isNode host); [reflexivity|].
    unfold queryClipboardPermission.
    destruct (_isBrowser host); [|reflexivity].
    destruct (permissions_query g) as [query|]; [|reflexivity]. cbn [snd].
    destruct (query _ now) as [|[|t [[s|]|e]]]; reflexivity.
Qed.

Lemma queryPermission_states_witness :
  queryPermission node_host plain_page "read" 0
    = ([], Settled 0 (Resolved (mkStatus "granted"))) /\
  queryPermission browser_host plain_page "read" 0
    = ([], Settled 0 (Resolved (mkStatus "prompt"))) /\
  snd (queryPermission browser_host refusing_page "write" 0)
    = Settled 3 (Resolved (mkStatus "prompt")).
Proof.
  split; [|split].
  - apply (proj1 (queryPermission_states node_host plain_page "read" 0 (or_introl eq_refl))).
    reflexivity.
  - apply (proj1 (proj2 (queryPermission_states browser_host plain_page "read" 0
                           (or_introl eq_refl)))); reflexivity.
  - destruct (proj1 (proj2 (queryPermission_states browser_host refusing_page "write" 0
                              (or_intror eq_refl))) eq_refl eq_refl) as (_ & Hq).
    destruct (Hq _ eq_refl) as (_ & Hrej).
    apply (Hrej 3 (TypeError "unknown permission name")). reflexivity.
Defined.

(** C8, as stated, fails where a document and Node are both present: with no
    permission subsystem the answer is [granted], not [prompt]. *)
Lemma queryPermission_granted_in_document :
  _isBrowser electron_host = true /\
  permissions_query plain_page = None /\
  queryPermission electron_host plain_page "read" 0
    = ([], Settled 0 (Resolved (mkStatus "granted"))) /\
  mkStatus "granted" <> mkStatus "prompt".
Proof.
  split; [reflexivity|]. split; [reflexivity|]. split; [reflexivity|]. discriminate.
Qed.

End WriteChainFacts.

Module PasteFacts.
Import WriteChain Paste Scenarios.

(** C10, as amended.  [parsePasteData] never throws, whatever it is given
    (nothing, a value without the accessors, an object whose accessors
    throw), and returns a record whose [files] is an array, the one read or
    the empty one, and whose [text] and [html] are what [getData] returned
    when that is truthy and the empty string otherwise; so [text] and [html]
    are strings whenever [getData] returns nothing but strings. *)
Theorem parsePasteData_total :
  forall clipboardData : clipboardData_arg,
    exists r : PasteData,
      parsePasteData clipboardData = Returns r /\
      text r = match properties_of clipboardData with
               | Some dt =>
                   match getData dt "text/plain" with
                   | Returns v => if falsy v then JString "" else v
                   | Throws => JString ""
                   end
               | None => JString ""
               end /\
      html r = match properties_of clipboardData with
               | Some dt =>
                   match getData dt "text/html" with
                   | Returns v => if falsy v then JString "" else v
                   | Throws => JString ""
                   end
               | None => JString ""
               end /\
      files r = match properties_of clipboardData with
                | Some dt => match files_of dt with Returns (Some l) => l | _ => [] end
                | None => []
                end /\
      ((forall dt format v,
          properties_of clipboardData = Some dt ->
          getData dt format = Returns v -> exists s, v = JString s) ->
       (exists s, text r = JString s) /\ (exists s, html r = JString s)).
Proof.
  intros clipboardData. unfold parsePasteData.
  destruct (properties_of clipboardData) as [dt|].
  2:{ eexists. split; [reflexivity|]. cbn. repeat split; eauto. }
  eexists. split; [reflexivity|]. cbn [text html files].
  split; [|split; [|split]].
  - destruct (getData dt "text/plain") as [|v]; reflexivity.
  - destruct (getData dt "text/html") as [|v]; reflexivity.
  - destruct (files_of dt) as [|[[|f l]|]]; reflexivity.
  - intros Hstrings.
    assert (Hfield : forall format,
              exists s, try_assign (JString "")
                          (bind (getData dt format) (fun v => Returns (or_empty v)))
                        = JString s).
    { intros format. destruct (getData dt format) as [|v] eqn:Hg; cbn; [eauto|].
      destruct (Hstrings dt format v eq_refl Hg) as (s & ->).
      unfold or_empty. destruct (falsy (JString s)); eauto. }
    split; apply Hfield.
Qed.

Lemma parsePasteData_total_witness :
  exists r : PasteData,
    parsePasteData (CDObject plain_clipboard) = Returns r /\
    text r = JString "hi" /\
    (exists s, html r = JString s) /\
    files r = [].
Proof.
  destruct (parsePasteData_total (CDObject plain_clipboard))
    as (r & Hr & Ht & _ & Hf & Hs).
  exists r. split; [exact Hr|]. split; [exact Ht|]. split; [|exact Hf].
  apply Hs. intros dt format v Hdt Hg. inversion Hdt; subst dt. cbn in Hg.
  destruct (format =? "text/plain")%string; inversion Hg. eauto.
Defined.

(** C10, as stated, fails for a [getData] that returns something truthy
    that is no string: the number 42 comes back as [text] and as [html]. *)
Lemma parsePasteData_number_as_text :
  parsePasteData (CDObject numeric_clipboard)
    = Returns (mkPaste (JNumber 42) (JNumber 42) []) /\
  _isString (JNumber 42) = false /\
  (forall s, JNumber 42 <> JString s).
Proof.
  split; [reflexivity|]. split; [reflexivity|]. discriminate.
Qed.

(** Nothing, a primitive or an object without the accessors gives the
    default record. *)
Example parsePasteData_defaults : forall v,
  parsePasteData (CDValue v) = Returns (mkPaste (JString "") (JString "") []).
Proof. intros v. unfold parsePasteData. cbn. destruct (falsy v); reflexivity. Qed.

End PasteFacts.

(* ================================================================== *)
(** * Further properties of the controller *)

Module ControllerMore.
Import Controller Scenarios MoreScenarios ControllerFacts.

Section Bounds.
Context {L T : Type}.
Variable tm : Timers.
Variable fn : nat -> Z -> list L * promise T.
Variable cfg : RetryConfig.

Lemma tryOnce_call_bound : forall fuel attempt calls now tr p,
  tryOnce tm fn cfg fuel attempt calls now = Some (tr, p) ->
  (1 <= invocations tr <= S (Z.to_nat (retries cfg - attempt)))%nat.
Proof.
  induction fuel as [|fuel IH]; intros attempt calls now tr p Hrun; [discriminate|].
  cbn [tryOnce] in Hrun.
  destruct (fn calls now) as [l [|t [v|err]]];
    try (inversion Hrun; subst; unfold invocations; cbn; lia).
  destruct (attempt + 1 >? retries cfg) eqn:Hgt;
    [inversion Hrun; subst; unfold invocations; cbn; lia|].
  rewrite Z.gtb_ltb in Hgt; apply Z.ltb_ge in Hgt.
  destruct (tryOnce tm fn cfg fuel (attempt + 1) (S calls) _) as [[tr' q]|] eqn:Hrec;
    [|discriminate].
  inversion Hrun; subst. apply IH in Hrec.
  unfold invocations in *. cbn. lia.
Qed.

(** Calls [calls .. calls + k - 1] reject, call [calls + k] resolves. *)
Lemma tryOnce_first_success : forall (v : T) k fuel attempt calls now,
  (forall j t, (calls <= j < calls + k)%nat ->
     exists l t' e, fn j t = (l, Settled t' (Rejected e))) ->
  (forall t, exists l t', fn (calls + k)%nat t = (l, Settled t' (Resolved v))) ->
  attempt + Z.of_nat k <= retries cfg ->
  (k < fuel)%nat ->
  exists tr t,
    tryOnce tm fn cfg fuel attempt calls now = Some (tr, Settled t (Resolved v)) /\
    invocations tr = S k /\ List.length (delays tr) = k.
Proof.
  intros v. induction k as [|k IH]; intros fuel attempt calls now Hrej Hres Hle Hfuel;
    (destruct fuel as [|fuel]; [lia|]); cbn [tryOnce].
  - destruct (Hres now) as (l & t' & Hfn). rewrite Nat.add_0_r in Hfn. rewrite Hfn.
    do 2 eexists. repeat split.
  - destruct (Hrej calls now) as (l & t' & e & Hfn); [lia|]. rewrite Hfn.
    destruct (attempt + 1 >? retries cfg) eqn:Hgt.
    { rewrite Z.gtb_ltb in Hgt; apply Z.ltb_lt in Hgt. lia. }
    destruct (IH fuel (attempt + 1) (S calls)
                (fires tm t' (2 ^ (attempt + 1 - 1) * retryDelay cfg)))
      as (tr & t & Heq & Hinv & Hlen).
    + intros j u Hj. apply Hrej. lia.
    + intros u. replace (S calls + k)%nat with (calls + S k)%nat by lia. apply Hres.
    + lia.
    + lia.
    + rewrite Heq. do 2 eexists. split; [reflexivity|].
      unfold invocations in *. cbn. rewrite Hinv, Hlen. auto.
Qed.

(** An operation that fails the instant it is called, on a host whose timers
    honour the delays of the backoff to the millisecond: the sequence ends
    once all the waits have elapsed. *)
Lemma tryOnce_instant_failures : forall (err : nat -> js_error),
  (forall i t, exists l, fn i t = (l, Settled t (Rejected (err i)))) ->
  (forall t k, 0 <= k < retries cfg ->
     fires tm t (2 ^ k * retryDelay cfg) = t + 2 ^ k * retryDelay cfg) ->
  forall fuel attempt calls now,
  0 <= attempt <= retries cfg ->
  (Z.to_nat (retries cfg - attempt) < fuel)%nat ->
  exists tr e,
    tryOnce tm fn cfg fuel attempt calls now
      = Some (tr, Settled (now + retryDelay cfg * (2 ^ retries cfg - 2 ^ attempt))
                    (Rejected e)).
Proof.
  intros err Hfail Hexact.
  induction fuel as [|fuel IH]; intros attempt calls now Hatt Hfuel; [lia|].
  cbn [tryOnce]. destruct (Hfail calls now) as (l & Hfn). rewrite Hfn.
  destruct (attempt + 1 >? retries cfg) eqn:Hgt.
  - rewrite Z.gtb_ltb in Hgt; apply Z.ltb_lt in Hgt.
    assert (attempt = retries cfg) as -> by lia.
    do 2 eexists. unfold rejectedPromise. do 3 f_equal. lia.
  - rewrite Z.gtb_ltb in Hgt; apply Z.ltb_ge in Hgt.
    rewrite Hexact by lia.
    destruct (IH (attempt + 1) (S calls) (now + 2 ^ (attempt + 1 - 1) * retryDelay cfg))
      as (tr & e & Heq); [lia | lia |].
    rewrite Heq. do 2 eexists. do 3 f_equal.
    replace (attempt + 1 - 1) with attempt by lia.
    rewrite Z.pow_add_r by lia. change (2 ^ 1) with 2. lia.
Qed.
End Bounds.

(** X1.  [retryOperation] always returns, having called the operation at
    least once and at most [retries + 1] times (once when [retries] is not
    positive), whatever the operation does. *)
Theorem retry_call_bound {L T} :
  forall (tm : Timers) (fn : nat -> Z -> list L * promise T) (config : options)
         (now : Z),
    exists tr p,
      retryOperation tm fn config now = Some (tr, p) /\
      (1 <= invocations tr <= S (Z.to_nat (retries (parseRetryConfig config))))%nat.
Proof.
  intros tm fn config now. unfold retryOperation.
  destruct (retrySequence_total tm fn (parseRetryConfig config) now) as (tr & p & Hseq).
  rewrite Hseq. exists tr. eexists. split; [reflexivity|].
  unfold retrySequence in Hseq. apply tryOnce_call_bound in Hseq.
  now rewrite Z.sub_0_r in Hseq.
Qed.

(** X2.  The sequence stops at the first success: if the first [i] calls
    reject and the next one resolves with [v], with [i <= retries], the
    operation is called exactly [i + 1] times, [i] timers are armed and the
    sequence resolves with [v]; with the deadline off, so does the caller's
    promise. *)
Theorem retry_stops_at_first_success {L T} :
  forall (tm : Timers) (fn : nat -> Z -> list L * promise T) (config : options)
         (now : Z) (i : nat) (v : T),
    (forall j t, (j < i)%nat -> exists l t' e, fn j t = (l, Settled t' (Rejected e))) ->
    (forall t, exists l t', fn i t = (l, Settled t' (Resolved v))) ->
    Z.of_nat i <= retries (parseRetryConfig config) ->
    exists tr t,
      retrySequence tm fn (parseRetryConfig config) now
        = Some (tr, Settled t (Resolved v)) /\
      invocations tr = S i /\
      List.length (delays tr) = i /\
      (timeout (parseRetryConfig config) <= 0 ->
       retryOperation tm fn config now = Some (tr, Settled t (Resolved v))).
Proof.
  intros tm fn config now i v Hrej Hres Hle.
  destruct (tryOnce_first_success tm fn (parseRetryConfig config) v i
              (S (Z.to_nat (retries (parseRetryConfig config)))) 0 0%nat now)
    as (tr & t & Hrun & Hinv & Hlen).
  - intros j t Hj. apply Hrej. lia.
  - exact Hres.
  - lia.
  - lia.
  - exists tr, t. repeat split; try assumption.
    intros Hoff. unfold retryOperation, retrySequence. rewrite Hrun.
    now rewrite withTimeout_disabled.
Qed.

Lemma retry_stops_at_first_success_witness :
  exists tr t,
    retrySequence node_timers third_time_lucky (parseRetryConfig three_retries) 0
      = Some (tr, Settled t (Resolved "done")) /\
    invocations tr = 3%nat /\
    List.length (delays tr) = 2%nat /\
    (timeout (parseRetryConfig three_retries) <= 0 ->
     retryOperation node_timers third_time_lucky three_retries 0
       = Some (tr, Settled t (Resolved "done"))).
Proof.
  apply (retry_stops_at_first_success node_timers third_time_lucky three_retries 0 2 "done").
  - intros j t Hj. unfold third_time_lucky.
    destruct (Nat.ltb_spec j 2); [|lia]. do 3 eexists. reflexivity.
  - intros t. do 2 eexists. reflexivity.
  - cbn. lia.
Defined.

(** X3.  Against an operation that fails the instant it is called, with
    [retries = N >= 0] and [retryDelay = D], on a host whose timers honour
    each of the delays [D], [2D], ..., [2^(N-1) D] to the millisecond, the
    sequence gives up exactly [D * (2^N - 1)] ms after it started: the sum of
    the waits. *)
Theorem retry_total_backoff {L T} :
  forall (tm : Timers) (fn : nat -> Z -> list L * promise T) (err : nat -> js_error)
         (config : options) (now : Z),
    (forall i t, exists l, fn i t = (l, Settled t (Rejected (err i)))) ->
    0 <= retries (parseRetryConfig config) ->
    (forall t k, 0 <= k < retries (parseRetryConfig config) ->
       fires tm t (2 ^ k * retryDelay (parseRetryConfig config))
         = t + 2 ^ k * retryDelay (parseRetryConfig config)) ->
    exists tr e,
      retrySequence tm fn (parseRetryConfig config) now
        = Some (tr, Settled (now + retryDelay (parseRetryConfig config)
                                   * (2 ^ retries (parseRetryConfig config) - 1))
                      (Rejected e)).
Proof.
  intros tm fn err config now Hfail HN Hexact.
  destruct (tryOnce_instant_failures tm fn (parseRetryConfig config) err Hfail Hexact
              (S (Z.to_nat (retries (parseRetryConfig config)))) 0 0%nat now)
    as (tr & e & Hrun); [lia | lia |].
  exists tr, e. unfold retrySequence. rewrite Hrun. reflexivity.
Qed.

Lemma retry_total_backoff_witness :
  exists tr e,
    retrySequence node_timers always_fails (parseRetryConfig three_retries) 0
      = Some (tr, Settled (0 + retryDelay (parseRetryConfig three_retries)
                                 * (2 ^ retries (parseRetryConfig three_retries) - 1))
                    (Rejected e)).
Proof.
  apply (retry_total_backoff node_timers always_fails numbered_failure three_retries 0).
  - intros i t. eexists. reflexivity.
  - cbn. lia.
  - intros t k Hk. cbn in Hk.
    assert (Hcases : k = 0 \/ k = 1 \/ k = 2) by lia.
    destruct Hcases as [-> | [-> | ->]]; reflexivity.
Defined.

(** X4.  With a deadline [timeout = T > 0] the caller's promise always
    settles, no later than the instant at which the deadline timer fires,
    even when the operation never settles; and it is either the timeout
    error, at that instant, or the outcome of the sequence. *)
Theorem deadline_always_settles {L T} :
  forall (tm : Timers) (fn : nat -> Z -> list L * promise T) (config : options)
         (now : Z),
    0 < timeout (parseRetryConfig config) ->
    exists tr t o,
      retryOperation tm fn config now = Some (tr, Settled t o) /\
      t <= fires tm now (timeout (parseRetryConfig config)) /\
      (t = fires tm now (timeout (parseRetryConfig config)) /\
       o = Rejected (timeout_error (timeout (parseRetryConfig config))) \/
       retrySequence tm fn (parseRetryConfig config) now = Some (tr, Settled t o)).
Proof.
  intros tm fn config now Hpos. unfold retryOperation.
  destruct (retrySequence_total tm fn (parseRetryConfig config) now) as (tr & p & Hseq).
  rewrite Hseq.
  destruct (withTimeout_cases tm now p _ Hpos) as [(t & o & -> & Hle & Heq) | Heq];
    rewrite Heq.
  - exists tr, t, o. split; [reflexivity|]. split; [exact Hle|]. now right.
  - do 3 eexists. split; [reflexivity|]. split; [lia|]. left. split; reflexivity.
Qed.

Lemma deadline_always_settles_witness :
  exists tr t o,
    retryOperation node_timers never_settles deadline_200 0 = Some (tr, Settled t o) /\
    t <= fires node_timers 0 (timeout (parseRetryConfig deadline_200)) /\
    (t = fires node_timers 0 (timeout (parseRetryConfig deadline_200)) /\
     o = Rejected (timeout_error (timeout (parseRetryConfig deadline_200))) \/
     retrySequence node_timers never_settles (parseRetryConfig deadline_200) 0
       = Some (tr, Settled t o)).
Proof.
  apply (deadline_always_settles node_timers never_settles deadline_200 0). reflexivity.
Defined.

End ControllerMore.

(* ================================================================== *)
(** * Further properties of the OS process adapter *)

Module OSAdapterMore.
Import OSAdapter Observe MoreObserve Scenarios MoreScenarios OSAdapterFacts.

Lemma decisive_not_data : forall evs t e,
  decisive evs = Some (t, e) -> is_data e = false.
Proof.
  induction evs as [|[t' e'] evs IH]; intros t e H; [discriminate|].
  cbn in H. destruct (is_data e') eqn:He; [eauto|]. now inversion H; subst.
Qed.

Lemma spawned_app : forall a b, spawned (a ++ b)%list = (spawned a ++ spawned b)%list.
Proof.
  induction a as [|e a IH]; intros b; [reflexivity|].
  destruct e; cbn; rewrite IH; reflexivity.
Qed.

(** Listeners that find the promise settled leave it so. *)
Section Sticky.
Variable f : listeners -> Z * proc_event -> listeners.
Hypothesis f_cases : forall st ev,
  f st ev = st \/ (exists c, f st ev = on_data st c) \/ exists p l, f st ev = settle st p l.

Lemma fold_sticky : forall evs st t o,
  result st = Settled t o -> result (fold_left f evs st) = Settled t o.
Proof.
  induction evs as [|ev evs IH]; intros st t o Hres; [exact Hres|].
  cbn [fold_left]. apply IH.
  destruct (f_cases st ev) as [-> | [(c & ->) | (p & l & ->)]]; cbn; try assumption.
  now rewrite Hres.
Qed.

(** With no deciding event the promise is as the listeners found it. *)
Lemma fold_no_decision : forall evs st,
  decisive evs = None -> finished st = false ->
  (forall st' t e, is_data e = false -> finished st' = false ->
     exists p l, f st' (t, e) = settle st' p l) ->
  (forall st' t c, result (f st' (t, OnData c)) = result st' /\
                   log (f st' (t, OnData c)) = log st' /\
                   finished (f st' (t, OnData c)) = finished st') ->
  result (fold_left f evs st) = result st /\ log (fold_left f evs st) = log st.
Proof.
  induction evs as [|[t e] evs IH]; intros st Hdec Hfin Hdecide Hdata; [cbn; auto|].
  cbn [fold_left decisive] in *.
  destruct e as [m|c|c]; cbn [is_data] in Hdec; try discriminate.
  destruct (Hdata st t c) as (Hr & Hl & Hf).
  destruct (IH (f st (t, OnData c)) Hdec) as (Hr' & Hl'); try assumption; [congruence|].
  rewrite Hr', Hl'. auto.
Qed.
End Sticky.

Lemma copy_listener_cases : forall process cmd text st ev,
  copy_listener process cmd text st ev = st \/
  (exists c, copy_listener process cmd text st ev = on_data st c) \/
  exists p l, copy_listener process cmd text st ev = settle st p l.
Proof.
  intros process cmd text st [t [m|c|c]]; cbn; auto.
  - destruct (finished st); auto.
    destruct (has_fallback (platform process)); [|eauto].
    destruct (nodeClipboardCopyFallback process text t); eauto.
  - destruct (finished st); auto. destruct (is_zero c); eauto.
Qed.

Lemma fallback_copy_listener_cases : forall text st ev,
  fallback_copy_listener text st ev = st \/
  (exists c, fallback_copy_listener text st ev = on_data st c) \/
  exists p l, fallback_copy_listener text st ev = settle st p l.
Proof.
  intros text st [t [m|c|c]]; cbn; auto.
  - destruct (finished st); eauto.
  - destruct (finished st); auto. destruct (is_zero c); eauto.
Qed.

Lemma copy_fold_undecided : forall process cmd text evs st,
  decisive evs = None -> finished st = false ->
  result (fold_left (copy_listener process cmd text) evs st) = result st /\
  log (fold_left (copy_listener process cmd text) evs st) = log st.
Proof.
  intros process cmd text evs st Hdec Hfin.
  apply fold_no_decision; try assumption.
  - intros st' t [m|c|c] He Hf; try discriminate; cbn; rewrite Hf.
    + destruct (has_fallback (platform process)); [|eauto].
      destruct (nodeClipboardCopyFallback process text t); eauto.
    + destruct (is_zero c); eauto.
  - intros st' t c. cbn. auto.
Qed.

Lemma fallback_copy_fold_undecided : forall text evs st,
  decisive evs = None -> finished st = false ->
  result (fold_left (fallback_copy_listener text) evs st) = result st.
Proof.
  intros text evs st Hdec Hfin.
  apply fold_no_decision; try assumption.
  - intros st' t [m|c|c] He Hf; try discriminate; cbn; rewrite Hf.
    + eauto.
    + destruct (is_zero c); eauto.
  - intros st' t c. cbn. auto.
Qed.

Lemma fallback_resolves_only_on_zero_exit : forall process text t0 t v,
  snd (nodeClipboardCopyFallback process text t0) = Settled t (Resolved v) ->
  v = text /\
  exists evs, spawn process "xsel" ["--clipboard"; "--input"] t0 = Started None evs /\
              decisive evs = Some (t, OnClose (ExitCode 0)).
Proof.
  intros process text t0 t v. unfold nodeClipboardCopyFallback.
  destruct (spawn process "xsel" _ t0) as [m|m|[m|] evs] eqn:Hsp; cbn [snd].
  - discriminate.
  - discriminate.
  - erewrite (fold_sticky _ (fallback_copy_listener_cases text)) by reflexivity.
    discriminate.
  - destruct (decisive evs) as [[t' e]|] eqn:Hdec.
    + destruct (fallback_copy_fold text evs
                  (mkListeners false "" Pending
                     [Spawn "xsel" ["--clipboard"; "--input"]; StdinWrite text; StdinEnd])
                  (t', e) eq_refl Hdec) as (Hr & _).
      rewrite Hr. pose proof (decisive_not_data _ _ _ Hdec) as Hnd.
      destruct e as [m|c|c]; cbn; try discriminate.
      destruct (is_zero c) eqn:Hz; cbn; [|discriminate].
      intros H. inversion H; subst. apply is_zero_true in Hz. subst. eauto.
    + rewrite fallback_copy_fold_undecided by auto. discriminate.
Qed.

(** A write resolves only with the text, in Node, and only when a utility
    the adapter itself has started closes with exit code 0: the platform's
    own, started at the call, or [xsel], started at the instant at which the
    platform's own reported an error. *)
Lemma copy_resolution :
  forall (host : Host) (process : NodeProcess) (text : string) (now t : Z) (v : string),
    snd (nodeClipboardCopy host process text now) = Settled t (Resolved v) ->
    v = text /\ _isNode host = true /\
    ((exists evs,
        spawn process (fst (write_command (platform process)))
          (snd (write_command (platform process))) now = Started None evs /\
        decisive evs = Some (t, OnClose (ExitCode 0))) \/
     (has_fallback (platform process) = true /\
      exists evs t' m evs2,
        spawn process (fst (write_command (platform process)))
          (snd (write_command (platform process))) now = Started None evs /\
        decisive evs = Some (t', OnError m) /\
        spawn process "xsel" ["--clipboard"; "--input"] t' = Started None evs2 /\
        decisive evs2 = Some (t, OnClose (ExitCode 0)))).
Proof.
  intros host process text now t v. unfold nodeClipboardCopy.
  destruct (_isNode host); cbn [negb]; [|discriminate].
  destruct (write_command (platform process)) as [cmd args]. cbn [fst snd].
  destruct (spawn process cmd args now) as [m|m|[m|] evs] eqn:Hsp; cbn [snd].
  - discriminate.
  - discriminate.
  - erewrite (fold_sticky _ (copy_listener_cases process cmd text)) by reflexivity.
    discriminate.
  - destruct (decisive evs) as [[t' e]|] eqn:Hdec.
    + destruct (copy_fold process cmd text evs
                  (mkListeners false "" Pending [Spawn cmd args; StdinWrite text; StdinEnd])
                  (t', e) eq_refl Hdec) as (Hr & _).
      rewrite Hr. destruct e as [m|c|c]; cbn.
      * destruct (has_fallback (platform process)); [|discriminate].
        destruct (nodeClipboardCopyFallback process text t') as [l p] eqn:Hfb.
        cbn. intros Hp.
        destruct (fallback_resolves_only_on_zero_exit process text t' t v)
          as (Hv & evs2 & H1 & H2).
        { now rewrite Hfb. }
        split; [exact Hv|]. split; [reflexivity|].
        right. split; [reflexivity|]. exists evs, t', m, evs2. auto.
      * destruct (is_zero c) eqn:Hz; cbn; [|discriminate].
        intros H. inversion H; subst. apply is_zero_true in Hz. subst.
        split; [reflexivity|]. split; [reflexivity|].
        left. exists evs. auto.
      * apply decisive_not_data in Hdec. discriminate.
    + destruct (copy_fold_undecided process cmd text evs
                  (mkListeners false "" Pending [Spawn cmd args; StdinWrite text; StdinEnd])
                  Hdec eq_refl) as (Hr & _).
      rewrite Hr. discriminate.
Qed.

(** X5.  However the write ends, it resolves only with the very text it was
    given, in a Node process, and only at the instant at which a utility the
    adapter itself has started closes with exit code 0, having taken the
    text: either the platform's own utility, started when the write was
    called, or, on a platform other than Windows and macOS, [xsel --clipboard
    --input], started at the instant at which the platform's own utility
    reported an error. *)
Theorem write_resolves_only_on_zero_exit :
  forall (host : Host) (process : NodeProcess) (text : string) (now t : Z) (v : string),
    snd (nodeClipboardCopy host process text now) = Settled t (Resolved v) ->
    v = text /\ _isNode host = true /\
    ((exists evs,
        spawn process (fst (write_command (platform process)))
          (snd (write_command (platform process))) now = Started None evs /\
        decisive evs = Some (t, OnClose (ExitCode 0))) \/
     (has_fallback (platform process) = true /\
      exists evs t' m evs2,
        spawn process (fst (write_command (platform process)))
          (snd (write_command (platform process))) now = Started None evs /\
        decisive evs = Some (t', OnError m) /\
        spawn process "xsel" ["--clipboard"; "--input"] t' = Started None evs2 /\
        decisive evs2 = Some (t, OnClose (ExitCode 0)))).
Proof. exact copy_resolution. Qed.

Lemma write_resolves_only_on_zero_exit_witness :
  "hello" = "hello" /\ _isNode node_host = true /\
  ((exists evs,
      spawn linux_without_xclip (fst (write_command (platform linux_without_xclip)))
        (snd (write_command (platform linux_without_xclip))) 0 = Started None evs /\
      decisive evs = Some (4, OnClose (ExitCode 0))) \/
   (has_fallback (platform linux_without_xclip) = true /\
    exists evs t' m evs2,
      spawn linux_without_xclip (fst (write_command (platform linux_without_xclip)))
        (snd (write_command (platform linux_without_xclip))) 0 = Started None evs /\
      decisive evs = Some (t', OnError m) /\
      spawn linux_without_xclip "xsel" ["--clipboard"; "--input"] t' = Started None evs2 /\
      decisive evs2 = Some (4, OnClose (ExitCode 0)))).
Proof.
  apply (write_resolves_only_on_zero_exit node_host linux_without_xclip "hello" 0 4 "hello").
  reflexivity.
Defined.

(** X6.  When the [try] block of the write throws, be it [spawn] itself or
    the writing to standard input, the promise rejects at once with the
    spawn-failure error, and nothing the child does later changes that, not
    even an exit with code 0. *)
Theorem write_exception_is_final :
  forall (host : Host) (process : NodeProcess) (text : string) (now : Z) (m : string),
    _isNode host = true ->
    (spawn process (fst (write_command (platform process)))
       (snd (write_command (platform process))) now = SpawnThrows m \/
     exists evs, spawn process (fst (write_command (platform process)))
                   (snd (write_command (platform process))) now = Started (Some m) evs) ->
    snd (nodeClipboardCopy host process text now)
      = Settled now (Rejected (Error ("Failed to spawn clipboard process: " ++ m))).
Proof.
  intros host process text now m Hnode Hthrow. unfold nodeClipboardCopy.
  rewrite Hnode. cbn [negb].
  destruct (write_command (platform process)) as [cmd args]. cbn [fst snd] in Hthrow.
  destruct Hthrow as [-> | (evs & ->)]; [reflexivity|]. cbn [snd].
  apply (fold_sticky _ (copy_listener_cases process cmd text)). reflexivity.
Qed.

Lemma write_exception_is_final_witness :
  snd (nodeClipboardCopy node_host linux_closed_stdin "hello" 0)
    = Settled 0 (Rejected (Error "Failed to spawn clipboard process: write EPIPE")).
Proof.
  apply (write_exception_is_final node_host linux_closed_stdin "hello" 0 "write EPIPE").
  - reflexivity.
  - right. eexists. reflexivity.
Defined.

(** *** Spawned commands *)

Lemma fallback_spawns_xsel : forall process text t,
  spawned (fst (nodeClipboardCopyFallback process text t))
    = [("xsel", ["--clipboard"; "--input"])].
Proof.
  intros process text t. unfold nodeClipboardCopyFallback.
  destruct (spawn process "xsel" _ t) as [m|m|[m|] evs]; cbn [fst];
    try rewrite fallback_copy_log; reflexivity.
Qed.

Lemma copy_fold_spawned : forall process cmd text evs st,
  finished st = false ->
  spawned (log (fold_left (copy_listener process cmd text) evs st)) = spawned (log st) \/
  (has_fallback (platform process) = true /\
   spawned (log (fold_left (copy_listener process cmd text) evs st))
     = (spawned (log st) ++ [("xsel", ["--clipboard"; "--input"])])%list).
Proof.
  intros process cmd text evs st Hfin.
  destruct (decisive evs) as [[t e]|] eqn:Hdec.
  - destruct (copy_fold process cmd text evs st (t, e) Hfin Hdec) as (_ & Hl).
    rewrite Hl. destruct e as [m|c|c]; cbn [copy_listener]; rewrite ?Hfin.
    + destruct (has_fallback (platform process)) eqn:Hfb.
      * right. split; [reflexivity|].
        pose proof (fallback_spawns_xsel process text t) as Hx.
        destruct (nodeClipboardCopyFallback process text t) as [l p]. cbn [fst] in Hx.
        cbn. now rewrite spawned_app, Hx.
      * left. cbn. now rewrite app_nil_r.
    + left. destruct (is_zero c); cbn; now rewrite app_nil_r.
    + left. reflexivity.
  - destruct (copy_fold_undecided process cmd text evs st Hdec Hfin) as (_ & Hl).
    rewrite Hl. now left.
Qed.

(** X7.  A write hands nothing to [spawn] outside Node, nor in Node when the
    [try] block throws before [spawn] is reached; otherwise it hands it the
    platform's own utility and nothing else, except that on a platform other
    than Windows and macOS [xsel --clipboard --input] may follow [xclip],
    once. *)
Theorem write_spawns_known_commands :
  forall (host : Host) (process : NodeProcess) (text : string) (now : Z),
    (_isNode host = false ->
     spawned (fst (nodeClipboardCopy host process text now)) = []) /\
    (_isNode host = true ->
     (spawned (fst (nodeClipboardCopy host process text now)) = [] /\
      exists m, spawn process (fst (write_command (platform process)))
                  (snd (write_command (platform process))) now = RequireThrows m) \/
     spawned (fst (nodeClipboardCopy host process text now))
       = [write_command (platform process)] \/
     (has_fallback (platform process) = true /\
      spawned (fst (nodeClipboardCopy host process text now))
        = [("xclip", ["-selection"; "clipboard"]); ("xsel", ["--clipboard"; "--input"])])).
Proof.
  intros host process text now. unfold nodeClipboardCopy. split; intros ->; cbn [negb].
  { reflexivity. }
  destruct (write_command (platform process)) as [cmd args] eqn:Hwc. cbn [fst snd].
  destruct (spawn process cmd args now) as [m|m|sin evs]; cbn [fst];
    [left; split; [reflexivity | eauto] | right; now left |].
  right.
  assert (Hgen : forall st, finished st = false -> spawned (log st) = [(cmd, args)] ->
            spawned (log (fold_left (copy_listener process cmd text) evs st)) = [(cmd, args)] \/
            (has_fallback (platform process) = true /\
             spawned (log (fold_left (copy_listener process cmd text) evs st))
               = [("xclip", ["-selection"; "clipboard"]);
                  ("xsel", ["--clipboard"; "--input"])])).
  { intros st Hfin Hlog.
    destruct (copy_fold_spawned process cmd text evs st Hfin) as [H | (Hfb & H)];
      rewrite H, Hlog; [now left|].
    right. split; [exact Hfb|].
    apply has_fallback_true in Hfb. destruct Hfb as (Hw & Hd).
    rewrite (write_command_other _ Hw Hd) in Hwc. inversion Hwc. reflexivity. }
  destruct sin; apply Hgen; reflexivity.
Qed.

Lemma write_spawns_known_commands_witness :
  spawned (fst (nodeClipboardCopy browser_host linux_without_xclip "hello" 0)) = [] /\
  spawned (fst (nodeClipboardCopy node_host es_module_process "hello" 0)) = [] /\
  spawned (fst (nodeClipboardCopy node_host linux_without_xclip "hello" 0))
    = [("xclip", ["-selection"; "clipboard"]); ("xsel", ["--clipboard"; "--input"])].
Proof.
  split; [|split].
  - apply (proj1 (write_spawns_known_commands browser_host linux_without_xclip "hello" 0)).
    reflexivity.
  - destruct (proj2 (write_spawns_known_commands node_host es_module_process "hello" 0)
                eq_refl) as [(H & _) | [H | (_ & H)]]; [exact H | |]; discriminate.
  - destruct (proj2 (write_spawns_known_commands node_host linux_without_xclip "hello" 0)
                eq_refl) as [(H & _) | [H | (_ & H)]]; [discriminate | discriminate | exact H].
Defined.

(** *** Read *)

Lemma read_fold_full : forall process cmd evs st ev,
  finished st = false -> decisive evs = Some ev ->
  let st' := mkListeners (finished st) (output st ++ stdout_before evs)
               (result st) (log st) in
  result (fold_left (read_listener process cmd) evs st)
    = result (read_listener process cmd st' ev) /\
  log (fold_left (read_listener process cmd) evs st)
    = log (read_listener process cmd st' ev).
Proof.
  intros process cmd evs st ev Hfin Hdec. cbn zeta.
  rewrite <- (at_decision_read (read_listener process cmd)
                (fun _ _ _ => eq_refl) evs st).
  apply fold_decisive; try assumption.
  - intros [fin out res lg] t c. reflexivity.
  - intros st' t [m|c|c] Hf He; try discriminate; cbn; now rewrite Hf.
  - intros st' t [m|c|c] Hf He; try discriminate; cbn; rewrite Hf.
    + destruct (has_fallback (platform process)); [|reflexivity].
      destruct (nodeClipboardReadFallback process t). reflexivity.
    + destruct (is_zero c); reflexivity.
Qed.

Lemma fallback_read_fold : forall evs st ev,
  finished st = false -> decisive evs = Some ev ->
  let st' := mkListeners (finished st) (output st ++ stdout_before evs)
               (result st) (log st) in
  result (fold_left fallback_read_listener evs st)
    = result (fallback_read_listener st' ev).
Proof.
  intros evs st ev Hfin Hdec. cbn zeta.
  rewrite <- (at_decision_read fallback_read_listener (fun _ _ _ => eq_refl) evs st).
  apply fold_decisive; try assumption.
  - intros [fin out res lg] t c. reflexivity.
  - intros st' t [m|c|c] Hf He; try discriminate; cbn; now rewrite Hf.
  - intros st' t [m|c|c] Hf He; try discriminate; cbn; rewrite Hf.
    + reflexivity.
    + destruct (is_zero c); reflexivity.
Qed.

Lemma fallback_read_log : forall evs st,
  log (fold_left fallback_read_listener evs st) = log st.
Proof.
  induction evs as [|[t e] evs IH]; intros st; cbn [fold_left]; [reflexivity|].
  rewrite IH. destruct e as [m|c|c]; cbn; destruct (finished st); cbn;
    try reflexivity; try (destruct (is_zero c); cbn); now rewrite app_nil_r.
Qed.

Lemma read_command_other : forall p : string,
  p <> "win32" -> p <> "darwin" ->
  read_command p = ("xclip", ["-selection"; "clipboard"; "-o"]).
Proof.
  intros p Hw Hd. unfold read_command.
  destruct (String.eqb_spec p "win32"); [contradiction|].
  destruct (String.eqb_spec p "darwin"); [contradiction|]. reflexivity.
Qed.

(** X8.  When the primary read utility cannot be started and the platform is
    neither Windows nor macOS, [xsel --clipboard --output] is started and the
    caller gets its outcome: on exit code 0 exactly what [xsel] printed,
    without anything [xclip] may have printed and without any stripping; if
    [xsel] cannot be started either, an error naming both utilities.  On
    Windows and macOS the failure is final. *)
Theorem read_spawn_failure_fallback :
  forall (host : Host) (process : NodeProcess) (now : Z) sin evs (t : Z) (m : string),
    _isNode host = true ->
    spawn process (fst (read_command (platform process)))
      (snd (read_command (platform process))) now = Started sin evs ->
    decisive evs = Some (t, OnError m) ->
    (platform process <> "win32" -> platform process <> "darwin" ->
     nodeClipboardRead host process now
       = ([Spawn "xclip" ["-selection"; "clipboard"; "-o"];
           Spawn "xsel" ["--clipboard"; "--output"]],
          snd (nodeClipboardReadFallback process t)) /\
     (forall sin2 evs2 t2,
        spawn process "xsel" ["--clipboard"; "--output"] t = Started sin2 evs2 ->
        decisive evs2 = Some (t2, OnClose (ExitCode 0)) ->
        snd (nodeClipboardRead host process now)
          = Settled t2 (Resolved (stdout_before evs2))) /\
     (forall sin2 evs2 t2 m2,
        spawn process "xsel" ["--clipboard"; "--output"] t = Started sin2 evs2 ->
        decisive evs2 = Some (t2, OnError m2) ->
        snd (nodeClipboardRead host process now)
          = Settled t2 (Rejected (Error
              ("No clipboard read command available. Install xclip or xsel. " ++ m2))))) /\
    (platform process = "win32" \/ platform process = "darwin" ->
     nodeClipboardRead host process now
       = ([Spawn (fst (read_command (platform process)))
             (snd (read_command (platform process)))],
          Settled t (Rejected (Error ("Clipboard read command failed: "
                                        ++ fst (read_command (platform process))
                                        ++ " - " ++ m))))).
Proof.
  intros host process now sin evs t m Hnode Hspawn Hdec. split.
  - intros Hw Hd.
    assert (Hfb : has_fallback (platform process) = true)
      by (apply has_fallback_true; auto).
    rewrite (read_command_other _ Hw Hd) in Hspawn. cbn [fst snd] in Hspawn.
    assert (Hlog : fst (nodeClipboardReadFallback process t)
                   = [Spawn "xsel" ["--clipboard"; "--output"]]).
    { unfold nodeClipboardReadFallback.
      destruct (spawn process "xsel" _ t); cbn [fst]; [reflexivity|reflexivity|].
      now rewrite fallback_read_log. }
    assert (Hread : nodeClipboardRead host process now
       = ([Spawn "xclip" ["-selection"; "clipboard"; "-o"];
           Spawn "xsel" ["--clipboard"; "--output"]],
          snd (nodeClipboardReadFallback process t))).
    { unfold nodeClipboardRead. rewrite Hnode, (read_command_other _ Hw Hd), Hspawn.
      cbn [negb].
      destruct (read_fold_full process "xclip" evs
                  (mkListeners false "" Pending
                     [Spawn "xclip" ["-selection"; "clipboard"; "-o"]])
                  (t, OnError m) eq_refl Hdec) as (Hr & Hl).
      rewrite Hr, Hl. cbn. rewrite Hfb.
      destruct (nodeClipboardReadFallback process t) as [l p].
      cbn [fst] in Hlog. subst l. reflexivity. }
    split; [exact Hread|]. split.
    + intros sin2 evs2 t2 Hsp Hdec2. rewrite Hread. cbn [snd].
      unfold nodeClipboardReadFallback. rewrite Hsp. cbn [snd].
      now rewrite (fallback_read_fold evs2
                     (mkListeners false "" Pending [Spawn "xsel" ["--clipboard"; "--output"]])
                     (t2, OnClose (ExitCode 0)) eq_refl Hdec2).
    + intros sin2 evs2 t2 m2 Hsp Hdec2. rewrite Hread. cbn [snd].
      unfold nodeClipboardReadFallback. rewrite Hsp. cbn [snd].
      now rewrite (fallback_read_fold evs2
                     (mkListeners false "" Pending [Spawn "xsel" ["--clipboard"; "--output"]])
                     (t2, OnError m2) eq_refl Hdec2).
  - intros Hwm.
    assert (Hfb : has_fallback (platform process) = false)
      by (destruct Hwm as [-> | ->]; reflexivity).
    unfold nodeClipboardRead. rewrite Hnode. cbn [negb].
    destruct (read_command (platform process)) as [cmd args]. cbn [fst snd] in *.
    rewrite Hspawn.
    destruct (read_fold_full process cmd evs
                (mkListeners false "" Pending [Spawn cmd args])
                (t, OnError m) eq_refl Hdec) as (Hr & Hl).
    rewrite Hr, Hl. cbn. rewrite Hfb. reflexivity.
Qed.

Lemma read_spawn_failure_fallback_witness :
  nodeClipboardRead node_host linux_xsel_prints 0
    = ([Spawn "xclip" ["-selection"; "clipboard"; "-o"];
        Spawn "xsel" ["--clipboard"; "--output"]],
       Settled 4 (Resolved ("hello" ++ LF))).
Proof.
  assert (Hw : platform linux_xsel_prints <> "win32") by discriminate.
  assert (Hd : platform linux_xsel_prints <> "darwin") by discriminate.
  destruct (proj1 (read_spawn_failure_fallback node_host linux_xsel_prints 0
                     None _ 1 "spawn xclip ENOENT" eq_refl eq_refl eq_refl) Hw Hd)
    as (Hread & _).
  rewrite Hread. reflexivity.
Defined.

(** X9.  On every platform a read whose process closes with a code other
    than 0 rejects with an error carrying the code; whatever was printed is
    dropped and nothing else is started. *)
Theorem read_rejects_nonzero_exit :
  forall (host : Host) (process : NodeProcess) (now : Z) sin evs (t : Z)
         (code : exit_code),
    _isNode host = true ->
    spawn process (fst (read_command (platform process)))
      (snd (read_command (platform process))) now = Started sin evs ->
    decisive evs = Some (t, OnClose code) ->
    code <> ExitCode 0 ->
    nodeClipboardRead host process now
      = ([Spawn (fst (read_command (platform process)))
            (snd (read_command (platform process)))],
         Settled t (Rejected (Error ("Clipboard read command exited with code: "
                                       ++ code_to_string code)))).
Proof.
  intros host process now sin evs t code Hnode Hspawn Hdec Hcode.
  unfold nodeClipboardRead. rewrite Hnode. cbn [negb].
  destruct (read_command (platform process)) as [cmd args]. cbn [fst snd] in *.
  rewrite Hspawn.
  destruct (read_fold_full process cmd evs
              (mkListeners false "" Pending [Spawn cmd args])
              (t, OnClose code) eq_refl Hdec) as (Hr & Hl).
  rewrite Hr, Hl. cbn.
  destruct (is_zero code) eqn:Hz; [apply is_zero_true in Hz; contradiction|].
  reflexivity.
Qed.

Lemma read_rejects_nonzero_exit_witness :
  nodeClipboardRead node_host mac_read_fails 0
    = ([Spawn "pbpaste" []],
       Settled 2 (Rejected (Error "Clipboard read command exited with code: 1"))).
Proof.
  apply (read_rejects_nonzero_exit node_host mac_read_fails 0 None _ 2 (ExitCode 1)
           eq_refl eq_refl eq_refl).
  discriminate.
Defined.

End OSAdapterMore.

(* ================================================================== *)
(** * Further properties of the write chain *)

Module ChainMore.
Import Controller WriteChain Scenarios MoreScenarios ControllerFacts.

(** X10.  The controller invents no outcome: the promise handed to the
    caller is the promise returned by the last call it made of the operation
    (the call recorded last in the trace, made at the instant recorded
    there), value or error untouched, or else the timeout error raised at the
    instant at which the deadline timer fires. *)
Theorem retry_outcome_provenance {L T} :
  forall (tm : Timers) (fn : nat -> Z -> list L * promise T) (config : options)
         (now : Z) tr p,
    retryOperation tm fn config now = Some (tr, p) ->
    (exists pre i t0,
       tr = (pre ++ [Invoked i t0 (fst (fn i t0))])%list /\
       S i = invocations tr /\
       snd (fn i t0) = p) \/
    (0 < timeout (parseRetryConfig config) /\
     p = Settled (fires tm now (timeout (parseRetryConfig config)))
           (Rejected (timeout_error (timeout (parseRetryConfig config))))).
Proof.
  intros tm fn config now tr p Hrun. unfold retryOperation, retrySequence in Hrun.
  destruct (tryOnce tm fn (parseRetryConfig config) _ 0 0%nat now) as [[tr' q]|] eqn:Hseq;
    [|discriminate].
  inversion Hrun; subst tr' p; clear Hrun.
  destruct (tryOnce_provenance tm fn _ _ _ _ _ _ _ Hseq) as (pre & i & t0 & Htr & Hi & Hq).
  destruct (withTimeout_origin tm now q (timeout (parseRetryConfig config)))
    as [Heq | (Hpos & Heq)]; rewrite Heq.
  - left. exists pre, i, t0. split; [exact Htr|]. split; [exact Hi | exact Hq].
  - right. split; [exact Hpos | reflexivity].
Qed.

Lemma retry_outcome_provenance_witness :
  (exists pre i t0,
     [Invoked 0 0 (@nil unit); Waited 100; Invoked 1 100 []]
       = (pre ++ [Invoked i t0 (fst (always_boom i t0))])%list /\
     S i = invocations [Invoked 0 0 (@nil unit); Waited 100; Invoked 1 100 []] /\
     snd (always_boom i t0)
       = Settled 50 (Rejected (Error "Operation timed out after 50ms"))) \/
  (0 < timeout (parseRetryConfig impatient) /\
   @Settled string 50 (Rejected (Error "Operation timed out after 50ms"))
     = Settled (fires node_timers 0 (timeout (parseRetryConfig impatient)))
         (Rejected (timeout_error (timeout (parseRetryConfig impatient))))).
Proof.
  apply (retry_outcome_provenance node_timers always_boom impatient 0
           [Invoked 0 0 []; Waited 100; Invoked 1 100 []]
           (Settled 50 (Rejected (Error "Operation timed out after 50ms")))).
  vm_compute. reflexivity.
Defined.

Lemma copyChain_resolution : forall api host g text container now t v,
  snd (copyChain api host g text container now) = Settled t (Resolved v) -> v = text.
Proof.
  intros api host g text container now t v. unfold copyChain.
  destruct api as [wt|].
  - unfold catch, modernCopy. cbn [snd fst].
    destruct (wt text now) as [|t' [u|e]]; cbn [snd]; try discriminate.
    + intros H. now inversion H.
    + destruct (_isBrowser host); cbn [snd].
      * unfold legacyCopy. cbn [snd].
        destruct (match execCommand g "copy" with ExecReturns b => b | ExecThrows => false end);
          intros H; now inversion H.
      * discriminate.
  - destruct (_isBrowser host).
    + unfold legacyCopy. cbn [snd].
      destruct (match execCommand g "copy" with ExecReturns b => b | ExecThrows => false end);
        intros H; now inversion H.
    + destruct (_isNode host); [|discriminate].
      intros H. now apply OSAdapterMore.copy_resolution in H.
Qed.

Lemma copyText_resolution : forall host world text options now tr t v,
  copyText host world text options now = Some (tr, Settled t (Resolved v)) -> v = text.
Proof.
  intros host world text options now tr t v Hrun. unfold copyText in Hrun.
  unfold retryOperation, retrySequence in Hrun.
  match type of Hrun with
  | context [tryOnce ?m ?f ?c ?n 0 0%nat now] =>
      destruct (tryOnce m f c n 0 0%nat now) as [[tr' q]|] eqn:Hseq; [|discriminate];
      destruct (tryOnce_provenance m f _ _ _ _ _ _ _ Hseq) as (pre & i & t0 & _ & _ & Hq)
  end.
  inversion Hrun as [[Htr Hp]]. clear Hrun.
  apply withTimeout_resolved in Hp.
  rewrite Hp in Hq. cbn beta in Hq. unfold copyAttempt in Hq.
  now apply copyChain_resolution in Hq.
Qed.

(** X11.  Whatever the host, the options and the number of attempts,
    [copyText] resolves with nothing but the text it was asked to copy; so
    does the public [copy], which besides resolves only for a string. *)
Theorem copy_resolves_with_the_text :
  forall (host : Host) (world : nat -> Globals) (arg : js_value)
         (options : options) (now : Z) tr (t : Z) (v : string),
    copy host world arg options now = Some (tr, Settled t (Resolved v)) ->
    _isString arg = true /\ v = chars arg /\
    copyText host world v options now = Some (tr, Settled t (Resolved v)).
Proof.
  intros host world arg options now tr t v Hrun. unfold copy in Hrun.
  destruct (_isString arg); cbn [negb] in Hrun; [|discriminate].
  pose proof (copyText_resolution _ _ _ _ _ _ _ _ Hrun) as ->. auto.
Qed.

Lemma copy_resolves_with_the_text_witness :
  _isString (JString "hello") = true /\ "hello" = chars (JString "hello") /\
  copyText browser_host (fun _ => granting_page) "hello"
    (OptObject None (Some 0) None None) 0
    = Some ([Invoked 0 0 [WriteText "hello"]], Settled 7 (Resolved "hello")).
Proof.
  apply (copy_resolves_with_the_text browser_host (fun _ => granting_page)
           (JString "hello") (OptObject None (Some 0) None None) 0).
  reflexivity.
Defined.

End ChainMore.

(* ================================================================== *)
(** * Properties of the event emitter *)

Module EmitterFacts.
Import WriteChain Emitter MoreScenarios.

(** *** Association lists *)

Section AssocFacts.
Context {K V : Type}.
Variable eqb : K -> K -> bool.
Hypothesis eqb_spec : forall a b, reflect (a = b) (eqb a b).

Lemma get_set_same : forall (s : list (K * V)) k v, get eqb (set eqb s k v) k = Some v.
Proof.
  induction s as [|[k' v'] s IH]; intros k v; cbn.
  - destruct (eqb_spec k k); [reflexivity | contradiction].
  - destruct (eqb_spec k' k); cbn.
    + destruct (eqb_spec k k); [reflexivity | contradiction].
    + destruct (eqb_spec k' k); [contradiction | apply IH].
Qed.

Lemma get_set_other : forall (s : list (K * V)) k k' v,
  k <> k' -> get eqb (set eqb s k v) k' = get eqb s k'.
Proof.
  induction s as [|[k0 v0] s IH]; intros k k' v Hk; cbn.
  - destruct (eqb_spec k k'); [contradiction | reflexivity].
  - destruct (eqb_spec k0 k); cbn.
    + subst. destruct (eqb_spec k k'); [contradiction | reflexivity].
    + destruct (eqb_spec k0 k'); [reflexivity | now apply IH].
Qed.

Lemma get_delete_same : forall (s : list (K * V)) k, get eqb (delete eqb s k) k = None.
Proof.
  induction s as [|[k' v'] s IH]; intros k; cbn; [reflexivity|].
  destruct (eqb_spec k' k); [apply IH|]. cbn.
  destruct (eqb_spec k' k); [contradiction | apply IH].
Qed.

Lemma get_delete_other : forall (s : list (K * V)) k k',
  k <> k' -> get eqb (delete eqb s k) k' = get eqb s k'.
Proof.
  induction s as [|[k0 v0] s IH]; intros k k' Hk; cbn; [reflexivity|].
  destruct (eqb_spec k0 k); cbn.
  - subst. destruct (eqb_spec k k'); [contradiction | now apply IH].
  - destruct (eqb_spec k0 k'); [reflexivity | now apply IH].
Qed.
End AssocFacts.

(** *** What the primitive updates change *)

Lemma content_push : forall e r entry r',
  content (push e r entry) r'
    = if Nat.eqb r r' then (content e r ++ [entry])%list else content e r'.
Proof.
  intros e r entry r'. unfold content at 1, push. cbn [arrays].
  destruct (Nat.eqb_spec r r') as [<-|Hne].
  - now rewrite (get_set_same _ Nat.eqb_spec).
  - now rewrite (get_set_other _ Nat.eqb_spec) by assumption.
Qed.

Lemma content_assign : forall e event l r',
  content (assign e event l) r'
    = if Nat.eqb (next_array e) r' then l else content e r'.
Proof.
  intros e event l r'. unfold content at 1, assign. cbn [arrays].
  destruct (Nat.eqb_spec (next_array e) r') as [<-|Hne].
  - now rewrite (get_set_same _ Nat.eqb_spec).
  - now rewrite (get_set_other _ Nat.eqb_spec) by assumption.
Qed.

Lemma events_assign : forall e event l event',
  get String.eqb (_events (assign e event l)) event'
    = if (event =? event')%string then Some (next_array e)
      else get String.eqb (_events e) event'.
Proof.
  intros e event l event'. unfold assign. cbn [_events].
  destruct (String.eqb_spec event event') as [<-|Hne].
  - now rewrite (get_set_same _ String.eqb_spec).
  - now rewrite (get_set_other _ String.eqb_spec) by assumption.
Qed.

Lemma events_remove : forall e event event',
  get String.eqb (_events (remove e event)) event'
    = if (event =? event')%string then None else get String.eqb (_events e) event'.
Proof.
  intros e event event'. unfold remove. cbn [_events].
  destruct (String.eqb_spec event event') as [<-|Hne].
  - now rewrite (get_delete_same _ String.eqb_spec).
  - now rewrite (get_delete_other _ String.eqb_spec) by assumption.
Qed.

(** *** The invariant *)

Lemma NoDup_map_filter : forall (p : listener -> bool) arr,
  NoDup (map lid arr) -> NoDup (map lid (filter p arr)).
Proof.
  intros p. induction arr as [|l arr IH]; intros Hnd; [constructor|].
  cbn in *. inversion Hnd as [|? ? Hnotin Hnd']; subst.
  destruct (p l); [|now apply IH]. cbn. constructor; [|now apply IH].
  intros Hin. apply Hnotin. apply in_map_iff in Hin. destruct Hin as (x & Hx & Hin).
  apply filter_In in Hin. apply in_map_iff. exists x. tauto.
Qed.

Lemma Forall_filter : forall (P : listener -> Prop) (p : listener -> bool) arr,
  Forall P arr -> Forall P (filter p arr).
Proof.
  intros P p arr H. rewrite Forall_forall in *. intros x Hin.
  apply filter_In in Hin. now apply H.
Qed.

Lemma well_formed_new : forall proto, well_formed (new_emitter proto).
Proof.
  intros proto. split; [|split].
  - intros event r H. discriminate.
  - intros event event' r H. discriminate.
  - intros r. cbn. split; constructor.
Qed.

Lemma well_formed_push : forall e r entry,
  well_formed e -> lid entry = fresh e -> well_formed (push e r entry).
Proof.
  intros e r entry (Hmap & Hinj & Harr) Hlid. split; [|split].
  - intros event r' Hget. cbn [push _events next_array] in *.
    destruct (Hmap _ _ Hget) as (Hne & Hlt). split; [|exact Hlt].
    rewrite content_push. destruct (Nat.eqb r r'); [|exact Hne].
    now destruct (content e r).
  - exact Hinj.
  - intros r'. rewrite content_push. cbn [push fresh].
    destruct (Nat.eqb r r').
    + destruct (Harr r) as (Hnd & Hlt). split.
      * rewrite map_app. cbn. apply NoDup_app; [exact Hnd | repeat constructor; auto |].
        intros x Hin [Hx|[]]. subst x. apply in_map_iff in Hin.
        destruct Hin as (l & Hl & Hin). rewrite Forall_forall in Hlt.
        specialize (Hlt l Hin). lia.
      * apply Forall_app. split.
        -- eapply Forall_impl; [|exact Hlt]. cbn. intros; lia.
        -- constructor; [lia | constructor].
    + destruct (Harr r') as (Hnd & Hlt). split; [exact Hnd|].
      eapply Forall_impl; [|exact Hlt]. cbn. intros; lia.
Qed.

(** An array that is new and whose entries are old may be stored. *)
Lemma well_formed_stored : forall e event e',
  well_formed e ->
  (forall event', get String.eqb (_events e') event'
     = if (event =? event')%string then Some (next_array e)
       else get String.eqb (_events e) event') ->
  next_array e' = S (next_array e) ->
  (forall r, r <> next_array e -> content e' r = content e r) ->
  content e' (next_array e) <> [] ->
  NoDup (map lid (content e' (next_array e))) ->
  Forall (fun x => (lid x < fresh e')%nat) (content e' (next_array e)) ->
  (fresh e <= fresh e')%nat ->
  well_formed e'.
Proof.
  intros e event e' (Hmap & Hinj & Harr) Hev Hnext Hold Hne Hnd Hlt Hfresh.
  split; [|split].
  - intros event' r Hget. rewrite Hev in Hget. rewrite Hnext.
    destruct (event =? event')%string.
    + inversion Hget; subst r. split; [exact Hne | lia].
    + destruct (Hmap _ _ Hget) as (Hne' & Hlt').
      rewrite Hold by lia. split; [exact Hne' | lia].
  - intros ev1 ev2 r H1 H2. rewrite Hev in H1, H2.
    destruct (String.eqb_spec event ev1) as [<-|N1], (String.eqb_spec event ev2) as [<-|N2].
    + reflexivity.
    + inversion H1; subst r. destruct (Hmap _ _ H2) as (_ & Hlt'). lia.
    + inversion H2; subst r. destruct (Hmap _ _ H1) as (_ & Hlt'). lia.
    + exact (Hinj _ _ _ H1 H2).
  - intros r. destruct (Nat.eq_dec r (next_array e)) as [->|Hr].
    + split; assumption.
    + rewrite Hold by assumption. destruct (Harr r) as (Hnd' & Hlt').
      split; [exact Hnd'|]. eapply Forall_impl; [|exact Hlt']. cbn. intros; lia.
Qed.

Lemma well_formed_assign : forall e event l,
  well_formed e -> l <> [] -> NoDup (map lid l) ->
  Forall (fun x => (lid x < fresh e)%nat) l ->
  well_formed (assign e event l).
Proof.
  intros e event l Hwf Hne Hnd Hlt.
  apply (well_formed_stored e event); try assumption.
  - intros event'. apply events_assign.
  - reflexivity.
  - intros r Hr. rewrite content_assign.
    destruct (Nat.eqb_spec (next_array e) r); [congruence | reflexivity].
  - rewrite content_assign, Nat.eqb_refl. exact Hne.
  - rewrite content_assign, Nat.eqb_refl. exact Hnd.
  - rewrite content_assign, Nat.eqb_refl. exact Hlt.
  - cbn. lia.
Qed.

Lemma well_formed_remove : forall e event, well_formed e -> well_formed (remove e event).
Proof.
  intros e event (Hmap & Hinj & Harr). split; [|split; [|exact Harr]].
  - intros event' r Hget. rewrite events_remove in Hget.
    destruct (event =? event')%string; [discriminate|]. exact (Hmap _ _ Hget).
  - intros ev1 ev2 r H1 H2. rewrite events_remove in H1, H2.
    destruct (event =? ev1)%string; [discriminate|].
    destruct (event =? ev2)%string; [discriminate|]. exact (Hinj _ _ _ H1 H2).
Qed.

Lemma well_formed_keep : forall e event (p : listener -> bool) r,
  well_formed e -> well_formed (keep e event (filter p (content e r))).
Proof.
  intros e event p r Hwf. unfold keep.
  destruct (filter p (content e r)) as [|x rest] eqn:Hf; cbn [is_empty].
  - now apply well_formed_remove.
  - rewrite <- Hf. pose proof Hwf as (Hmap & Hinj & Harr).
    destruct (Harr r) as (Hnd & Hlt).
    apply well_formed_assign; [exact Hwf | rewrite Hf; discriminate | |].
    + now apply NoDup_map_filter.
    + now apply Forall_filter.
Qed.

Lemma well_formed_advance : forall n e, well_formed e -> well_formed (advance n e).
Proof. intros n e Hwf. exact Hwf. Qed.

Lemma content_created : forall e event entry r,
  content (push (assign e event []) (next_array e) entry) r
    = if Nat.eqb (next_array e) r then [entry] else content e r.
Proof.
  intros e event entry r. rewrite content_push.
  destruct (Nat.eqb_spec (next_array e) r) as [Heq|Hne].
  - rewrite content_assign, Nat.eqb_refl. reflexivity.
  - rewrite content_assign. destruct (Nat.eqb_spec (next_array e) r); [contradiction|].
    reflexivity.
Qed.

Lemma well_formed_register : forall e event h c o,
  well_formed e -> well_formed (fst (register e event h c o)).
Proof.
  intros e event h c o Hwf. unfold register.
  destruct (negb (_isString event) || negb (_isFunction h)); [exact Hwf|].
  destruct (lookup e (chars event)) as [r|p|]; cbn [fst]; [| exact Hwf |].
  - now apply well_formed_push.
  - apply (well_formed_stored e (chars event)); try assumption.
    + intros event'. apply events_assign.
    + reflexivity.
    + intros r Hr. rewrite content_created.
      destruct (Nat.eqb_spec (next_array e) r); [congruence | reflexivity].
    + rewrite content_created, Nat.eqb_refl. discriminate.
    + rewrite content_created, Nat.eqb_refl. cbn.
      constructor; [intros Hin; destruct Hin | constructor].
    + rewrite content_created, Nat.eqb_refl.
      constructor; [cbn; lia | constructor].
    + cbn. lia.
Qed.

Lemma well_formed_off : forall e event h,
  well_formed e -> well_formed (fst (off e event h)).
Proof.
  intros e event h Hwf. unfold off.
  destruct (negb (_isString event)); [exact Hwf|].
  destruct (lookup e (chars event)) as [r|p|]; cbn [fst]; [| | exact Hwf].
  - destruct h; cbn [fst]; try (now apply well_formed_keep).
    now apply well_formed_remove.
  - destruct h; cbn [fst]; try exact Hwf; destruct p as [[|n]|]; exact Hwf.
Qed.

Lemma well_formed_removeAll : forall e,
  well_formed e -> well_formed (fst (removeAllListeners e)).
Proof.
  intros e (Hmap & Hinj & Harr). split; [|split; [|exact Harr]].
  - intros event r H. discriminate.
  - intros event event' r H. discriminate.
Qed.

Section Preservation.
Variable code : nat -> nat -> behaviour.
Variable step : EventEmitter -> operation -> option effect.
Hypothesis step_preserves : forall e o e' calls c,
  well_formed e -> step e o = Some (e', calls, c) -> well_formed e'.

Lemma well_formed_perform : forall ops e e' calls,
  well_formed e -> perform step ops e = Some (e', calls) -> well_formed e'.
Proof.
  induction ops as [|o ops IH]; intros e e' calls Hwf Hrun; cbn in Hrun.
  - now inversion Hrun; subst.
  - destruct (step e o) as [[[e1 calls1] c1]|] eqn:Hstep; [|discriminate].
    destruct (perform step ops e1) as [[e2 calls2]|] eqn:Hrest; [|discriminate].
    inversion Hrun; subst. eapply IH; [|exact Hrest].
    eapply step_preserves; eauto.
Qed.

Lemma well_formed_call_listener : forall l args e e' calls c,
  well_formed e -> call_listener code step l args e = Some (e', calls, c) ->
  well_formed e'.
Proof.
  intros l args e e' calls c Hwf Hcall. unfold call_listener in Hcall.
  destruct (perform step _ (tick e)) as [[e1 calls1]|] eqn:Hrun; [|discriminate].
  inversion Hcall; subst. eapply well_formed_perform; [|exact Hrun].
  now apply well_formed_advance.
Qed.

Lemma well_formed_call_all : forall ls args e e' calls c,
  well_formed e -> call_all code step ls args e = Some (e', calls, c) ->
  well_formed e'.
Proof.
  induction ls as [|l ls IH]; intros args e e' calls c Hwf Hall; cbn in Hall.
  - now inversion Hall; subst.
  - destruct (call_listener code step l args e) as [[[e1 calls1] [|x]]|] eqn:Hcall;
      [| |discriminate].
    + destruct (call_all code step ls args e1) as [[[e2 calls2] c2]|] eqn:Hrest;
        [|discriminate].
      inversion Hall; subst. eapply IH; [|exact Hrest].
      eapply well_formed_call_listener; eauto.
    + inversion Hall; subst. eapply well_formed_call_listener; eauto.
Qed.

Lemma well_formed_emit : forall e event args e' calls c,
  well_formed e -> emit code step e event args = Some (e', calls, c) ->
  well_formed e'.
Proof.
  intros e event args e' calls c Hwf Hemit. unfold emit in Hemit.
  destruct (lookup e event) as [r|[[|n]|]|];
    try (inversion Hemit; subst; exact Hwf).
  destruct (is_empty (content e r)); [inversion Hemit; subst; exact Hwf|].
  destruct (call_all code step (content e r) args e) as [[[e1 calls1] [|x]]|] eqn:Hall;
    [| |discriminate].
  - pose proof (well_formed_call_all _ _ _ _ _ _ Hwf Hall) as Hwf1.
    destruct (is_empty (filter once (content e r))).
    + now inversion Hemit; subst.
    + inversion Hemit; subst. now apply well_formed_keep.
  - inversion Hemit; subst. eapply well_formed_call_all; eauto.
Qed.
End Preservation.

Lemma well_formed_exec : forall code fuel e o e' calls c,
  well_formed e -> exec code fuel e o = Some (e', calls, c) -> well_formed e'.
Proof.
  intros code. induction fuel as [|fuel IH]; intros e o e' calls c Hwf Hexec;
    [discriminate|].
  cbn [exec] in Hexec. destruct o as [ev h cx|ev h cx|ev h|ev args|].
  - unfold returned, on in Hexec. inversion Hexec; subst.
    now apply well_formed_register.
  - unfold returned, once_ in Hexec. inversion Hexec; subst.
    now apply well_formed_register.
  - unfold returned in Hexec. inversion Hexec; subst. now apply well_formed_off.
  - eapply well_formed_emit; [exact IH | exact Hwf | exact Hexec].
  - unfold returned in Hexec. inversion Hexec; subst. now apply well_formed_removeAll.
Qed.

Lemma emitter_invariant_holds : forall code proto fuel ops e,
  run code fuel (new_emitter proto) ops = Some e -> well_formed e.
Proof.
  intros code proto fuel ops e Hrun. unfold run in Hrun.
  destruct (perform _ ops (new_emitter proto)) as [[e' calls]|] eqn:Hbody;
    [|discriminate].
  inversion Hrun; subst e'.
  eapply well_formed_perform; [|apply well_formed_new|exact Hbody].
  intros e0 o e1 calls0 c Hwf Hexec. eapply well_formed_exec; eauto.
Qed.

(** *** What the operations leave registered *)

Lemma listeners_of_assign_same : forall e event l,
  listeners_of (assign e event l) event = l.
Proof.
  intros e event l. unfold listeners_of.
  rewrite events_assign, String.eqb_refl, content_assign, Nat.eqb_refl. reflexivity.
Qed.

Lemma listeners_of_assign_other : forall e event l event',
  well_formed e -> event <> event' ->
  listeners_of (assign e event l) event' = listeners_of e event'.
Proof.
  intros e event l event' (Hmap & _) Hne. unfold listeners_of.
  rewrite events_assign. destruct (String.eqb_spec event event'); [contradiction|].
  destruct (get String.eqb (_events e) event') as [r|] eqn:Hget; [|reflexivity].
  rewrite content_assign. destruct (Hmap _ _ Hget) as (_ & Hlt).
  destruct (Nat.eqb_spec (next_array e) r); [lia | reflexivity].
Qed.

Lemma listeners_of_remove : forall e event event',
  listeners_of (remove e event) event'
    = if (event =? event')%string then [] else listeners_of e event'.
Proof.
  intros e event event'. unfold listeners_of. rewrite events_remove.
  destruct (event =? event')%string; reflexivity.
Qed.

Lemma listeners_of_keep : forall e event remaining event',
  well_formed e ->
  listeners_of (keep e event remaining) event'
    = if (event =? event')%string then remaining else listeners_of e event'.
Proof.
  intros e event remaining event' Hwf. unfold keep.
  destruct remaining as [|x rest]; cbn [is_empty].
  - rewrite listeners_of_remove. destruct (event =? event')%string; reflexivity.
  - destruct (String.eqb_spec event event') as [<-|Hne].
    + apply listeners_of_assign_same.
    + now apply listeners_of_assign_other.
Qed.

Lemma lookup_own_or_missing : forall e event,
  prototype e event = None ->
  lookup e event = match get String.eqb (_events e) event with
                   | Some r => Own r
                   | None => Missing
                   end.
Proof.
  intros e event Hp. unfold lookup. rewrite Hp. reflexivity.
Qed.

(** The entries after [on] or [once], for a name that is not inherited. *)
Lemma listeners_of_register : forall e ev f c o event,
  well_formed e -> prototype e ev = None ->
  snd (register e (JString ev) (Function f) c o) = Normal /\
  prototype (fst (register e (JString ev) (Function f) c o)) = prototype e /\
  listeners_of (fst (register e (JString ev) (Function f) c o)) event
    = if (ev =? event)%string
      then (listeners_of e event ++ [mkListener (fresh e) f c o])%list
      else listeners_of e event.
Proof.
  intros e ev f c o event Hwf Hp. unfold register. cbn [_isString _isFunction negb orb chars].
  rewrite (lookup_own_or_missing _ _ Hp). cbn [function_id].
  destruct (get String.eqb (_events e) ev) as [r|] eqn:Hget; cbn [fst snd].
  - split; [reflexivity|]. split; [reflexivity|].
    unfold listeners_of. cbn [push _events].
    destruct (String.eqb_spec ev event) as [<-|Hne].
    + rewrite Hget, content_push, Nat.eqb_refl. reflexivity.
    + destruct (get String.eqb (_events e) event) as [r'|] eqn:Hget'; [|reflexivity].
      rewrite content_push. destruct (Nat.eqb_spec r r') as [<-|]; [|reflexivity].
      destruct Hwf as (_ & Hinj & _). now specialize (Hinj _ _ _ Hget Hget').
  - split; [reflexivity|]. split; [reflexivity|].
    unfold listeners_of.
    change (_events (push (assign e ev []) (next_array e) (mkListener (fresh e) f c o)))
      with (_events (assign e ev [])).
    rewrite events_assign.
    destruct (String.eqb_spec ev event) as [<-|Hne].
    + rewrite Hget, content_created, Nat.eqb_refl. reflexivity.
    + destruct (get String.eqb (_events e) event) as [r'|] eqn:Hget'; [|reflexivity].
      rewrite content_created. destruct Hwf as (Hmap & _).
      destruct (Hmap _ _ Hget') as (_ & Hlt).
      destruct (Nat.eqb_spec (next_array e) r'); [lia | reflexivity].
Qed.

(** The entries after [off], for a name that is not inherited. *)
Lemma listeners_of_off : forall e ev h event,
  well_formed e -> prototype e ev = None ->
  snd (off e (JString ev) h) = Normal /\
  prototype (fst (off e (JString ev) h)) = prototype e /\
  listeners_of (fst (off e (JString ev) h)) event
    = if (ev =? event)%string
      then match h with
           | Falsy => []
           | _ => filter (fun entry => differs entry h) (listeners_of e event)
           end
      else listeners_of e event.
Proof.
  intros e ev h event Hwf Hp. unfold off. cbn [_isString negb chars].
  rewrite (lookup_own_or_missing _ _ Hp).
  destruct (get String.eqb (_events e) ev) as [r|] eqn:Hget.
  - assert (Hl : listeners_of e ev = content e r)
      by (unfold listeners_of; now rewrite Hget).
    destruct h as [f| |]; cbn [fst snd]; (split; [reflexivity|]);
      (split; [unfold keep; try destruct (is_empty _); reflexivity|]).
    + rewrite listeners_of_keep by assumption.
      destruct (String.eqb_spec ev event) as [<-|]; [now rewrite Hl | reflexivity].
    + rewrite listeners_of_keep by assumption.
      destruct (String.eqb_spec ev event) as [<-|]; [now rewrite Hl | reflexivity].
    + apply listeners_of_remove.
  - cbn [fst snd]. split; [reflexivity|]. split; [reflexivity|].
    destruct (String.eqb_spec ev event) as [<-|]; [|reflexivity].
    assert (Hl : listeners_of e ev = []) by (unfold listeners_of; now rewrite Hget).
    rewrite Hl. now destruct h.
Qed.

(** *** Listeners that return and leave the emitter alone *)

Lemma advance_tick : forall n e, advance n (tick e) = advance (S n) e.
Proof.
  intros n e. unfold tick, advance. cbn. f_equal. lia.
Qed.

Lemma advance_zero : forall e, advance 0 e = e.
Proof. intros [ev ar na fr cl pr]. reflexivity. Qed.

Section Quiet.
Variable code : nat -> nat -> behaviour.
Variable step : EventEmitter -> operation -> option effect.

Lemma call_all_prefix : forall pre rest args e,
  (forall l n, In l pre -> code n (fn l) = quiet) ->
  call_all code step (pre ++ rest) args e
    = match call_all code step rest args (advance (List.length pre) e) with
      | Some (e', calls, c) =>
          Some (e', (map (fun l => (fn l, ctx l, args)) pre ++ calls)%list, c)
      | None => None
      end.
Proof.
  induction pre as [|l pre IH]; intros rest args e Hq.
  - cbn [app List.length map]. rewrite advance_zero.
    destruct (call_all code step rest args e) as [[[e' calls] c]|]; reflexivity.
  - cbn [app call_all]. unfold call_listener.
    rewrite (Hq l (clock e)) by now left. cbn [does throws quiet perform].
    rewrite IH by (intros l' n Hin; apply Hq; now right).
    cbn [List.length]. rewrite advance_tick.
    destruct (call_all code step rest args _) as [[[e' calls] c]|]; reflexivity.
Qed.

Lemma call_all_quiet : forall ls args e,
  (forall l n, In l ls -> code n (fn l) = quiet) ->
  call_all code step ls args e
    = Some (advance (List.length ls) e, map (fun l => (fn l, ctx l, args)) ls, Normal).
Proof.
  intros ls args e Hq.
  rewrite <- (app_nil_r ls) at 1. rewrite call_all_prefix by assumption.
  cbn. now rewrite app_nil_r.
Qed.

Lemma call_all_thrower : forall pre l post args e x,
  (forall l' n, In l' pre -> code n (fn l') = quiet) ->
  (forall n, code n (fn l) = mkBehaviour [] (Some x)) ->
  call_all code step (pre ++ l :: post) args e
    = Some (advance (S (List.length pre)) e,
            map (fun l => (fn l, ctx l, args)) (pre ++ [l]), Abrupt x).
Proof.
  intros pre l post args e x Hq Hthrow.
  rewrite call_all_prefix by assumption. cbn [call_all]. unfold call_listener.
  rewrite Hthrow. cbn [does throws perform]. rewrite map_app.
  reflexivity.
Qed.

Lemma removed_iff_once : forall arr entry,
  NoDup (map lid arr) -> In entry arr ->
  existsb (fun r => Nat.eqb (lid r) (lid entry)) (filter once arr) = once entry.
Proof.
  intros arr entry Hnd Hin.
  destruct (once entry) eqn:Ho.
  - apply existsb_exists. exists entry. split; [|apply Nat.eqb_refl].
    apply filter_In. auto.
  - apply Bool.not_true_is_false. intros Hex. apply existsb_exists in Hex.
    destruct Hex as (r & Hr & Heq). apply filter_In in Hr. destruct Hr as (Hr & Hor).
    apply Nat.eqb_eq in Heq.
    assert (r = entry); [|congruence].
    clear Hor Ho. induction arr as [|a arr IH]; [destruct Hin|].
    cbn in Hnd. inversion Hnd as [|? ? Hnotin Hnd']; subst.
    destruct Hin as [->|Hin], Hr as [->|Hr]; auto.
    + exfalso. apply Hnotin. rewrite <- Heq. now apply in_map.
    + exfalso. apply Hnotin. rewrite Heq. now apply in_map.
Qed.

Lemma filter_ext_in_listener : forall (p q : listener -> bool) arr,
  (forall x, In x arr -> p x = q x) -> filter p arr = filter q arr.
Proof.
  intros p q. induction arr as [|a arr IH]; intros H; [reflexivity|].
  cbn. rewrite (H a (or_introl eq_refl)), IH; [reflexivity|].
  intros x Hx. apply H. now right.
Qed.

Lemma filter_none_once : forall arr : list listener,
  filter once arr = [] -> filter (fun l => negb (once l)) arr = arr.
Proof.
  induction arr as [|a arr IH]; intros H; [reflexivity|].
  cbn in *. destruct (once a); [discriminate|]. cbn. now rewrite IH.
Qed.

(** An [emit] whose listeners are quiet calls them all, in order, and
    removes the one-time entries. *)
Lemma emit_quiet : forall e event args,
  well_formed e -> prototype e event = None ->
  (forall l n, In l (listeners_of e event) -> code n (fn l) = quiet) ->
  exists e',
    emit code step e event args
      = Some (e', map (fun l => (fn l, ctx l, args)) (listeners_of e event), Normal) /\
    well_formed e' /\ prototype e' = prototype e /\
    forall event',
      listeners_of e' event'
        = if (event =? event')%string
          then filter (fun l => negb (once l)) (listeners_of e event')
          else listeners_of e event'.
Proof.
  intros e event args Hwf Hp Hq. unfold emit.
  rewrite (lookup_own_or_missing _ _ Hp). unfold listeners_of in Hq |- * at 1.
  destruct (get String.eqb (_events e) event) as [r|] eqn:Hget.
  2:{ exists e. split; [reflexivity|]. split; [exact Hwf|]. split; [reflexivity|].
      intros event'. destruct (String.eqb_spec event event') as [<-|]; [|reflexivity].
      unfold listeners_of. now rewrite Hget. }
  pose proof Hwf as (Hmap & _ & Harr).
  destruct (Hmap _ _ Hget) as (Hne & _). destruct (Harr r) as (Hnd & _).
  destruct (content e r) as [|l0 ls] eqn:Hc; [contradiction|]. cbn [is_empty].
  rewrite call_all_quiet by assumption.
  set (n := List.length (l0 :: ls)).
  assert (Hcontent : content (advance n e) r = l0 :: ls) by exact Hc.
  assert (Hsame : forall event', listeners_of (advance n e) event' = listeners_of e event')
    by reflexivity.
  assert (Hevent : listeners_of e event = l0 :: ls)
    by (unfold listeners_of; now rewrite Hget).
  destruct (filter once (l0 :: ls)) as [|x rest] eqn:Honce; cbn [is_empty].
  - exists (advance n e). split; [reflexivity|]. split; [exact Hwf|].
    split; [reflexivity|]. intros event'. rewrite Hsame.
    destruct (String.eqb_spec event event') as [<-|]; [|reflexivity].
    rewrite Hevent. symmetry. now apply filter_none_once.
  - rewrite <- Honce, Hcontent.
    assert (Hfilter : filter (fun entry =>
                negb (existsb (fun r => Nat.eqb (lid r) (lid entry))
                        (filter once (l0 :: ls)))) (l0 :: ls)
              = filter (fun l => negb (once l)) (l0 :: ls)).
    { apply filter_ext_in_listener. intros y Hy. now rewrite removed_iff_once. }
    rewrite Hfilter.
    eexists. split; [reflexivity|]. split; [|split].
    + rewrite <- Hcontent. apply well_formed_keep. now apply well_formed_advance.
    + unfold keep. destruct (is_empty _); reflexivity.
    + intros event'. rewrite listeners_of_keep by now apply well_formed_advance.
      rewrite Hsame.
      destruct (String.eqb_spec event event') as [<-|]; [|reflexivity].
      now rewrite Hevent.
Qed.

(** An [emit] in which a listener throws ends there: the listeners after it
    are not called and nothing is removed. *)
Lemma emit_thrower : forall e event args pre l post x,
  well_formed e ->
  get String.eqb (_events e) event <> None ->
  listeners_of e event = (pre ++ l :: post)%list ->
  (forall l' n, In l' pre -> code n (fn l') = quiet) ->
  (forall n, code n (fn l) = mkBehaviour [] (Some x)) ->
  emit code step e event args
    = Some (advance (S (List.length pre)) e,
            map (fun l => (fn l, ctx l, args)) (pre ++ [l]), Abrupt x).
Proof.
  intros e event args pre l post x Hwf Hown Hls Hq Hthrow. unfold emit, lookup.
  unfold listeners_of in Hls.
  destruct (get String.eqb (_events e) event) as [r|] eqn:Hget; [|contradiction].
  rewrite Hls. destruct (pre ++ l :: post)%list eqn:Happ;
    [destruct pre; discriminate|].
  cbn [is_empty]. rewrite <- Happ.
  now rewrite (call_all_thrower pre l post args e x Hq Hthrow).
Qed.
End Quiet.

Lemma map_filter_commute : forall (A B : Type) (g : A -> B) (p : A -> bool)
    (q : B -> bool) (l : list A),
  (forall x, p x = q (g x)) -> map g (filter p l) = filter q (map g l).
Proof.
  intros A B g p q l H. induction l as [|a l IH]; [reflexivity|].
  cbn [filter map]. rewrite <- H. destruct (p a); cbn [map]; now rewrite IH.
Qed.

(** X12.  For an event whose name [_events] does not inherit, and with
    listeners that return without touching the emitter: a listener
    registered with [on] is called by the next [emit] of that event after all
    the listeners registered before it, with the [this] it was registered
    with and the arguments emitted, and the listeners of other events stay as
    they were.  For a name that [_events] inherits from [Object.prototype]
    and does not hold itself, [on] and [once] throw a [TypeError] and
    register nothing. *)
Theorem on_then_emit :
  forall (code : nat -> nat -> behaviour) (fuel : nat) (e : EventEmitter) (ev : string)
         (f : nat) (c : option nat) (args : list string),
    well_formed e ->
    (prototype e ev = None ->
     (forall l n, In l (listeners_of e ev) -> code n (fn l) = quiet) ->
     (forall n, code n f = quiet) ->
     snd (on e (JString ev) (Function f) c) = Normal /\
     (exists e2,
        exec code (S fuel) (fst (on e (JString ev) (Function f) c)) (Emit ev args)
          = Some (e2,
                  (map (fun l => (fn l, ctx l, args)) (listeners_of e ev)
                     ++ [(f, c, args)])%list,
                  Normal)) /\
     (forall event, event <> ev ->
        listeners_of (fst (on e (JString ev) (Function f) c)) event
          = listeners_of e event)) /\
    (forall p, lookup e ev = Inherited p ->
       on e (JString ev) (Function f) c = (e, Abrupt (not_a_function "events.push")) /\
       once_ e (JString ev) (Function f) c = (e, Abrupt (not_a_function "events.push"))).
Proof.
  intros code fuel e ev f c args Hwf. split.
  - intros Hp Hq Hf. unfold on.
    destruct (listeners_of_register e ev f c false ev Hwf Hp) as (Hn & Hp1 & Hl).
    rewrite String.eqb_refl in Hl.
    split; [exact Hn|]. split.
    + pose proof (well_formed_register e (JString ev) (Function f) c false Hwf) as Hwf1.
      destruct (emit_quiet code (exec code fuel) _ ev args Hwf1) as (e2 & He2 & _).
      * now rewrite Hp1.
      * intros l n Hin. rewrite Hl in Hin. apply in_app_or in Hin.
        destruct Hin as [Hin|[<-|[]]]; [now apply Hq | apply Hf].
      * exists e2. cbn [exec]. rewrite He2, Hl, map_app. reflexivity.
    + intros event Hne.
      destruct (listeners_of_register e ev f c false event Hwf Hp) as (_ & _ & Hl').
      rewrite Hl'. destruct (String.eqb_spec ev event); [congruence | reflexivity].
  - intros p Hlook. unfold on, once_, register.
    cbn [_isString _isFunction negb orb chars]. rewrite Hlook. split; reflexivity.
Qed.

Lemma on_then_emit_witness :
  (exists e2,
     exec quiet_code 1
       (fst (on two_listeners (JString "success") (Function 3) (Some 5%nat)))
       (Emit "success" ["hi"])
       = Some (e2, [(1%nat, None, ["hi"]); (2%nat, None, ["hi"]);
                    (3%nat, Some 5%nat, ["hi"])], Normal)) /\
  on two_listeners (JString "toString") (Function 3) None
    = (two_listeners, Abrupt (not_a_function "events.push")).
Proof.
  assert (Hwf : well_formed two_listeners)
    by (apply well_formed_register, well_formed_register, well_formed_new).
  split.
  - destruct (proj1 (on_then_emit quiet_code 0 two_listeners "success" 3 (Some 5%nat)
                       ["hi"] Hwf) eq_refl (fun _ _ _ => eq_refl) (fun _ => eq_refl))
      as (_ & H & _).
    exact H.
  - apply (proj2 (on_then_emit quiet_code 0 two_listeners "toString" 3 None [] Hwf)
             (InheritedFunction 0)).
    reflexivity.
Defined.

(** X13.  From a new emitter, whatever is registered, removed and emitted,
    and whatever the listeners do when they are called (register, remove and
    emit in turn, throw), no event is ever left mapped to an empty array, no
    two events share an array and no entry is ever stored twice in an
    array. *)
Theorem emitter_invariant :
  forall (code : nat -> nat -> behaviour) (proto : string -> option inherited_property)
         (fuel : nat) (ops : list operation) (e : EventEmitter),
    run code fuel (new_emitter proto) ops = Some e -> well_formed e.
Proof. exact emitter_invariant_holds. Qed.

Lemma emitter_invariant_witness :
  exists e,
    run meddling_code 2 (new_emitter object_prototype)
      [Once (JString "success") (Function 3) None;
       On (JString "success") (Function 1) None;
       Emit "success" ["hi"]] = Some e /\
    listeners_of e "success" = [mkListener 1 1 None false] /\
    well_formed e.
Proof.
  eexists. split; [reflexivity|]. split; [reflexivity|].
  apply (emitter_invariant meddling_code object_prototype 2
           [Once (JString "success") (Function 3) None;
            On (JString "success") (Function 1) None;
            Emit "success" ["hi"]]).
  reflexivity.
Defined.

(** X14.  For an event whose name [_events] does not inherit, and with
    listeners that return without touching the emitter: a listener
    registered with [once] is called by the first [emit] of its event and by
    no later one; a second [emit] calls exactly the listeners registered with
    [on], in their order, and removes nothing more.  But when a listener
    throws, [emit] ends with its exception there and then: the listeners
    after it are not called and nothing is removed, so that a one-time
    listener called before it stays registered. *)
Theorem once_fires_once :
  forall (code : nat -> nat -> behaviour) (fuel : nat) (e : EventEmitter)
         (event : string) (args args' : list string),
    well_formed e ->
    (prototype e event = None ->
     (forall l n, In l (listeners_of e event) -> code n (fn l) = quiet) ->
     exists e1 e2,
       exec code (S fuel) e (Emit event args)
         = Some (e1, map (fun l => (fn l, ctx l, args)) (listeners_of e event), Normal) /\
       exec code (S fuel) e1 (Emit event args')
         = Some (e2,
                 map (fun l => (fn l, ctx l, args'))
                   (filter (fun l => negb (once l)) (listeners_of e event)),
                 Normal) /\
       listeners_of e1 event = filter (fun l => negb (once l)) (listeners_of e event) /\
       listeners_of e2 event = listeners_of e1 event) /\
    (forall pre l post x,
       listeners_of e event = (pre ++ l :: post)%list ->
       (forall l' n, In l' pre -> code n (fn l') = quiet) ->
       (forall n, code n (fn l) = mkBehaviour [] (Some x)) ->
       exists e1,
         exec code (S fuel) e (Emit event args)
           = Some (e1, map (fun l => (fn l, ctx l, args)) (pre ++ [l]), Abrupt x) /\
         listeners_of e1 event = listeners_of e event).
Proof.
  intros code fuel e event args args' Hwf. split.
  - intros Hp Hq.
    destruct (emit_quiet code (exec code fuel) e event args Hwf Hp Hq)
      as (e1 & He1 & Hwf1 & Hp1 & Hl1).
    specialize (Hl1 event). rewrite String.eqb_refl in Hl1.
    destruct (emit_quiet code (exec code fuel) e1 event args' Hwf1)
      as (e2 & He2 & _ & _ & Hl2).
    + now rewrite Hp1.
    + intros l n Hin. rewrite Hl1 in Hin. apply filter_In in Hin. now apply Hq.
    + specialize (Hl2 event). rewrite String.eqb_refl in Hl2.
      exists e1, e2. cbn [exec]. rewrite He1, He2, Hl1.
      split; [reflexivity|]. split; [reflexivity|]. split; [reflexivity|].
      rewrite Hl2, Hl1. clear.
      induction (listeners_of e event) as [|a r IH]; [reflexivity|].
      cbn. destruct (once a) eqn:Ho; cbn; [exact IH|]. rewrite Ho. cbn. now rewrite IH.
  - intros pre l post x Hls Hq Hthrow. eexists. split.
    + cbn [exec]. apply (emit_thrower code (exec code fuel) e event args pre l post x);
        try assumption.
      unfold listeners_of in Hls.
      destruct (get String.eqb (_events e) event); [discriminate|].
      destruct pre; discriminate.
    + reflexivity.
Qed.

Lemma once_fires_once_witness :
  (exists e1 e2,
     exec quiet_code 1 two_listeners (Emit "success" ["a"])
       = Some (e1, [(1%nat, None, ["a"]); (2%nat, None, ["a"])], Normal) /\
     exec quiet_code 1 e1 (Emit "success" ["b"])
       = Some (e2, [(2%nat, None, ["b"])], Normal)) /\
  (exists e1,
     exec failing_code 1 two_listeners (Emit "success" ["a"])
       = Some (e1, [(1%nat, None, ["a"]); (2%nat, None, ["a"])],
               Abrupt (TypeError "listener failed")) /\
     listeners_of e1 "success" = listeners_of two_listeners "success").
Proof.
  assert (Hwf : well_formed two_listeners)
    by (apply well_formed_register, well_formed_register, well_formed_new).
  split.
  - destruct (proj1 (once_fires_once quiet_code 0 two_listeners "success" ["a"] ["b"] Hwf)
                eq_refl (fun _ _ _ => eq_refl)) as (e1 & e2 & H1 & H2 & _).
    exists e1, e2. split; [exact H1 | exact H2].
  - destruct (proj2 (once_fires_once failing_code 0 two_listeners "success" ["a"] [] Hwf)
                [mkListener 0 1 None true] (mkListener 1 2 None false) []
                (TypeError "listener failed") eq_refl) as (e1 & H1 & H2).
    + intros l' n [<-|[]]. reflexivity.
    + intros n. reflexivity.
    + exists e1. split; [exact H1 | exact H2].
Defined.

(** X15.  For an event whose name [_events] does not inherit, and with
    listeners that return without touching the emitter: after
    [off(event, f)] an [emit] of the event no longer calls [f], however many
    times it had been registered, and calls the other listeners as before, in
    the same order; after [off(event)] it calls nothing; the listeners of
    other events are not affected.  For a name that [_events] inherits from
    [Object.prototype] and does not hold itself, nothing is ever removed:
    [off(event)] returns, [off(event, f)] throws a [TypeError] when what is
    inherited is a function with parameters, and [emit(event)] throws one
    unless it is a function without parameters. *)
Theorem off_then_emit :
  forall (code : nat -> nat -> behaviour) (fuel : nat) (e : EventEmitter) (ev : string)
         (f : nat) (h : handler) (args : list string),
    well_formed e ->
    (prototype e ev = None ->
     (forall l n, In l (listeners_of e ev) -> code n (fn l) = quiet) ->
     (exists e2,
        snd (off e (JString ev) (Function f)) = Normal /\
        exec code (S fuel) (fst (off e (JString ev) (Function f))) (Emit ev args)
          = Some (e2,
                  filter (fun c : call => negb (Nat.eqb (fst (fst c)) f))
                    (map (fun l => (fn l, ctx l, args)) (listeners_of e ev)),
                  Normal)) /\
     (snd (off e (JString ev) Falsy) = Normal /\
      exec code (S fuel) (fst (off e (JString ev) Falsy)) (Emit ev args)
        = Some (fst (off e (JString ev) Falsy), [], Normal)) /\
     (forall event, event <> ev ->
        listeners_of (fst (off e (JString ev) h)) event = listeners_of e event)) /\
    (forall p, lookup e ev = Inherited p ->
       off e (JString ev) Falsy = (e, Normal) /\
       (forall n, p = InheritedFunction (S n) ->
          off e (JString ev) (Function f) = (e, Abrupt (undefined_has_no "fn"))) /\
       (p <> InheritedFunction 0 ->
          exec code (S fuel) e (Emit ev args)
            = Some (e, [], Abrupt (not_a_function "events.slice"))) /\
       (p = InheritedFunction 0 ->
          exec code (S fuel) e (Emit ev args) = Some (e, [], Normal))).
Proof.
  intros code fuel e ev f h args Hwf. split.
  - intros Hp Hq. split; [|split].
    + destruct (listeners_of_off e ev (Function f) ev Hwf Hp) as (Hn & Hp1 & Hl).
      rewrite String.eqb_refl in Hl.
      pose proof (well_formed_off e (JString ev) (Function f) Hwf) as Hwf1.
      destruct (emit_quiet code (exec code fuel) _ ev args Hwf1) as (e2 & He2 & _).
      * now rewrite Hp1.
      * intros l n Hin. rewrite Hl in Hin. apply filter_In in Hin. now apply Hq.
      * exists e2. split; [exact Hn|]. cbn [exec]. rewrite He2, Hl.
        rewrite (map_filter_commute _ _ (fun l => (fn l, ctx l, args))
                   (fun entry => differs entry (Function f))
                   (fun c : call => negb (Nat.eqb (fst (fst c)) f)))
          by reflexivity.
        reflexivity.
    + destruct (listeners_of_off e ev Falsy ev Hwf Hp) as (Hn & Hp1 & Hl).
      rewrite String.eqb_refl in Hl. split; [exact Hn|].
      assert (Hp2 : prototype (fst (off e (JString ev) Falsy)) ev = None)
        by now rewrite Hp1.
      cbn [exec]. unfold emit. rewrite (lookup_own_or_missing _ _ Hp2).
      unfold listeners_of in Hl.
      destruct (get String.eqb (_events (fst (off e (JString ev) Falsy))) ev) as [r|];
        [|reflexivity].
      rewrite Hl. reflexivity.
    + intros event Hne.
      destruct (listeners_of_off e ev h event Hwf Hp) as (_ & _ & Hl).
      rewrite Hl. destruct (String.eqb_spec ev event); [congruence | reflexivity].
  - intros p Hlook. split; [|split; [|split]].
    + unfold off. cbn [_isString negb chars]. now rewrite Hlook.
    + intros n ->. unfold off. cbn [_isString negb chars]. now rewrite Hlook.
    + intros Hp. cbn [exec]. unfold emit. rewrite Hlook.
      destruct p as [[|n]|]; [contradiction | reflexivity | reflexivity].
    + intros ->. cbn [exec]. unfold emit. now rewrite Hlook.
Qed.

Lemma off_then_emit_witness :
  (exists e2,
     exec quiet_code 1 (fst (off two_listeners (JString "success") (Function 1)))
       (Emit "success" ["x"])
       = Some (e2, [(2%nat, None, ["x"])], Normal)) /\
  exec quiet_code 1 two_listeners (Emit "constructor" ["x"])
    = Some (two_listeners, [], Abrupt (not_a_function "events.slice")) /\
  exec quiet_code 1 two_listeners (Emit "toString" ["x"])
    = Some (two_listeners, [], Normal).
Proof.
  assert (Hwf : well_formed two_listeners)
    by (apply well_formed_register, well_formed_register, well_formed_new).
  pose proof (off_then_emit quiet_code 0 two_listeners "success" 1 Falsy ["x"] Hwf)
    as (Hown & _).
  pose proof (off_then_emit quiet_code 0 two_listeners "constructor" 1 Falsy ["x"] Hwf)
    as (_ & Hctor).
  pose proof (off_then_emit quiet_code 0 two_listeners "toString" 1 Falsy ["x"] Hwf)
    as (_ & Hstr).
  split; [|split].
  - destruct (Hown eq_refl (fun _ _ _ => eq_refl)) as ((e2 & _ & H) & _).
    exists e2. exact H.
  - destruct (Hctor (InheritedFunction 1) eq_refl) as (_ & _ & H & _).
    apply H. discriminate.
  - destruct (Hstr (InheritedFunction 0) eq_refl) as (_ & _ & _ & H).
    apply H. reflexivity.
Defined.

End EmitterFacts.

(* ================================================================== *)
(** * Properties of the read chain, the support check and cut *)

Module BrowserFacts.
Import Controller WriteChain Browser Scenarios MoreScenarios ControllerFacts.



(** *** Support check *)





(** *** Selection *)

Lemma filter_absent : forall (name : string) (l : list string),
  existsb (String.eqb name) l = false ->
  filter (fun a => negb (String.eqb name a)) l = l.
Proof.
  intros name. induction l as [|a l IH]; intros H; [reflexivity|].
  cbn in *. apply orb_false_elim in H. destruct H as (Ha & Hl).
  rewrite Ha. cbn. now rewrite IH.
Qed.

Lemma selectText_element : forall element,
  snd (fst (selectText element)) = element.
Proof.
  intros element. unfold selectText.
  destruct (nodeName element =? "SELECT")%string; [reflexivity|].
  destruct ((nodeName element =? "INPUT") || (nodeName element =? "TEXTAREA"))%string;
    [|reflexivity].
  cbn [fst snd].
  destruct (hasAttribute element "readonly") eqn:Hro; cbn [negb]; [reflexivity|].
  unfold setAttribute. rewrite Hro. unfold removeAttribute.
  cbn [nodeName value attributes innerHTML selected_text].
  unfold hasAttribute in Hro.
  rewrite filter_app, (filter_absent _ _ Hro). cbn.
  rewrite app_nil_r. now destruct element.
Qed.

(** X18.  [selectText] leaves the element as it found it: the [readonly]
    attribute it sets on an input or a text area while selecting is taken off
    again, and an attribute that was there before stays; for form controls
    the text returned is the value. *)
Theorem selectText_restores_element :
  forall element : Element,
    snd (fst (selectText element)) = element /\
    hasAttribute (snd (fst (selectText element))) "readonly"
      = hasAttribute element "readonly" /\
    (nodeName element = "SELECT" \/ nodeName element = "INPUT" \/
     nodeName element = "TEXTAREA" ->
     fst (fst (selectText element)) = value element).
Proof.
  intros element. pose proof (selectText_element element) as Hel.
  split; [exact Hel|]. split; [now rewrite Hel|].
  intros Hname. unfold selectText in *.
  destruct (nodeName element =? "SELECT")%string eqn:Hs; [reflexivity|].
  destruct ((nodeName element =? "INPUT") || (nodeName element =? "TEXTAREA"))%string eqn:Hi.
  - cbn [fst snd] in *. now rewrite Hel.
  - destruct Hname as [H|[H|H]]; rewrite H in *; discriminate.
Qed.

(** *** Cut *)

Lemma copyText_returns : forall host world text options now,
  exists tr p, copyText host world text options now = Some (tr, p).
Proof.
  intros host world text options now. unfold copyText, retryOperation.
  match goal with
  | |- context [retrySequence ?m ?f ?c now] =>
      destruct (retrySequence_total m f c now) as (tr & p & Hseq); rewrite Hseq
  end.
  eauto.
Qed.

(** X19.  Where the [cut] command is refused or throws, [performCut] copies
    the selected text and only then empties the element: once the copy has
    resolved, the promise resolves with the text and the value of an input or
    text area (the markup of an editable element) is empty; if the copy does
    not resolve, the element keeps its content and the promise is the copy's
    own. *)
Theorem cut_clears_only_after_copy :
  forall (host : Host) (g : Globals) (world : nat -> Globals) (element : Element)
         (now : Z),
    execCommand g "cut" <> ExecReturns true ->
    exists r,
      performCut host g world element now = Some r /\
      copyText host world (fst (fst (selectText element))) OptAbsent now
        = Some (cut_copy r, cut_promise r) /\
      (forall t v, cut_promise r = Settled t (Resolved v) ->
         v = fst (fst (selectText element)) /\
         cut_element r = clear_content element) /\
      ((forall t v, cut_promise r <> Settled t (Resolved v)) ->
         cut_element r = element).
Proof.
  intros host g world element now Hcut. unfold performCut.
  pose proof (selectText_element element) as Hel.
  destruct (selectText element) as [[text el] sel]. cbn [fst snd] in *. subst el.
  assert (Hs : match execCommand g "cut" with
               | ExecReturns b => b
               | ExecThrows => false
               end = false).
  { destruct (execCommand g "cut") as [[|]|]; try reflexivity. now contradiction Hcut. }
  rewrite Hs.
  destruct (copyText_returns host world text OptAbsent now) as (tr & p & Hcopy).
  rewrite Hcopy.
  destruct p as [|t [v|e]]; eexists; (split; [reflexivity|]); cbn [cut_copy cut_promise cut_element];
    (split; [reflexivity|]); split; try discriminate; try reflexivity.
  - intros t' v' H. inversion H; subst.
    split; [|reflexivity]. eapply ChainMore.copyText_resolution; eauto.
  - intros H. exfalso. now apply (H t v).
Qed.

Lemma cut_clears_only_after_copy_witness :
  exists r,
    performCut browser_host no_cut_page (fun _ => no_cut_page) secret_input 0 = Some r /\
    copyText browser_host (fun _ => no_cut_page) (fst (fst (selectText secret_input)))
      OptAbsent 0 = Some (cut_copy r, cut_promise r) /\
    (forall t v, cut_promise r = Settled t (Resolved v) ->
       v = fst (fst (selectText secret_input)) /\
       cut_element r = clear_content secret_input) /\
    ((forall t v, cut_promise r <> Settled t (Resolved v)) ->
       cut_element r = secret_input).
Proof.
  apply (cut_clears_only_after_copy browser_host no_cut_page (fun _ => no_cut_page)
           secret_input 0).
  discriminate.
Defined.

(** *** Copy from an element *)

Lemma legacyCopy_resolution : forall g text container now t v,
  snd (legacyCopy g text container now) = Settled t (Resolved v) -> v = text.
Proof.
  intros g text container now t v. unfold legacyCopy. cbn [snd].
  destruct (match execCommand g "copy" with ExecReturns b => b | ExecThrows => false end);
    intros H; now inversion H.
Qed.

Lemma legacyCopyFromElement_resolution : forall here offscreen element container now t v,
  snd (legacyCopyFromElement here offscreen element container now)
    = Settled t (Resolved v) ->
  v = fst (fst (selectText element)).
Proof.
  intros here offscreen element container now t v. unfold legacyCopyFromElement.
  destruct (selectText element) as [[text el] sel]. cbn [fst].
  destruct (match execCommand here "copy" with ExecReturns b => b | ExecThrows => false end).
  - cbn. intros H. now inversion H.
  - unfold lift. cbn [snd]. apply legacyCopy_resolution.
Qed.

Lemma elementAttempt_resolution : forall host here offscreen element container now t v,
  snd (elementAttempt host here offscreen element container now)
    = Settled t (Resolved v) ->
  v = fst (fst (selectText element)).
Proof.
  intros host here offscreen element container now t v. unfold elementAttempt.
  pose proof (legacyCopyFromElement_resolution here offscreen element container) as Hl.
  destruct (selectText element) as [[text el] sel]. cbn [fst] in *.
  destruct (clipboardAPI host here) as [api|].
  - unfold catch_effect, modernCopy. cbn [fst snd].
    destruct (api text now) as [|t' [u|e]]; cbn [snd]; try discriminate.
    + intros H. now inversion H.
    + specialize (Hl t').
      destruct (legacyCopyFromElement here offscreen element container t') as [l q].
      cbn [snd] in *. apply Hl.
  - specialize (Hl now).
    destruct (legacyCopyFromElement here offscreen element container now) as [l q].
    cbn [snd] in *. apply Hl.
Qed.

Lemma elementAttempt_in_place : forall host here offscreen element container now c s,
  execCommand here "copy" = ExecReturns true ->
  ~ In (Base (AppendOffscreen c s))
       (fst (elementAttempt host here offscreen element container now)).
Proof.
  intros host here offscreen element container now c s Hexec.
  assert (Hsel : forall l, In (Base (AppendOffscreen c s)) (snd (selectText element) ++ l)%list ->
                           In (Base (AppendOffscreen c s)) l).
  { intros l Hin. apply in_app_or in Hin. destruct Hin as [Hin|Hin]; [|exact Hin].
    exfalso. unfold selectText in Hin.
    destruct (nodeName element =? "SELECT")%string; cbn in Hin.
    { destruct Hin as [H|[]]; discriminate. }
    destruct ((nodeName element =? "INPUT") || (nodeName element =? "TEXTAREA"))%string;
      cbn in Hin.
    { destruct Hin as [H|[H|[]]]; discriminate. }
    destruct (hasAttribute element "contenteditable"); cbn in Hin;
      repeat (destruct Hin as [Hin|Hin]; try discriminate); contradiction. }
  assert (Hleg : forall t0, ~ In (Base (AppendOffscreen c s))
                   (fst (legacyCopyFromElement here offscreen element container t0))).
  { intros t0 Hin. unfold legacyCopyFromElement in Hin. rewrite Hexec in Hin.
    destruct (selectText element) as [[text el] sel]. cbn [fst snd] in *.
    apply Hsel in Hin. destruct Hin as [H|[]]. discriminate. }
  unfold elementAttempt. intros Hin.
  destruct (selectText element) as [[text el] sel] eqn:Hst. cbn [snd] in Hsel.
  destruct (clipboardAPI host here) as [api|].
  - unfold catch_effect, modernCopy, lift in Hin. cbn [fst snd] in Hin.
    destruct (api text now) as [|t' [u|e]]; cbn [fst snd] in Hin.
    + apply Hsel in Hin. destruct Hin as [H|[]]. discriminate.
    + apply Hsel in Hin. destruct Hin as [H|[]]. discriminate.
    + specialize (Hleg t').
      destruct (legacyCopyFromElement here offscreen element container t') as [l q].
      cbn [fst] in *. apply in_app_or in Hin. destruct Hin as [Hin|Hin].
      * apply Hsel in Hin. destruct Hin as [H|[]]. discriminate.
      * destruct Hin as [H|Hin]; [discriminate | contradiction].
  - specialize (Hleg now).
    destruct (legacyCopyFromElement here offscreen element container now) as [l q].
    cbn [fst] in *. apply Hsel in Hin. contradiction.
Qed.

(** X26.  [copyFromElement], when it resolves, resolves with the text
    selected in the element, whichever mechanism did the copy; and in an
    attempt during which the copy command issued on the element itself
    succeeds, no temporary text area is ever added to the page. *)
Theorem copyFromElement_selection :
  forall (host : Host) (world : nat -> Globals * Globals) (element : Element)
         (options : options) (now : Z),
    exists tr p,
      copyFromElement host world element options now = Some (tr, p) /\
      (forall t v, p = Settled t (Resolved v) -> v = fst (fst (selectText element))) /\
      (forall i t l c s,
         In (Invoked i t l) tr ->
         execCommand (fst (world i)) "copy" = ExecReturns true ->
         ~ In (Base (AppendOffscreen c s)) l).
Proof.
  intros host world element options now. unfold copyFromElement.
  match goal with
  | |- context [retryOperation ?m ?f ?c now] => set (fn := f); set (cfg := c)
  end.
  destruct (retryOperation_run (timers host) fn cfg now)
    as (tr & q & _ & Hrun & Hall & pre & i & t0 & _ & _ & Hq).
  rewrite Hrun. exists tr. eexists. split; [reflexivity|]. split.
  - intros t v Hres. apply withTimeout_resolved in Hres.
    rewrite Hres in Hq. unfold fn in Hq. now apply elementAttempt_resolution in Hq.
  - intros j t l c s Hin Hexec.
    rewrite Forall_forall in Hall. specialize (Hall _ Hin). cbn in Hall.
    subst l. unfold fn. now apply elementAttempt_in_place.
Qed.

End BrowserFacts.

(* ================================================================== *)
(** * Properties of the image copy *)

Module ItemsFacts.
Import Controller WriteChain Items Scenarios MoreScenarios ControllerFacts.

Lemma fetchImageBlob_reads_once : forall fetch source now,
  (List.length (fst (fetchImageBlob fetch source now)) <= 1)%nat.
Proof.
  intros fetch source now. destruct source as [b|c|src|url|]; cbn; try lia.
  destruct (src =? "")%string; cbn; lia.
Qed.

(** X20.  [copyImage] reads its source once, before the first attempt and
    never again: each attempt, however many the configuration allows, is
    exactly one clipboard write of the blob obtained, under the blob's own
    type ([image/png] when it has none); and when the promise resolves, it
    resolves with that blob (for a blob source, the blob passed in). *)
Theorem copyImage_reads_source_once :
  forall (tm : Timers) (fetch : string -> Z -> promise Response)
         (write : nat -> list string -> Z -> promise unit) (source : image_source)
         (options : options) (now : Z),
    exists r,
      copyImage tm fetch write source options now = Some r /\
      obtained r = fst (fetchImageBlob fetch source now) /\
      (List.length (obtained r) <= 1)%nat /\
      (forall t blob,
         snd (fetchImageBlob fetch source now) = Settled t (Resolved blob) ->
         Forall (fun s => match s with
                          | Invoked _ _ l => l = [ClipboardWrite [item_type blob ""]]
                          | Waited _ => True
                          end) (written r) /\
         (forall t' v, copied r = Settled t' (Resolved v) -> v = blob)) /\
      ((forall t blob,
          snd (fetchImageBlob fetch source now) <> Settled t (Resolved blob)) ->
       written r = [] /\ copied r = snd (fetchImageBlob fetch source now)).
Proof.
  intros tm fetch write source options now. unfold copyImage.
  pose proof (fetchImageBlob_reads_once fetch source now) as Hlen.
  destruct (fetchImageBlob fetch source now) as [l p]. cbn [fst snd] in *.
  destruct p as [|t [blob|e]].
  - eexists. split; [reflexivity|]. cbn. repeat split; try assumption; try discriminate.
  - set (fn := fun (i : nat) (t' : Z) => copyImageBlob (write i) blob (blob_type blob) t').
    destruct (retryOperation_run tm fn options t)
      as (tr & q & _ & Hrun & Hall & pre & i & t0 & _ & _ & Hq).
    rewrite Hrun.
    eexists. split; [reflexivity|]. cbn [obtained written copied].
    split; [reflexivity|]. split; [exact Hlen|]. split.
    + intros t1 blob0 H. inversion H; subst t1 blob0. clear H.
      assert (Htype : item_type blob (blob_type blob) = item_type blob "").
      { unfold item_type. cbn. destruct (blob_type blob =? "")%string; reflexivity. }
      split.
      * eapply Forall_impl; [|exact Hall].
        intros [j t1 l0|d]; [|auto]. intros ->. cbn. now rewrite Htype.
      * intros t' v Hres. apply withTimeout_resolved in Hres.
        rewrite Hres in Hq. unfold fn, copyImageBlob in Hq. cbn [snd] in Hq.
        destruct (write i _ t0) as [|t1 [u|e]]; inversion Hq. reflexivity.
    + intros H. exfalso. now apply (H t blob).
  - eexists. split; [reflexivity|]. cbn. repeat split; try assumption; try discriminate.
Qed.

(** X21.  When an image given by element or by address cannot be fetched,
    nothing is written to the clipboard and the caller gets one error whose
    message starts with the fetch-failure prefix: followed by the message of
    the network error, or, for an HTTP answer that is not ok, by
    [Failed to fetch image: ] and the status. *)
Theorem copyImage_fetch_failure :
  forall (tm : Timers) (fetch : string -> Z -> promise Response)
         (write : nat -> list string -> Z -> promise unit) (url : string)
         (options : options) (now : Z) (t : Z),
    (forall e, fetch url now = Settled t (Rejected e) ->
       copyImage tm fetch write (FromString url) options now
         = Some (mkImageRun [Fetch url] []
                   (Settled t (Rejected (Error ("Failed to fetch image URL (CORS?): "
                                                  ++ message_of e))))) /\
       (url <> "" ->
        copyImage tm fetch write (FromImage url) options now
          = Some (mkImageRun [Fetch url] []
                    (Settled t (Rejected (Error ("Failed to fetch image (CORS?): "
                                                   ++ message_of e))))))) /\
    (forall response, fetch url now = Settled t (Resolved response) ->
       ok response = false ->
       copyImage tm fetch write (FromString url) options now
         = Some (mkImageRun [Fetch url] []
                   (Settled t (Rejected (Error
                      ("Failed to fetch image URL (CORS?): Failed to fetch image: "
                         ++ string_of_Z (status response)))))) /\
       (url <> "" ->
        copyImage tm fetch write (FromImage url) options now
          = Some (mkImageRun [Fetch url] []
                    (Settled t (Rejected (Error
                       ("Failed to fetch image (CORS?): Failed to fetch image: "
                          ++ string_of_Z (status response)))))))).
Proof.
  intros tm fetch write url options now t. split.
  - intros e Hf. split.
    + unfold copyImage, fetchImageBlob, fetch_blob. now rewrite Hf.
    + intros Hurl. unfold copyImage, fetchImageBlob, fetch_blob.
      destruct (String.eqb_spec url ""); [contradiction|]. now rewrite Hf.
  - intros response Hf Hok. split.
    + unfold copyImage, fetchImageBlob, fetch_blob. now rewrite Hf, Hok.
    + intros Hurl. unfold copyImage, fetchImageBlob, fetch_blob.
      destruct (String.eqb_spec url ""); [contradiction|]. now rewrite Hf, Hok.
Qed.

Lemma copyImage_fetch_failure_witness :
  copyImage exact_timers not_found no_write (FromString "https://example.org/a.png")
    OptAbsent 0
    = Some (mkImageRun [Fetch "https://example.org/a.png"] []
              (Settled 9 (Rejected (Error
                 "Failed to fetch image URL (CORS?): Failed to fetch image: 404")))).
Proof.
  apply (proj2 (copyImage_fetch_failure exact_timers not_found no_write
                  "https://example.org/a.png" OptAbsent 0 9)
           (mkResponse false 404 (fun _ => Pending)));
    reflexivity.
Defined.

(** *** Rich text *)

Lemma richAttempt_resolution : forall host g text html container now t v,
  snd (richAttempt host g text html container now) = Settled t (Resolved v) ->
  v = mkRich text html.
Proof.
  intros host g text html container now t v. unfold richAttempt.
  assert (Hlegacy : forall t0,
            snd (copyRichTextLegacy g text html container t0) = Settled t (Resolved v) ->
            v = mkRich text html).
  { intros t0. unfold copyRichTextLegacy. cbn [snd].
    destruct (match rich_execCommand g "copy" with
              | ExecReturns b => b | ExecThrows => false end);
      intros H; now inversion H. }
  destruct (isClipboardItemSupported host g) as [w|]; [|apply Hlegacy].
  unfold catch_item, copyRichTextModern. cbn [fst snd].
  destruct (w _ now) as [|t' [u|e]]; cbn [snd]; try discriminate.
  - intros H. now inversion H.
  - specialize (Hlegacy t').
    destruct (copyRichTextLegacy g text html container t') as [l q].
    exact Hlegacy.
Qed.

(** X22.  The public [copyRich] checks its argument before anything else
    and the environment next: it starts no attempt unless both [text] and
    [html] are strings and a document exists; and when it resolves, it
    resolves with exactly the pair it was given, whichever of the two paths
    did the copy. *)
Theorem copyRich_guards_and_result :
  forall (host : Host) (world : nat -> RichGlobals) (options : option rich_argument)
         (now : Z),
    exists tr p,
      copyRich host world options now = Some (tr, p) /\
      (tr <> [] ->
       _isBrowser host = true /\
       exists o, options = Some o /\
                 _isString (arg_text o) = true /\ _isString (arg_html o) = true) /\
      (forall t v, p = Settled t (Resolved v) ->
         exists o, options = Some o /\
                   v = mkRich (chars (arg_text o)) (chars (arg_html o))).
Proof.
  intros host world options now. unfold copyRich.
  destruct options as [o|].
  2:{ do 2 eexists. split; [reflexivity|]. split; [congruence | discriminate]. }
  destruct (_isString (arg_text o)) eqn:Ht, (_isString (arg_html o)) eqn:Hh; cbn [negb orb];
    try (do 2 eexists; split; [reflexivity|]; split; [congruence | discriminate]).
  destruct (_isBrowser host) eqn:Hb; cbn [negb];
    try (do 2 eexists; split; [reflexivity|]; split; [congruence | discriminate]).
  unfold copyRichText. cbn [text html container rich_retries rich_retryDelay rich_timeout].
  match goal with
  | |- context [retryOperation ?m ?f ?c now] =>
      set (fn := f); set (cfg := c);
      destruct (retryOperation_run m fn cfg now)
        as (tr & q & _ & Hrun & _ & pre & i & t0 & _ & _ & Hq)
  end.
  rewrite Hrun. exists tr. eexists. split; [reflexivity|]. split; [eauto|].
  intros t v Hres. exists o. split; [reflexivity|].
  apply withTimeout_resolved in Hres.
  rewrite Hres in Hq. unfold fn in Hq. now apply richAttempt_resolution in Hq.
Qed.

End ItemsFacts.

(* ================================================================== *)
(** * Properties of click handling *)

Module ClickFacts.
Import Controller WriteChain Browser Items Click Scenarios MoreScenarios ControllerFacts.









(** X25.  A text given for the trigger wins over everything else: with a
    valid action, be it [cut], and whatever the target and the rich-copy flag,
    the click runs [copyText] on that text with the settings of the instance
    and nothing more, no element is read or emptied, and a [success] reports
    the action of the click with that very text. *)
Theorem given_text_wins :
  forall (host : Host) (page : Page) (self : Instance) (c : Clicked) (now : Z)
         (text : string),
    given_text c = Some text ->
    actionName c = "copy" \/ actionName c = "cut" ->
    exists tr p,
      copyText host (text_world page) text (instance_options self) now = Some (tr, p) /\
      onClick host page self c now
        = Some (mkClickRun (report (success_throws page) (actionName c) p)
                  (TextCopy tr) (Some p)) /\
      (forall a v, In (Success a v) (report (success_throws page) (actionName c) p) ->
         a = actionName c /\ v = text).
Proof.
  intros host page self c now text Htext Haction.
  destruct (BrowserFacts.copyText_returns host (text_world page) text
              (instance_options self) now) as (tr & p & Hcopy).
  exists tr, p. split; [exact Hcopy|]. split.
  - unfold onClick. rewrite Htext, Hcopy.
    destruct Haction as [-> | ->]; reflexivity.
  - intros a v Hin. destruct p as [|t [v'|e]]; cbn in Hin; try contradiction.
    + destruct Hin as [H|Hin].
      * inversion H; subst. split; [reflexivity|].
        eapply ChainMore.copyText_resolution; eauto.
      * destruct (success_throws page); [destruct Hin as [H|[]]; discriminate|].
        contradiction.
    + destruct Hin as [H|[]]. discriminate.
Qed.

Lemma given_text_wins_witness :
  exists tr p,
    copyText browser_host (text_world some_page) "hi"
      (instance_options default_instance) 0 = Some (tr, p) /\
    onClick browser_host some_page default_instance cut_with_text 0
      = Some (mkClickRun (report (success_throws some_page) (actionName cut_with_text) p)
                (TextCopy tr) (Some p)) /\
    (forall a v, In (Success a v) (report (success_throws some_page) (actionName cut_with_text) p) ->
       a = actionName cut_with_text /\ v = "hi").
Proof.
  apply (given_text_wins browser_host some_page default_instance cut_with_text 0 "hi").
  - reflexivity.
  - right. reflexivity.
Defined.

End ClickFacts.
